(** * imdb_tv_scraper: the resumable batch pipeline

    A shallow embedding of [imdb_tv_scraper.py] and the properties of its
    checkpoint / retry / finalize protocol.

    Conventions of the embedding:
    - Python [int] is [Z]; [str] is [string], read as a sequence of
      characters with code points 0 to 255: white space and letter case are
      those of Python on this range, and text with other characters is
      outside the model (a file content is the text after decoding);
    - the conversions between [int] and [str] are the mathematical ones: the
      bound some interpreters put on the length of such texts (4300 digits)
      is stated as a hypothesis where a property depends on it;
    - the file system is a finite map from paths to file contents; every
      [open]/[write]/[os.remove] of the program is a map operation, and
      none of them fails except the opening of a missing file for reading;
    - the metadata provider ([Cinemagoer]) is an interface: its answers depend
      on an external world that every call may change; the date of the day
      belongs to this world;
    - calls to the provider, [time.sleep] and [input] are recorded, in order,
      in a trace; a pause is taken to be one [time.sleep] accepts, and a
      prompt to be answered; [print] is not modelled. *)

From Stdlib Require Import ZArith QArith Ascii String Decimal DecimalString DecimalZ.
From stdpp Require Import base option list list_numbers strings gmap fin_maps sorting.

#[local] Set Warnings "-register-all".
#[local] Open Scope string_scope.
#[local] Open Scope list_scope.
#[local] Open Scope Z_scope.

(** ** Python strings *)

Module PyStr.

(** [s.startswith(p)] *)
Definition startswith (p s : string) : bool := String.prefix p s.

(** [needle in s] *)
Fixpoint contains (needle s : string) : bool :=
  String.prefix needle s ||
  match s with
  | EmptyString => false
  | String _ s' => contains needle s'
  end.

(** The characters [str.strip()] removes, those [str.isspace()] holds of:
    below 256 these are the code points 9 to 13, 28 to 32, 133 (next line)
    and 160 (no-break space). *)
Definition is_space (c : ascii) : bool :=
  let n := nat_of_ascii c in
  ((9 <=? n) && (n <=? 13) || (28 <=? n) && (n <=? 32)
   || (n =? 133) || (n =? 160))%nat.

Fixpoint lstrip (s : string) : string :=
  match s with
  | EmptyString => EmptyString
  | String c s' => if is_space c then lstrip s' else s
  end.

Fixpoint rstrip (s : string) : string :=
  match s with
  | EmptyString => EmptyString
  | String c s' =>
      match rstrip s' with
      | EmptyString => if is_space c then EmptyString else String c EmptyString
      | r => String c r
      end
  end.

(** [s.strip()] *)
Definition strip (s : string) : string := rstrip (lstrip s).

(** The lower-case form of a character: below 256 the capital letters are
    the code points 65 to 90 and 192 to 222 except 215 (the multiplication
    sign), each 32 below its small letter. *)
Definition lower_char (c : ascii) : ascii :=
  let n := nat_of_ascii c in
  if ((65 <=? n) && (n <=? 90)
      || (192 <=? n) && (n <=? 222) && negb (n =? 215))%nat
  then ascii_of_nat (n + 32) else c.

(** [s.lower()] *)
Fixpoint lower (s : string) : string :=
  match s with
  | EmptyString => EmptyString
  | String c s' => String (lower_char c) (lower s')
  end.

Fixpoint has_dot (s : string) : bool :=
  match s with
  | EmptyString => false
  | String c s' => Ascii.eqb c "." || has_dot s'
  end.

(** [s.rsplit('.', 1)[0]]: everything before the last dot, or all of [s]
    when it has no dot. *)
Fixpoint rsplit_dot_head (s : string) : string :=
  match s with
  | EmptyString => EmptyString
  | String c s' =>
      if Ascii.eqb c "." && negb (has_dot s') then EmptyString
      else String c (rsplit_dot_head s')
  end.

(** The lines of a text file opened in text mode, without their line ends.
    A carriage return ends a line like a line feed does (universal
    newlines); the empty lines this makes are dropped by every reader here. *)
Fixpoint lines_go (cur : string) (s : string) : list string :=
  match s with
  | EmptyString => [String.rev cur]
  | String c s' =>
      if Ascii.eqb c "010" || Ascii.eqb c "013"
      then String.rev cur :: lines_go EmptyString s'
      else lines_go (String c cur) s'
  end.
Definition lines (s : string) : list string := lines_go EmptyString s.

(** Every character of [s] passes the test [p]. *)
Fixpoint string_forall (p : ascii -> bool) (s : string) : bool :=
  match s with
  | EmptyString => true
  | String c s' => p c && string_forall p s'
  end.

(** [sep.join(l)] *)
Fixpoint join (sep : string) (l : list string) : string :=
  match l with
  | [] => EmptyString
  | [x] => x
  | x :: l' => x +:+ sep +:+ join sep l'
  end.

End PyStr.

(** ** Python integers as text *)

Module PyInt.

(** [str(z)], without the bound an interpreter may put on the number of
    digits (see [within_str_limit]). *)
Definition str (z : Z) : string := NilZero.string_of_int (Z.to_int z).

(** The digits of an integer literal: a digit, then digits each optionally
    preceded by one underscore. *)
Fixpoint digits (s : string) : option uint :=
  match s with
  | EmptyString => None
  | String a rest =>
      uint_of_char a
        match rest with
        | EmptyString => Some Nil
        | String "_" rest' => digits rest'
        | _ => digits rest
        end
  end.

(** The value of a base-10 literal after [strip]: sign, then digits. *)
Definition literal (s : string) : option Z :=
  match s with
  | String "-" ds => (fun u => - Z.of_uint u) <$> digits ds
  | String "+" ds => Z.of_uint <$> digits ds
  | ds => Z.of_uint <$> digits ds
  end.

End PyInt.

(** ** Python values and exceptions *)

(** The values a provider entity can hold in a field.  [PObj shown truth]
    is any other object (a float, a person record): it has a printed form
    and a truth value, and supports neither [v[0]] nor iteration. *)
Inductive pyval :=
| PNone
| PBool (b : bool)
| PInt (z : Z)
| PStr (s : string)
| PList (l : list pyval)
| PObj (shown : string) (truth : bool).

(** A raised exception: [type(e).__name__] and [str(e)]. *)
Record PyExn := { exn_type : string; exn_msg : string }.

Definition TypeError (msg : string) : PyExn := {| exn_type := "TypeError"; exn_msg := msg |}.
Definition IndexError (msg : string) : PyExn := {| exn_type := "IndexError"; exn_msg := msg |}.
Definition ValueError (msg : string) : PyExn := {| exn_type := "ValueError"; exn_msg := msg |}.
Definition FileNotFoundError (msg : string) : PyExn :=
  {| exn_type := "FileNotFoundError"; exn_msg := msg |}.

(** [int(s)] in base 10: the value, or the [ValueError] it raises, without
    the bound an interpreter may put on the number of digits. *)
Definition py_int (s : string) : PyExn + Z :=
  match PyInt.literal (PyStr.strip s) with
  | Some z => inr z
  | None => inl (ValueError ("invalid literal for int() with base 10: " +:+ s))
  end.

(** The truth value of [v] in a condition. *)
Definition truthy (v : pyval) : bool :=
  match v with
  | PNone => false
  | PBool b => b
  | PInt z => negb (z =? 0)%Z
  | PStr s => negb (String.eqb s EmptyString)
  | PList l => match l with [] => false | _ => true end
  | PObj _ truth => truth
  end.

(** [v[0]] *)
Definition getitem0 (v : pyval) : PyExn + pyval :=
  match v with
  | PList (x :: _) => inr x
  | PList [] => inl (IndexError "list index out of range")
  | PStr (String c _) => inr (PStr (String c EmptyString))
  | PStr EmptyString => inl (IndexError "string index out of range")
  | _ => inl (TypeError "object is not subscriptable")
  end.

(** The items [for x in v] yields. *)
Definition iterate (v : pyval) : PyExn + list pyval :=
  match v with
  | PList l => inr l
  | PStr s => inr ((fun c => PStr (String c EmptyString)) <$> list_ascii_of_string s)
  | _ => inl (TypeError "object is not iterable")
  end.

Fixpoint all_str (l : list pyval) : option (list string) :=
  match l with
  | [] => Some []
  | PStr s :: l' => cons s <$> all_str l'
  | _ => None
  end.

(** [sep.join(v)]: every item has to be a [str]. *)
Definition join_value (sep : string) (v : pyval) : PyExn + string :=
  match iterate v with
  | inl e => inl (TypeError "can only join an iterable")
  | inr items =>
      match all_str items with
      | Some l => inr (PyStr.join sep l)
      | None => inl (TypeError "sequence item: expected str instance")
      end
  end.

(** ** Files *)

(** What one write put into a file: a piece of text ([f.write]) or one
    record of the [csv] writer ([writerow], [writeheader]). *)
Inductive chunk :=
| Text (s : string)
| Row (cells : list pyval).

Abbreviation file := (list chunk).
Abbreviation filesystem := (gmap string file).

(** The column layout shared by the provisional store and the final output. *)
Definition fieldnames : list string :=
  [ "Position"; "Const"; "Created"; "Modified"; "Description";
    "Title"; "URL"; "Title Type"; "IMDb Rating"; "Runtime (mins)";
    "Year"; "Genres"; "Num Votes"; "Release Date"; "Directors";
    "Your Rating"; "Date Rated" ].

Abbreviation dict := (gmap string pyval).

(** [csv.DictWriter]: a missing key is written as the empty string. *)
Definition dict_to_list (rowdict : dict) : list pyval :=
  (fun key => default (PStr EmptyString) (rowdict !! key)) <$> fieldnames.

(** [writer.writeheader()] *)
Definition header_row : chunk := Row (PStr <$> fieldnames).

(** [csv.DictWriter.writerow] refuses a dict with a key that is no column. *)
Definition wrong_fields (rowdict : dict) : list string :=
  filter (fun key => key ∉ fieldnames) (elements (dom rowdict)).

Definition get_progress_file (output_file : string) : string :=
  PyStr.rsplit_dot_head output_file +:+ "_progress.txt".

Definition get_temp_csv (output_file : string) : string :=
  PyStr.rsplit_dot_head output_file +:+ "_temp.csv".

Definition get_failed_file (output_file : string) : string :=
  PyStr.rsplit_dot_head output_file +:+ "_failed.txt".

Definition get_failed_list_file (output_file : string) : string :=
  PyStr.rsplit_dot_head output_file +:+ "_failed_list.txt".

(** [s * n] *)
Fixpoint times (s : string) (n : nat) : string :=
  match n with
  | O => EmptyString
  | S n' => s +:+ times s n'
  end.

Definition newline : string := String "010" EmptyString.

(** ** The interfaces the program is written against *)

(** What the Python runtime and the [csv] module decide: the [repr] of a
    value (only used to print a list) and the text of one csv record. *)
Class PyRuntime := {
  py_repr : pyval -> string;
  csv_line : list pyval -> string;
}.

(** The [Cinemagoer] object [ia] and the entities it returns.  [World] is the
    state of everything outside the program that an answer can depend on. *)
Class Cinemagoer (World Movie : Type) := {
  (** [ia.search_movie(title)] *)
  search_movie : World -> string -> World * (PyExn + list Movie);
  (** [ia.update(result, info=['main'])]: the entity with its details loaded *)
  update : World -> Movie -> World * (PyExn + Movie);
  (** [show.movieID] *)
  movieID : Movie -> pyval;
  (** [show[key]], [None] when the key is absent *)
  movie_get : Movie -> string -> option pyval;
  (** the truth value of the entity in [if show:] *)
  movie_bool : Movie -> bool;
  (** [datetime.now().strftime('%Y-%m-%d')] *)
  today : World -> string;
}.

(** [str(v)] *)
Definition py_str `{PyRuntime} (v : pyval) : string :=
  match v with
  | PNone => "None"
  | PBool true => "True"
  | PBool false => "False"
  | PInt z => PyInt.str z
  | PStr s => s
  | PList l => "[" +:+ PyStr.join ", " (py_repr <$> l) +:+ "]"
  | PObj shown _ => shown
  end.

Definition chunk_text `{PyRuntime} (c : chunk) : string :=
  match c with
  | Text s => s
  | Row cells => csv_line cells
  end.

(** [f.read()] of a whole file *)
Definition file_text `{PyRuntime} (f : file) : string :=
  foldr (fun c acc => chunk_text c +:+ acc) EmptyString f.

(** ** A state monad for the effects *)

Definition StateM (S A : Type) : Type := S -> A * S.

Definition ret {S A} (a : A) : StateM S A := fun st => (a, st).

Definition bind {S A B} (c : StateM S A) (k : A -> StateM S B) : StateM S B :=
  fun st => let '(a, st') := c st in k a st'.

Notation "x <- c ;; k" := (bind c (fun x => k))
  (at level 20, c at level 99, k at level 200, only parsing).
Notation "' pat <- c ;; k" := (bind c (fun x => match x with pat => k end))
  (at level 20, pat pattern, c at level 99, k at level 200, only parsing).
Notation "c ;; k" := (bind c (fun _ => k))
  (at level 100, k at level 200, only parsing, right associativity).

(** [when b c]: [if b: c] *)
Definition when {S} (b : bool) (c : StateM S unit) : StateM S unit :=
  if b then c else ret tt.

(** Binding a result that may be a raised exception. *)
Definition bind_exn {A B} (r : PyExn + A) (k : A -> PyExn + B) : PyExn + B :=
  match r with
  | inl e => inl e
  | inr a => k a
  end.
Notation "'try!' x := r 'in' k" := (bind_exn r (fun x => k))
  (at level 10, x name, r at level 100, k at level 200, only parsing).

(** ** The program *)

Section Scraper.
Context `{rt : PyRuntime} {World Movie : Type} `{ia : !Cinemagoer World Movie}.

(** What the run does to the outside, in order. *)
Inductive event :=
| EvSearch (title : string)          (* ia.search_movie(title) *)
| EvUpdate (result : Movie)          (* ia.update(result, info=['main']) *)
| EvSleep (secs : Q)                 (* time.sleep(secs) *)
| EvInput (resume_from : Z).         (* input("Resume from position ...") *)

Record State := mkState {
  world : World;
  files : filesystem;
  trace : list event;
}.

Abbreviation M := (StateM State).

Definition log (e : event) : M unit :=
  fun st => (tt, mkState (world st) (files st) (trace st ++ [e])%list).

Definition set_files (f : filesystem -> filesystem) : M unit :=
  fun st => (tt, mkState (world st) (f (files st)) (trace st)).

Definition get_files : M filesystem := fun st => (files st, st).

(** [os.path.exists(path)] *)
Definition path_exists (path : string) : M bool :=
  fs <- get_files;; ret (bool_decide (is_Some (fs !! path))).

(** [os.remove(path)] *)
Definition remove (path : string) : M unit := set_files (delete path).

(** [open(path, 'w')]: the file is created or emptied *)
Definition open_w (path : string) : M unit := set_files <[path := []]>.

(** [open(path, 'a')]: the file is created when it is missing *)
Definition open_a (path : string) : M unit :=
  set_files (fun fs => <[path := default [] (fs !! path)]> fs).

(** one write at the end of the open file *)
Definition write (path : string) (c : chunk) : M unit :=
  set_files (fun fs => <[path := (default [] (fs !! path) ++ [c])%list]> fs).

(** [time.sleep(secs)], for a pause [time.sleep] accepts: the pause is
    recorded, and the time that passes shows in the state only through the
    later answers of the provider's world. *)
Definition sleep (secs : Q) : M unit := log (EvSleep secs).

Definition save_progress (output_file : string) (position : Z) : M unit :=
  let progress_file := get_progress_file output_file in
  open_w progress_file;;
  write progress_file (Text (PyInt.str position)).

(** The bare [except:] turns every failure of the read into [None]. *)
Definition load_progress (output_file : string) : M (option Z) :=
  let progress_file := get_progress_file output_file in
  fs <- get_files;;
  match fs !! progress_file with
  | Some f =>
      match py_int (PyStr.strip (file_text f)) with
      | inr last => ret (Some last)
      | inl _ => ret None
      end
  | None => ret None
  end.

Definition append_to_csv (output_file : string) (row : dict) (write_header : bool)
  : M (PyExn + unit) :=
  (if write_header then open_w output_file else open_a output_file);;
  when write_header (write output_file header_row);;
  match wrong_fields row with
  | [] => write output_file (Row (dict_to_list row));; ret (inr tt)
  | _ => ret (inl (ValueError "dict contains fields not in fieldnames"))
  end.

Definition append_failure (output_file : string) (position : Z) (title error : string)
  : M unit :=
  let failed_file := get_failed_file output_file in
  let failed_list_file := get_failed_list_file output_file in
  appending <- path_exists failed_file;;
  (if appending then open_a failed_file else open_w failed_file);;
  when (negb appending)
    (write failed_file (Text ("FAILED TITLES" +:+ newline));;
     write failed_file (Text (times "=" 80 +:+ newline +:+ newline)));;
  write failed_file (Text ("Position: " +:+ PyInt.str position +:+ newline));;
  write failed_file (Text ("Title: " +:+ title +:+ newline));;
  write failed_file (Text ("Error: " +:+ error +:+ newline));;
  write failed_file (Text (times "-" 80 +:+ newline));;
  open_a failed_list_file;;
  write failed_list_file (Text (title +:+ newline)).

(** *** The lookup with its retry loop *)

Definition call_search (title : string) : M (PyExn + list Movie) :=
  fun st =>
    let '(w, r) := search_movie (world st) title in
    (r, mkState w (files st) (trace st ++ [EvSearch title])%list).

Definition call_update (result : Movie) : M (PyExn + Movie) :=
  fun st =>
    let '(w, r) := update (world st) result in
    (r, mkState w (files st) (trace st ++ [EvUpdate result])%list).

(** [result.get('kind') in ['tv series', 'tv mini series']] *)
Definition is_tv_series (result : Movie) : bool :=
  match movie_get result "kind" with
  | Some (PStr kind) => String.eqb kind "tv series" || String.eqb kind "tv mini series"
  | _ => false
  end.

(** [for result in results: ...]: the first entity whose details load and
    whose kind is a series; a failed [update] moves on to the next one. *)
Fixpoint first_tv_series (results : list Movie) : M (option Movie) :=
  match results with
  | [] => ret None
  | result :: rest =>
      r <- call_update result;;
      match r with
      | inr result' =>
          if is_tv_series result' then ret (Some result')
          else first_tv_series rest
      | inl _ => first_tv_series rest
      end
  end.

(** The text kept of a raised error: a message that is a printed dict is
    cut down to its HTTP status. *)
Definition clean_error_msg (error_msg : string) : string :=
  if PyStr.startswith "{" error_msg then
    if PyStr.contains "405" error_msg then "HTTP 405: Not Allowed"
    else if PyStr.contains "429" error_msg then "HTTP 429: Too Many Requests"
    else "HTTP error"
  else error_msg.

(** The errors the loop retries. *)
Definition retryable (error_msg : string) : bool :=
  PyStr.contains "405" error_msg || PyStr.contains "429" error_msg
  || PyStr.contains "Too Many Requests" error_msg.

(** [for attempt in range(max_retries): ...], over the attempts left. *)
Fixpoint search_attempts (title : string) (max_retries : Z) (attempts : list Z)
  : M (option Movie * option string) :=
  match attempts with
  | [] => ret (None, Some "Max retries exceeded")
  | attempt :: later =>
      r <- call_search title;;
      match r with
      | inr [] => ret (None, Some "No results found")
      | inr results =>
          found <- first_tv_series results;;
          match found with
          | Some result => ret (Some result, None)
          | None => ret (None, Some "No TV series found in results")
          end
      | inl e =>
          let error_type := exn_type e in
          let error_msg := clean_error_msg (exn_msg e) in
          if retryable error_msg then
            if attempt <? max_retries - 1 then
              let backoff_delay := 2 ^ (attempt + 1) in
              sleep (inject_Z backoff_delay);;
              search_attempts title max_retries later
            else ret (None, Some (error_type +:+ ": " +:+ error_msg))
          else ret (None, Some (error_type +:+ ": " +:+ error_msg))
      end
  end.

Definition search_tv_show (title : string) (max_retries : Z)
  : M (option Movie * option string) :=
  search_attempts title max_retries (seqZ 0 max_retries).

(** *** Shaping an entity into a row *)

(** [show.get(key, '')] *)
Definition get_or_empty (show : Movie) (key : string) : pyval :=
  default (PStr EmptyString) (movie_get show key).

(** [', '.join([str(c) for c in v])] *)
Definition join_strs (v : pyval) : PyExn + pyval :=
  try! items := iterate v in
  inr (PStr (PyStr.join ", " (py_str <$> items))).

Definition extract_show_data (w : World) (show : Movie) : PyExn + dict :=
  let imdb_id := "tt" +:+ py_str (movieID show) in
  let title := get_or_empty show "title" in
  let url := "https://www.imdb.com/title/" +:+ imdb_id +:+ "/" in
  let rating := get_or_empty show "rating" in
  let votes := get_or_empty show "votes" in
  let year := get_or_empty show "year" in
  let release_date := get_or_empty show "original air date" in
  let release_date :=
    if negb (truthy release_date) && truthy year
    then PStr (py_str year +:+ "-01-01") else release_date in
  try! runtime :=
    match movie_get show "runtimes" with
    | Some runtimes => if truthy runtimes then getitem0 runtimes else inr (PStr EmptyString)
    | None => inr (PStr EmptyString)
    end in
  try! genres :=
    match movie_get show "genres" with
    | Some genres => try! s := join_value ", " genres in inr (PStr s)
    | None => inr (PStr EmptyString)
    end in
  try! creators :=
    match movie_get show "creator" with
    | Some creator => join_strs creator
    | None =>
        match movie_get show "director" with
        | Some director => join_strs director
        | None => inr (PStr EmptyString)
        end
    end in
  let now := today w in
  inr (list_to_map
         [ ("Const", PStr imdb_id);
           ("Title", title);
           ("URL", PStr url);
           ("Title Type", PStr "tvSeries");
           ("IMDb Rating", rating);
           ("Runtime (mins)", runtime);
           ("Year", year);
           ("Genres", genres);
           ("Num Votes", votes);
           ("Release Date", release_date);
           ("Directors", creators);
           ("Created", PStr now);
           ("Modified", PStr now);
           ("Description", PStr EmptyString);
           ("Your Rating", PStr EmptyString);
           ("Date Rated", PStr EmptyString) ]).

(** *** The orchestrator *)

(** The local variables of [process_tv_list] that the loop updates. *)
Record Locals := mkLocals {
  results : list dict;
  failed_count : Z;
  success_count : Z;
}.

(** [enumerate(l, start)] *)
Fixpoint enumerate {A} (start : Z) (l : list A) : list (Z * A) :=
  match l with
  | [] => []
  | x :: l' => (start, x) :: enumerate (start + 1) l'
  end.

(** The lines of the input file: stripped, blank ones dropped. *)
Definition read_titles (text : string) : list string :=
  filter (fun line => line ≠ EmptyString) (PyStr.strip <$> PyStr.lines text).

Definition get_world : M World := fun st => (world st, st).

(** The startup protocol (lines 245-268): returns [start_position]. *)
Definition check_resume (output_file response : string) : M (PyExn + Z) :=
  let temp_csv := get_temp_csv output_file in
  last_position <- load_progress output_file;;
  temp_exists <- path_exists temp_csv;;
  start_position <-
    match last_position with
    | Some last_position =>
        if negb (last_position =? 0) && temp_exists then
          log (EvInput (last_position + 1));;
          if String.eqb (PyStr.lower (PyStr.strip response)) "y" then
            ret (last_position + 1)
          else
            (still_there <- path_exists temp_csv;;
             when still_there (remove temp_csv));;
            let progress_file := get_progress_file output_file in
            (still_there <- path_exists progress_file;;
             when still_there (remove progress_file));;
            ret 1
        else ret 1
    | None => ret 1
    end;;
  if start_position =? 1 then
    r <- append_to_csv temp_csv ∅ true;;
    match r with
    | inr _ => ret (inr start_position)
    | inl e => ret (inl e)
    end
  else ret (inr start_position).

(** The failure branches of the loop body. *)
Definition record_failure (output_file : string) (position : Z) (title error_msg : string)
    (l : Locals) : M Locals :=
  append_failure output_file position title error_msg;;
  ret (mkLocals (results l) (failed_count l + 1) (success_count l)).

(** [error if error else 'Not found'] *)
Definition error_or_not_found (error : option string) : string :=
  match error with
  | Some msg => if String.eqb msg EmptyString then "Not found" else msg
  | None => "Not found"
  end.

(** One pass of the [for position, title in enumerate(tv_shows, start=1)]
    loop (lines 277-319). *)
Definition process_position (output_file : string) (delay : Q) (start_position count : Z)
    (item : Z * string) (l : Locals) : M Locals :=
  let '(position, title) := item in
  let temp_csv := get_temp_csv output_file in
  if position <? start_position then ret l
  else
    ' (show, error) <- search_tv_show title 3;;
    l <-
      match show with
      | Some show =>
          if movie_bool show then
            w <- get_world;;
            match extract_show_data w show with
            | inr show_data =>
                let show_data := <["Position" := PInt position]> show_data in
                let l := mkLocals (results l ++ [show_data]) (failed_count l) (success_count l) in
                r <- append_to_csv temp_csv show_data false;;
                match r with
                | inr _ => ret (mkLocals (results l) (failed_count l) (success_count l + 1))
                | inl e =>
                    record_failure output_file position title
                      ("Data extraction failed: " +:+ exn_type e +:+ ": " +:+ exn_msg e) l
                end
            | inl e =>
                record_failure output_file position title
                  ("Data extraction failed: " +:+ exn_type e +:+ ": " +:+ exn_msg e) l
            end
          else record_failure output_file position title (error_or_not_found error) l
      | None => record_failure output_file position title (error_or_not_found error) l
      end;;
    when (position mod 10 =? 0) (save_progress output_file position);;
    when (negb (Qle_bool delay 0) && (position <? count)) (sleep delay);;
    ret l.

Fixpoint for_each (body : Z * string -> Locals -> M Locals) (items : list (Z * string))
    (l : Locals) : M Locals :=
  match items with
  | [] => ret l
  | item :: rest => l' <- body item l;; for_each body rest l'
  end.

(** [writer.writerows(results)] *)
Fixpoint writerows (path : string) (rows : list dict) : M (PyExn + unit) :=
  match rows with
  | [] => ret (inr tt)
  | row :: rest =>
      match wrong_fields row with
      | [] => write path (Row (dict_to_list row));; writerows path rest
      | _ => ret (inl (ValueError "dict contains fields not in fieldnames"))
      end
  end.

(** The final write and the clean-up (lines 321-341). *)
Definition finalize (output_file : string) (l : Locals) : M (PyExn + Locals) :=
  let temp_csv := get_temp_csv output_file in
  open_w output_file;;
  write output_file header_row;;
  r <- writerows output_file (results l);;
  match r with
  | inl e => ret (inl e)
  | inr _ =>
      (still_there <- path_exists temp_csv;;
       when still_there (remove temp_csv));;
      let progress_file := get_progress_file output_file in
      (still_there <- path_exists progress_file;;
       when still_there (remove progress_file));;
      ret (inr l)
  end.

(** The run over the titles read (lines 245-341). *)
Definition process_titles (tv_shows : list string) (output_file : string) (delay : Q)
    (response : string) : M (PyExn + Locals) :=
  r <- check_resume output_file response;;
  match r with
  | inl e => ret (inl e)
  | inr start_position =>
      l <- for_each
             (process_position output_file delay start_position (Z.of_nat (length tv_shows)))
             (enumerate 1 tv_shows) (mkLocals [] 0 0);;
      finalize output_file l
  end.

(** [process_tv_list(input_file, output_file, delay)]; [response] is what
    the operator types if asked whether to resume (the prompt is taken to
    be answered, and the input file to decode).  The result is the
    exception that ends the run, or the final values of the counters. *)
Definition process_tv_list (input_file output_file : string) (delay : Q)
    (response : string) : M (PyExn + Locals) :=
  fs <- get_files;;
  match fs !! input_file with
  | None => ret (inl (FileNotFoundError input_file))
  | Some f => process_titles (read_titles (file_text f)) output_file delay response
  end.

(** *** Vocabulary of the specification

    The words the properties below are stated in.  None of this is used by
    the program above. *)

(** The two kinds of record a position can yield. *)
Inductive outcome :=
| Extracted (row : dict)
| Failed (error_msg : string).

(** The outcome the loop body derives from what the lookup returned. *)
Definition outcome_of (w : World) (position : Z) (show : option Movie)
    (error : option string) : outcome :=
  match show with
  | Some show =>
      if movie_bool show then
        match extract_show_data w show with
        | inr show_data => Extracted (<["Position" := PInt position]> show_data)
        | inl e =>
            Failed ("Data extraction failed: " +:+ exn_type e +:+ ": " +:+ exn_msg e)
        end
      else Failed (error_or_not_found error)
  | None => Failed (error_or_not_found error)
  end.

(** The block one failure adds to the detailed log, and the log's header. *)
Definition failure_block (position : Z) (title error : string) : file :=
  [ Text ("Position: " +:+ PyInt.str position +:+ newline);
    Text ("Title: " +:+ title +:+ newline);
    Text ("Error: " +:+ error +:+ newline);
    Text (times "-" 80 +:+ newline) ].

Definition failed_header : file :=
  [ Text ("FAILED TITLES" +:+ newline);
    Text (times "=" 80 +:+ newline +:+ newline) ].

(** What recording an outcome does to the files: a success goes to the
    provisional store, a failure to the two failure sinks. *)
Definition commit (output_file : string) (position : Z) (title : string) (o : outcome)
    (fs : filesystem) : filesystem :=
  match o with
  | Extracted row =>
      let temp_csv := get_temp_csv output_file in
      <[temp_csv := default [] (fs !! temp_csv) ++ [Row (dict_to_list row)]]> fs
  | Failed error_msg =>
      let failed_file := get_failed_file output_file in
      let failed_list_file := get_failed_list_file output_file in
      <[failed_list_file := default [] (fs !! failed_list_file) ++ [Text (title +:+ newline)]]>
        (<[failed_file :=
             default failed_header (fs !! failed_file) ++ failure_block position title error_msg]>
           fs)
  end.

(** What recording an outcome does to the local variables. *)
Definition tally (o : outcome) (l : Locals) : Locals :=
  match o with
  | Extracted row => mkLocals (results l ++ [row]) (failed_count l) (success_count l + 1)
  | Failed _ => mkLocals (results l) (failed_count l + 1) (success_count l)
  end.

(** The checkpoint after a position. *)
Definition checkpoint (output_file : string) (position : Z) (fs : filesystem) : filesystem :=
  if position mod 10 =? 0
  then <[get_progress_file output_file := [Text (PyInt.str position)]]> fs
  else fs.

(** The ProgressMarker as [load_progress] reads it from the files. *)
Definition read_marker (output_file : string) (fs : filesystem) : option Z :=
  match fs !! get_progress_file output_file with
  | Some f =>
      match py_int (PyStr.strip (file_text f)) with
      | inr last => Some last
      | inl _ => None
      end
  | None => None
  end.

(** The state and locals once the first [n] positions have gone through
    the loop. *)
Definition after_positions (output_file : string) (delay : Q) (start_position : Z)
    (tv_shows : list string) (n : nat) (st : State) : Locals * State :=
  for_each (process_position output_file delay start_position (Z.of_nat (length tv_shows)))
    (take n (enumerate 1 tv_shows)) (mkLocals [] 0 0) st.

(** The sleeps and the searches of a trace, in order. *)
Definition sleeps (tr : list event) : list Q :=
  omap (fun e => match e with EvSleep secs => Some secs | _ => None end) tr.

Definition searches (tr : list event) : list string :=
  omap (fun e => match e with EvSearch title => Some title | _ => None end) tr.

Definition prompts (tr : list event) : list Z :=
  omap (fun e => match e with EvInput p => Some p | _ => None end) tr.

(** The matching policy in the words of the specification:
    [matching_policy w candidates examined w' found] says that walking
    [candidates] from world [w] fetches the details of exactly [examined],
    in this order and once each, ends in world [w'], and accepts [found]. *)
Inductive matching_policy
  : World -> list Movie -> list Movie -> World -> option Movie -> Prop :=
| policy_exhausted w :
    matching_policy w [] [] w None
| policy_skip_raised w c rest w1 e examined w2 found :
    update w c = (w1, inl e) ->
    matching_policy w1 rest examined w2 found ->
    matching_policy w (c :: rest) (c :: examined) w2 found
| policy_skip_other_kind w c rest w1 c' examined w2 found :
    update w c = (w1, inr c') ->
    is_tv_series c' = false ->
    matching_policy w1 rest examined w2 found ->
    matching_policy w (c :: rest) (c :: examined) w2 found
| policy_accept w c rest w1 c' :
    update w c = (w1, inr c') ->
    is_tv_series c' = true ->
    matching_policy w (c :: rest) [c] w1 (Some c').

(** The classification of a raised error: transient errors are the ones
    the retry loop retries, all others are permanent. *)
Definition transient (e : PyExn) : bool := retryable (clean_error_msg (exn_msg e)).

(** The description of a failed lookup: error type and message. *)
Definition failure_description (e : PyExn) : string :=
  exn_type e +:+ ": " +:+ clean_error_msg (exn_msg e).

(** The inter-item delay after a position, as trace events. *)
Definition delay_events (delay : Q) (position count : Z) : list event :=
  if negb (Qle_bool delay 0) && (position <? count) then [EvSleep delay] else [].

(** The operator's answer counts as a yes. *)
Definition says_yes (response : string) : bool :=
  String.eqb (PyStr.lower (PyStr.strip response)) "y".

(** The provisional store as [append_to_csv(temp_csv, {}, write_header=True)]
    leaves it. *)
Definition fresh_store : file := [header_row; Row (dict_to_list ∅)].

(** The final output for a list of rows. *)
Definition final_output (rows : list dict) : file :=
  header_row :: ((fun row => Row (dict_to_list row)) <$> rows).

(** How a lookup can end: with a series, or with one of three failures. *)
Definition search_ended (r : option Movie * option string) : Prop :=
  match r with
  | (Some result, error) => error = None ∧ is_tv_series result = true
  | (None, error) =>
      error = Some "No results found"
      ∨ error = Some "No TV series found in results"
      ∨ ∃ e, error = Some (failure_description e)
  end.

(** The position a row was extracted for. *)
Definition row_position (row : dict) : option Z :=
  match row !! "Position" with
  | Some (PInt position) => Some position
  | _ => None
  end.

(** The rows and the failures among the outcomes of a run segment. *)
Definition extracted_rows (os : list (Z * string * outcome)) : list dict :=
  omap (fun o => match o with (_, _, Extracted row) => Some row | _ => None end) os.

Definition failures (os : list (Z * string * outcome)) : list (Z * string * string) :=
  omap (fun o => match o with (p, t, Failed msg) => Some (p, t, msg) | _ => None end) os.

(** An extracted row carries its position and only known columns. *)
Definition sound_outcome (o : Z * string * outcome) : Prop :=
  match o with
  | (p, _, Extracted row) => row_position row = Some p /\ wrong_fields row = []
  | (_, _, Failed _) => True
  end.

(** The position and title an outcome belongs to. *)
Definition outcome_item (o : Z * string * outcome) : Z * string :=
  let '(p, t, _) := o in (p, t).

(** The local variables after the outcomes of a run segment. *)
Definition tally_all (os : list (Z * string * outcome)) (l : Locals) : Locals :=
  mkLocals (results l ++ extracted_rows os)
    (failed_count l + Z.of_nat (length (failures os)))
    (success_count l + Z.of_nat (length (extracted_rows os))).

(** The items of the loop that are not skipped. *)
Definition to_process (start_position : Z) (items : list (Z * string)) : list (Z * string) :=
  filter (fun item => start_position <= item.1) items.

(** The files after the outcomes of a run segment have been recorded and
    checkpointed, position by position. *)
Definition record_all (output_file : string) (os : list (Z * string * outcome))
    (fs : filesystem) : filesystem :=
  foldl (fun fs o => let '(p, t, o) := o in checkpoint output_file p (commit output_file p t o fs))
    fs os.

(** The position the startup offers to resume from, when it asks at all:
    there is a marker other than 0 and a provisional store. *)
Definition resume_offer (output_file : string) (fs : filesystem) : option Z :=
  match read_marker output_file fs with
  | Some last_position =>
      if negb (last_position =? 0)
         && bool_decide (is_Some (fs !! get_temp_csv output_file))
      then Some (last_position + 1)
      else None
  | None => None
  end.

(** The five paths a run for [output_file] works on. *)
Definition artifacts (output_file : string) : list string :=
  [ output_file; get_progress_file output_file; get_temp_csv output_file;
    get_failed_file output_file; get_failed_list_file output_file ].

End Scraper.

(** ** The command line *)

(** [float(s)] for the texts of finite numbers; [None] is the [ValueError].
    (The texts of infinities and of not-a-number are outside the model.) *)
Class PyFloat := {
  py_float : string -> option Q;
}.

(** [s.split('=')]: the pieces of [s] between its equal signs. *)
Fixpoint split_eq_go (cur : string) (s : string) : list string :=
  match s with
  | EmptyString => [String.rev cur]
  | String c s' =>
      if Ascii.eqb c "="
      then String.rev cur :: split_eq_go EmptyString s'
      else split_eq_go (String c cur) s'
  end.

Definition split_eq (s : string) : list string := split_eq_go EmptyString s.

Section Main.
Context `{rt : PyRuntime} `{fl : PyFloat} {World Movie : Type} `{ia : !Cinemagoer World Movie}.

(** [for arg in sys.argv[2:]: ...]: the output file and the delay the
    arguments select, or [None] when the loop ends the program
    ([sys.exit(1)] on a delay that is no number). *)
Fixpoint parse_args (args : list string) (output_file : string) (delay : Q)
  : option (string * Q) :=
  match args with
  | [] => Some (output_file, delay)
  | arg :: rest =>
      if PyStr.startswith "--delay=" arg then
        match split_eq arg !! 1%nat with
        | Some value =>
            match py_float value with
            | Some delay => parse_args rest output_file delay
            | None => None
            end
        | None => None
        end
      else if negb (PyStr.startswith "--" arg) then parse_args rest arg delay
      else parse_args rest output_file delay
  end.

(** [main()] with [sys.argv = argv]: the exit status of the program. *)
Definition main (argv : list string) (response : string)
  : StateM (State (World := World) (Movie := Movie)) Z :=
  match argv with
  | [] | [_] => ret 1
  | _ :: input_file :: args =>
      match parse_args args "tv_shows_imdb.csv" 0%Q with
      | None => ret 1
      | Some (output_file, delay) =>
          r <- process_tv_list input_file output_file delay response;;
          match r with
          | inl _ => ret 1
          | inr _ => ret 0
          end
      end
  end.

End Main.

(** ** More vocabulary *)

(** The first [n] sleeps of the backoff: 2, 4, 8, ... seconds. *)
Definition backoff_schedule (n : Z) : list Q :=
  (fun i => inject_Z (2 ^ (i + 1))) <$> seqZ 0 n.

(** The arguments that name an output file, and the delay values given. *)
Definition output_args (args : list string) : list string :=
  filter (fun arg => negb (PyStr.startswith "--" arg) = true) args.

Definition delay_args (args : list string) : list string :=
  filter (fun arg => PyStr.startswith "--delay=" arg = true) args.

(** The text a [--delay=] argument gives for the delay: [arg.split('=')[1]]. *)
Definition delay_text (arg : string) : string :=
  default EmptyString (split_eq arg !! 1%nat).

(** A text without line ends. *)
Definition one_line (s : string) : bool :=
  PyStr.string_forall (fun c => negb (Ascii.eqb c "010" || Ascii.eqb c "013")) s.

(** What [lstrip] returns does not start with white space. *)
Definition starts_clean (s : string) : Prop :=
  match s with
  | EmptyString => True
  | String c _ => PyStr.is_space c = false
  end.

(** The integers whose decimal text has at most 4300 digits, the length up
    to which every interpreter converts between [int] and [str]. *)
Definition within_str_limit (z : Z) : Prop := Z.abs z < 10 ^ 4300.

(** A text made of white space only. *)
Definition blank (s : string) : bool := PyStr.string_forall PyStr.is_space s.

(** ** A scripted provider, to run the program on concrete inputs *)

Module Demo.

(** An entity with its fields; [fetch_fails] makes [update] raise. *)
Record movie := mkMovie {
  m_id : string;
  m_data : list (string * pyval);
  fetch_fails : bool;
}.

(** The answers the provider will give, each to the next search of its
    title; a title with no answer left finds nothing. *)
Record scripted_world := mkWorld {
  script : list (string * (PyExn + list movie));
  date : string;
}.

Fixpoint next_answer (title : string) (s : list (string * (PyExn + list movie)))
  : (PyExn + list movie) * list (string * (PyExn + list movie)) :=
  match s with
  | [] => (inr [], [])
  | (t, a) :: s' =>
      if String.eqb t title then (a, s')
      else let '(r, rest) := next_answer title s' in (r, (t, a) :: rest)
  end.

Fixpoint assoc (key : string) (l : list (string * pyval)) : option pyval :=
  match l with
  | [] => None
  | (k, v) :: l' => if String.eqb k key then Some v else assoc key l'
  end.

#[export] Instance demo_ia : Cinemagoer scripted_world movie := {|
  search_movie w title :=
    let '(a, rest) := next_answer title (script w) in (mkWorld rest (date w), a);
  update w m :=
    (w, if fetch_fails m then inl {| exn_type := "IMDbDataAccessError"; exn_msg := "timeout" |}
        else inr m);
  movieID m := PStr (m_id m);
  movie_get m key := assoc key (m_data m);
  movie_bool m := bool_decide (is_Some (assoc "title" (m_data m)));
  today w := date w;
|}.

Definition cell (v : pyval) : string :=
  match v with
  | PStr s => s
  | PInt z => PyInt.str z
  | _ => "?"
  end.

#[export] Instance demo_rt : PyRuntime := {|
  py_repr := cell;
  csv_line cells := PyStr.join "," (cell <$> cells) +:+ newline;
|}.

Definition series (id title : string) : movie :=
  mkMovie id [("title", PStr title); ("kind", PStr "tv series"); ("year", PInt 2008)] false.

Definition film (id title : string) : movie :=
  mkMovie id [("title", PStr title); ("kind", PStr "movie")] false.

Definition rate_limited : PyExn :=
  {| exn_type := "IMDbDataAccessError";
     exn_msg := "{'errcode': None, 'errmsg': 'None', 'url': 'https://www.imdb.com/find', 'error type': 'HTTPError', 'original exception': 'HTTP Error 429: Too Many Requests'}" |}.

Definition broken : PyExn :=
  {| exn_type := "IMDbParserError"; exn_msg := "unable to parse the page" |}.

Definition start (fs : filesystem) (s : list (string * (PyExn + list movie)))
  : State (World := scripted_world) (Movie := movie) :=
  mkState (mkWorld s "2024-05-01") fs [].

(** The end-to-end scenario of the specification. *)
Definition abc_script : list (string * (PyExn + list movie)) :=
  [ ("Show A", inr [series "0000001" "Show A"]);
    ("Show C", inl rate_limited);
    ("Show C", inl rate_limited);
    ("Show C", inr [film "0000002" "Show C the film"; series "0000003" "Show C"]) ].

Definition abc_input : filesystem :=
  {[ "list.txt" :=
       [Text ("Show A" +:+ newline +:+ "  Show B " +:+ newline +:+ newline
              +:+ "Show C" +:+ newline)] ]}.

(** An interrupted run over twelve titles: the marker says 10, the
    provisional store holds two rows (one of them past the marker), and
    both failure sinks have content. *)
Definition twelve_titles : list string :=
  [ "T01"; "T02"; "T03"; "T04"; "T05"; "T06"; "T07"; "T08"; "T09"; "T10"; "T11"; "T12" ].

Definition stored_row (position : Z) (id : string) : chunk :=
  Row [PInt position; PStr id].

Definition old_failures : file := [Text "FAILED TITLES"; Text "Position: 5"].

Definition interrupted_fs : filesystem :=
  list_to_map
    [ ("list.txt", [Text (PyStr.join newline twelve_titles)]);
      ("out_progress.txt", [Text "10"]);
      ("out_temp.csv", [header_row; stored_row 3 "tt0000033"; stored_row 11 "tt0000011"]);
      ("out_failed.txt", old_failures);
      ("out_failed_list.txt", [Text "T05"]) ].

(** What the provider answers after the interruption. *)
Definition resumed_script : list (string * (PyExn + list movie)) :=
  [ ("T11", inr [series "0000011" "T11"]) ].

(** The same files, but with a marker that says 0. *)
Definition zero_marker_fs : filesystem :=
  <["out_progress.txt" := [Text "0"]]> interrupted_fs.

(** A candidate whose details cannot be fetched, before a series. *)
Definition unfetchable : movie :=
  mkMovie "0000007" [("title", PStr "Lost"); ("kind", PStr "tv series")] true.

Definition three_candidates : list movie :=
  [ unfetchable; film "0000008" "Lost the film"; series "0000009" "Lost" ].

(** A run that really is interrupted: a fresh run over the twelve titles
    finds positions 3 and 11, and the operator stops it once position 11
    is done.  The marker then says 10 and the provisional store holds the
    rows of positions 3 and 11. *)
Definition first_script : list (string * (PyExn + list movie)) :=
  [ ("T03", inr [series "0000033" "T03"]); ("T11", inr [series "0000011" "T11"]) ].

Definition titles_fs : filesystem :=
  {[ "list.txt" := [Text (PyStr.join newline twelve_titles)] ]}.

Definition interrupted_state : State (World := scripted_world) (Movie := movie) :=
  (after_positions "out.csv" 0 1 twelve_titles 11
     (check_resume "out.csv" EmptyString (start titles_fs first_script)).2).2.

(** The next invocation finds these files; the provider answers as before. *)
Definition next_invocation : State (World := scripted_world) (Movie := movie) :=
  start (files interrupted_state) resumed_script.

(** A marker file above 10 left without its provisional store. *)
Definition stale_marker_fs : filesystem :=
  list_to_map
    [ ("list.txt", [Text (PyStr.join newline twelve_titles)]);
      ("out_progress.txt", [Text "50"]) ].

(** A series the provider returns without a title: it is falsy. *)
Definition untitled (id : string) : movie :=
  mkMovie id [("kind", PStr "tv series")] false.

Definition untitled_script : list (string * (PyExn + list movie)) :=
  [ ("Ghost", inl rate_limited);
    ("Ghost", inl rate_limited);
    ("Ghost", inr [untitled "0000005"]) ].

End Demo.

(** * Properties *)

(** ** Strings, integers and paths *)

Lemma append_cons (c : ascii) (s r : string) : String c s +:+ r = String c (s +:+ r).
Proof. reflexivity. Qed.

Lemma append_nil (r : string) : EmptyString +:+ r = r.
Proof. reflexivity. Qed.

Lemma rsplit_dot_head_split (s : string) :
  ∃ rest, s = PyStr.rsplit_dot_head s +:+ rest
          ∧ (rest = EmptyString ∨ ∃ r, rest = String "." r).
Proof.
  induction s as [|c s IH]; simpl.
  - exists EmptyString. by split; [|left].
  - destruct (Ascii.eqb_spec c ".") as [->|Hc]; simpl.
    + destruct (PyStr.has_dot s) eqn:Hd; simpl.
      * destruct IH as (rest & Hs & Hr). exists rest.
        split; [by rewrite append_cons, <- Hs | done].
      * exists (String "." s). split; [done | right; by eexists].
    + destruct IH as (rest & Hs & Hr). exists rest.
      split; [by rewrite append_cons, <- Hs | done].
Qed.

(** No artifact path is the output path: a suffix that starts with an
    underscore cannot be what [rsplit] cut off. *)
Lemma output_not_artifact (output_file : string) (c : ascii) (suffix : string) :
  c ≠ "."%char →
  output_file ≠ PyStr.rsplit_dot_head output_file +:+ String c suffix.
Proof.
  intros Hc Heq.
  destruct (rsplit_dot_head_split output_file) as (rest & Hs & Hr).
  rewrite Hs in Heq at 1.
  apply (inj (String.app _)) in Heq.
  destruct Hr as [->|[r ->]]; [discriminate | congruence].
Qed.

Lemma artifact_ne (base s1 s2 : string) : s1 ≠ s2 → base +:+ s1 ≠ base +:+ s2.
Proof. intros Hne Heq. by apply (inj (String.app _)) in Heq. Qed.

(** The five paths of one output target are pairwise different. *)
Lemma paths_distinct (output_file : string) :
  let progress := get_progress_file output_file in
  let temp := get_temp_csv output_file in
  let failed := get_failed_file output_file in
  let failed_list := get_failed_list_file output_file in
  progress ≠ temp ∧ progress ≠ failed ∧ progress ≠ failed_list
  ∧ temp ≠ failed ∧ temp ≠ failed_list ∧ failed ≠ failed_list
  ∧ output_file ≠ progress ∧ output_file ≠ temp
  ∧ output_file ≠ failed ∧ output_file ≠ failed_list.
Proof.
  unfold get_progress_file, get_temp_csv, get_failed_file, get_failed_list_file.
  repeat split; try (apply artifact_ne; discriminate);
    apply output_not_artifact; discriminate.
Qed.

(** *** [str] and [int] are inverse on integers *)

Lemma uint_string_no_space (d : uint) :
  PyStr.string_forall (fun c => negb (PyStr.is_space c)) (NilEmpty.string_of_uint d) = true.
Proof. induction d; simpl; auto. Qed.

Lemma lstrip_id (s : string) :
  PyStr.string_forall (fun c => negb (PyStr.is_space c)) s = true → PyStr.lstrip s = s.
Proof. destruct s as [|c s]; simpl; [done|]. by destruct (PyStr.is_space c). Qed.

Lemma rstrip_id (s : string) :
  PyStr.string_forall (fun c => negb (PyStr.is_space c)) s = true → PyStr.rstrip s = s.
Proof.
  induction s as [|c s IH]; simpl; [done|].
  intros [Hc Hs]%andb_prop. rewrite (IH Hs).
  destruct s; [|done]. by destruct (PyStr.is_space c).
Qed.

Lemma strip_id (s : string) :
  PyStr.string_forall (fun c => negb (PyStr.is_space c)) s = true → PyStr.strip s = s.
Proof. intros H. unfold PyStr.strip. rewrite (lstrip_id _ H). by apply rstrip_id. Qed.

Lemma digits_of_uint (d : uint) :
  d ≠ Nil → PyInt.digits (NilEmpty.string_of_uint d) = Some d.
Proof.
  induction d; intros Hd; try done; simpl;
    (destruct d; [done | rewrite (IHd ltac:(done)); done ..]).
Qed.

Lemma literal_of_uint (d : uint) :
  d ≠ Nil → PyInt.literal (NilEmpty.string_of_uint d) = Some (Z.of_uint d).
Proof.
  intros Hd. pose proof (digits_of_uint d Hd) as H.
  destruct d; try done; simpl in *; by rewrite H.
Qed.

Lemma pos_to_uint_nonnil (p : positive) : Pos.to_uint p ≠ Nil.
Proof.
  intros H. pose proof (DecimalPos.Unsigned.of_to p) as Hp.
  rewrite H in Hp. discriminate.
Qed.

Lemma literal_str (z : Z) : PyInt.literal (PyInt.str z) = Some z.
Proof.
  unfold PyInt.str. destruct z as [|p|p]; simpl.
  - done.
  - pose proof (pos_to_uint_nonnil p) as Hp.
    unfold NilZero.string_of_uint.
    destruct (Pos.to_uint p) eqn:E; try done;
      rewrite <- E in *; rewrite literal_of_uint by done;
      f_equal; change (Z.of_int (Z.to_int (Z.pos p)) = Z.pos p); apply DecimalZ.of_to.
  - pose proof (pos_to_uint_nonnil p) as Hp.
    unfold NilZero.string_of_uint.
    destruct (Pos.to_uint p) eqn:E; try done;
      rewrite <- E in *; rewrite digits_of_uint by done; simpl;
      f_equal; change (Z.of_int (Z.to_int (Z.neg p)) = Z.neg p); apply DecimalZ.of_to.
Qed.

Lemma str_no_space (z : Z) :
  PyStr.string_forall (fun c => negb (PyStr.is_space c)) (PyInt.str z) = true.
Proof.
  unfold PyInt.str. destruct z as [|p|p]; simpl; [done| |].
  - unfold NilZero.string_of_uint. destruct (Pos.to_uint p) eqn:E; try done;
      rewrite <- E; apply uint_string_no_space.
  - unfold NilZero.string_of_uint. destruct (Pos.to_uint p) eqn:E; try done;
      rewrite <- E; apply uint_string_no_space.
Qed.

(** [int(str(z).strip()) == z] *)
Lemma py_int_str (z : Z) : py_int (PyStr.strip (PyInt.str z)) = inr z.
Proof.
  unfold py_int. rewrite !(strip_id (PyInt.str z)) by apply str_no_space.
  by rewrite literal_str.
Qed.

Lemma str_inj (a b : Z) : PyInt.str a = PyInt.str b → a = b.
Proof.
  intros H. pose proof (literal_str a) as Ha. rewrite H, literal_str in Ha. congruence.
Qed.

(** ** The effect of each operation *)

#[local] Arguments dict_to_list : simpl never.
#[local] Arguments header_row : simpl never.
#[local] Arguments PyInt.str : simpl never.
#[local] Arguments times : simpl never.

Section Facts.
Context `{rt : PyRuntime} {World Movie : Type} `{ia : !Cinemagoer World Movie}.
Implicit Types (st : @State World Movie) (fs : filesystem) (l : Locals).
Implicit Types (output_file title : string) (position : Z).

Lemma bind_run {A B} (c : StateM State A) (k : A → StateM State B) st a st' :
  c st = (a, st') → bind c k st = k a st'.
Proof. unfold bind. by intros ->. Qed.

Lemma state_eta st : mkState (world st) (files st) (trace st) = st.
Proof. by destruct st. Qed.

Lemma load_progress_spec output_file st :
  load_progress output_file st = (read_marker output_file (files st), st).
Proof.
  unfold load_progress, read_marker, bind, get_files.
  destruct (files st !! get_progress_file output_file); [|done].
  by destruct (py_int _).
Qed.

Lemma save_progress_spec output_file position st :
  save_progress output_file position st =
    (tt, mkState (world st)
           (<[get_progress_file output_file := [Text (PyInt.str position)]]> (files st))
           (trace st)).
Proof.
  unfold save_progress, bind, open_w, write, set_files. cbn.
  by rewrite lookup_insert_eq, insert_insert_eq.
Qed.

Lemma path_exists_spec path st :
  path_exists path st = (bool_decide (is_Some (files st !! path)), st).
Proof. done. Qed.

Lemma append_failure_spec output_file position title error st :
  append_failure output_file position title error st =
    (tt, mkState (world st)
           (commit output_file position title (Failed error) (files st)) (trace st)).
Proof.
  pose proof (paths_distinct output_file) as (_ & _ & _ & _ & _ & Hne & _).
  unfold append_failure, commit, failure_block, failed_header, bind, path_exists,
    get_files, ret, when, open_a, open_w, write, set_files. cbn.
  destruct (files st !! get_failed_file output_file) as [f|] eqn:Hf; cbn;
    f_equal; f_equal;
    repeat (rewrite ?lookup_insert_eq, ?insert_insert_eq, ?Hf; cbn);
    rewrite !lookup_insert_ne by done;
    repeat (rewrite ?lookup_insert_eq, ?insert_insert_eq, ?Hf; cbn);
    rewrite <- ?(assoc_L (++)); cbn; try done.
Qed.

Lemma filter_nil_Forall {A} (P : A → Prop) `{∀ x, Decision (P x)} (xs : list A) :
  Forall (fun x => ¬ P x) xs → filter P xs = [].
Proof.
  induction 1 as [|x xs Hx _ IH]; [done|].
  by rewrite filter_cons_False.
Qed.

(** A row made by [extract_show_data] has no key outside the columns, so
    the csv writer never refuses it. *)
Lemma extracted_row_fields w show show_data position :
  extract_show_data w show = inr show_data →
  wrong_fields (<["Position" := PInt position]> show_data) = [].
Proof.
  unfold extract_show_data, bind_exn. intros Hx.
  repeat match type of Hx with
         | match ?r with inl _ => _ | inr _ => _ end = _ =>
             destruct r; [discriminate|]
         end.
  injection Hx as <-.
  apply filter_nil_Forall, Forall_forall. intros key Hk Hwrong.
  apply Hwrong. apply elem_of_elements in Hk.
  rewrite !dom_insert_L, dom_empty_L in Hk. unfold fieldnames.
  set_unfold. tauto.
Qed.

Lemma empty_row_fields : wrong_fields ∅ = [].
Proof. reflexivity. Qed.

Lemma append_to_csv_row output_file row st :
  wrong_fields row = [] →
  append_to_csv output_file row false st =
    (inr tt, mkState (world st)
               (<[output_file := default [] (files st !! output_file) ++ [Row (dict_to_list row)]]>
                  (files st))
               (trace st)).
Proof.
  intros Hrow. unfold append_to_csv, bind, when, ret, open_a, write, set_files.
  cbn. rewrite Hrow. cbn.
  rewrite lookup_insert_eq, insert_insert_eq. reflexivity.
Qed.

Lemma append_to_csv_header output_file st :
  append_to_csv output_file ∅ true st =
    (inr tt, mkState (world st)
               (<[output_file := [header_row; Row (dict_to_list ∅)]]> (files st))
               (trace st)).
Proof.
  unfold append_to_csv, bind, when, ret, open_w, write, set_files.
  cbn. rewrite empty_row_fields. cbn.
  rewrite !lookup_insert_eq, !insert_insert_eq. reflexivity.
Qed.


(** ** The lookup *)

(** The candidate walk follows the matching policy; it touches no file and
    adds exactly one [update] call per examined candidate to the trace. *)
Lemma first_tv_series_spec (results : list Movie) (w : World) :
  ∃ examined w' found,
    matching_policy w results examined w' found
    ∧ ∀ fs tr,
        first_tv_series results (mkState w fs tr) =
          (found, mkState w' fs (tr ++ (EvUpdate <$> examined))).
Proof.
  induction results as [|c rest IH] in w |- *.
  - exists [], w, None. split; [constructor|].
    intros fs tr. cbn. by rewrite app_nil_r.
  - destruct (update w c) as [w1 [e|c']] eqn:Hu.
    + destruct (IH w1) as (ex & w' & found & Hpol & Hrun).
      exists (c :: ex), w', found. split; [by econstructor|].
      intros fs tr. cbn [first_tv_series]. unfold bind, call_update. cbn.
      rewrite Hu, Hrun. by rewrite <- app_assoc.
    + destruct (is_tv_series c') eqn:Hk.
      * exists [c], w1, (Some c'). split; [by econstructor|].
        intros fs tr. cbn [first_tv_series]. unfold bind, call_update. cbn.
        by rewrite Hu, Hk.
      * destruct (IH w1) as (ex & w' & found & Hpol & Hrun).
        exists (c :: ex), w', found. split; [by eapply policy_skip_other_kind|].
        intros fs tr. cbn [first_tv_series]. unfold bind, call_update. cbn.
        rewrite Hu, Hk, Hrun. by rewrite <- app_assoc.
Qed.

(** The retry loop depends on the provider only: it touches no file and
    only adds to the trace. *)
Lemma search_attempts_frame title (max_retries : Z) (attempts : list Z) (w : World) :
  ∃ r w' evs, ∀ fs tr,
    search_attempts title max_retries attempts (mkState w fs tr) =
      (r, mkState w' fs (tr ++ evs)).
Proof.
  induction attempts as [|attempt later IH] in w |- *.
  - exists (None, Some "Max retries exceeded"), w, []. intros fs tr. cbn.
    by rewrite app_nil_r.
  - destruct (search_movie w title) as [w1 [e|results]] eqn:Hs.
    + destruct (retryable (clean_error_msg (exn_msg e))) eqn:Hr.
      * destruct (attempt <? max_retries - 1) eqn:Hlt.
        -- destruct (IH w1) as (r & w' & evs & Hrun).
           exists r, w', ([EvSearch title; EvSleep (inject_Z (2 ^ (attempt + 1)))] ++ evs).
           intros fs tr. cbn [search_attempts]. unfold bind, call_search. cbn.
           rewrite Hs, Hr, Hlt. unfold sleep, log. cbn. rewrite Hrun.
           by rewrite <- !app_assoc.
        -- eexists _, w1, [EvSearch title]. intros fs tr.
           cbn [search_attempts]. unfold bind, call_search. cbn.
           by rewrite Hs, Hr, Hlt.
      * eexists _, w1, [EvSearch title]. intros fs tr.
        cbn [search_attempts]. unfold bind, call_search. cbn.
        by rewrite Hs, Hr.
    + destruct results as [|c rest].
      * eexists _, w1, [EvSearch title]. intros fs tr.
        cbn [search_attempts]. unfold bind, call_search. cbn.
        by rewrite Hs.
      * destruct (first_tv_series_spec (c :: rest) w1) as (ex & w' & found & _ & Hrun).
        eexists (match found with
                 | Some result => (Some result, None)
                 | None => (None, Some "No TV series found in results")
                 end), w', ([EvSearch title] ++ (EvUpdate <$> ex)).
        intros fs tr. cbn [search_attempts]. unfold bind, call_search. cbn [world files trace].
        rewrite Hs. rewrite Hrun. rewrite <- app_assoc. by destruct found.
Qed.

Lemma search_tv_show_frame title (max_retries : Z) (w : World) :
  ∃ r w' evs, ∀ fs tr,
    search_tv_show title max_retries (mkState w fs tr) = (r, mkState w' fs (tr ++ evs)).
Proof. apply search_attempts_frame. Qed.

(** ** One pass of the loop *)

Lemma process_position_skip output_file delay start_position count position title l st :
  position < start_position →
  process_position output_file delay start_position count (position, title) l st = (l, st).
Proof.
  intros Hlt. unfold process_position.
  by rewrite (proj2 (Z.ltb_lt _ _) Hlt).
Qed.

(** A processed position: one lookup, then exactly the record and the
    count of its outcome, then the checkpoint and the delay. *)
Lemma process_position_spec output_file delay start_position count position title
    (w : World) :
  start_position ≤ position →
  ∃ show error w' evs,
    (∀ fs tr, search_tv_show title 3 (mkState w fs tr)
              = ((show, error), mkState w' fs (tr ++ evs)))
    ∧ ∀ l fs tr,
        process_position output_file delay start_position count (position, title) l
          (mkState w fs tr) =
        (tally (outcome_of w' position show error) l,
         mkState w'
           (checkpoint output_file position
              (commit output_file position title (outcome_of w' position show error) fs))
           (tr ++ evs ++ delay_events delay position count)).
Proof.
  intros Hge.
  destruct (search_tv_show_frame title 3 w) as ([show error] & w' & evs & Hrun).
  exists show, error, w', evs. split; [done|].
  intros l fs tr. unfold process_position.
  rewrite (proj2 (Z.ltb_ge _ _) Hge).
  rewrite (bind_run _ _ _ _ _ (Hrun fs tr)).
  assert (Htail : ∀ (l' : Locals) fs',
    (when (position mod 10 =? 0) (save_progress output_file position);;
     when (negb (Qle_bool delay 0) && (position <? count)) (sleep delay);;
     ret l') (mkState w' fs' (tr ++ evs)) =
    (l', mkState w' (checkpoint output_file position fs')
           (tr ++ evs ++ delay_events delay position count))).
  { intros l' fs'. unfold bind, when, checkpoint, delay_events.
    destruct (position mod 10 =? 0).
    - rewrite save_progress_spec. cbn.
      destruct (negb (Qle_bool delay 0) && (position <? count)); cbn.
      + by rewrite <- app_assoc.
      + by rewrite app_nil_r.
    - cbn. destruct (negb (Qle_bool delay 0) && (position <? count)); cbn.
      + by rewrite <- app_assoc.
      + by rewrite app_nil_r. }
  assert (Hfail : ∀ msg,
    (l' <- record_failure output_file position title msg l;;
     when (position mod 10 =? 0) (save_progress output_file position);;
     when (negb (Qle_bool delay 0) && (position <? count)) (sleep delay);;
     ret l') (mkState w' fs (tr ++ evs)) =
    (tally (Failed msg) l,
     mkState w' (checkpoint output_file position
                   (commit output_file position title (Failed msg) fs))
       (tr ++ evs ++ delay_events delay position count))).
  { intros msg. unfold record_failure.
    unfold bind at 1 2. rewrite append_failure_spec. cbn [world files trace ret].
    apply Htail. }
  unfold outcome_of.
  destruct show as [show|]; [|apply Hfail].
  destruct (movie_bool show); [|apply Hfail].
  unfold bind at 1 2. cbn [get_world world files trace].
  destruct (extract_show_data w' show) as [e|show_data] eqn:Hx; [apply Hfail|].
  unfold bind at 1 2.
  rewrite append_to_csv_row by (by eapply extracted_row_fields).
  cbn [world files trace results failed_count success_count].
  apply Htail.
Qed.

(** ** The loop *)

Lemma outcome_of_sound (w : World) position title show error :
  sound_outcome (position, title, outcome_of w position show error).
Proof.
  unfold sound_outcome, outcome_of.
  destruct show as [show|]; [|done].
  destruct (movie_bool show); [|done].
  destruct (extract_show_data w show) as [e|show_data] eqn:Hx; [done|].
  split; [|by eapply extracted_row_fields].
  unfold row_position. by rewrite lookup_insert_eq.
Qed.

Lemma extracted_rows_extracted p t row os :
  extracted_rows ((p, t, Extracted row) :: os) = row :: extracted_rows os.
Proof. reflexivity. Qed.

Lemma extracted_rows_failed p t msg os :
  extracted_rows ((p, t, Failed msg) :: os) = extracted_rows os.
Proof. reflexivity. Qed.

Lemma failures_extracted p t row os :
  failures ((p, t, Extracted row) :: os) = failures os.
Proof. reflexivity. Qed.

Lemma failures_failed p t msg os :
  failures ((p, t, Failed msg) :: os) = (p, t, msg) :: failures os.
Proof. reflexivity. Qed.

Lemma tally_all_cons p t o os l : tally_all ((p, t, o) :: os) l = tally_all os (tally o l).
Proof.
  unfold tally_all, tally.
  destruct o; cbn [results failed_count success_count].
  - rewrite extracted_rows_extracted, failures_extracted, <- app_assoc.
    cbn [app length]. f_equal; lia.
  - rewrite extracted_rows_failed, failures_failed.
    cbn [app length]. f_equal; lia.
Qed.

Lemma for_each_app (body : Z * string → Locals → StateM State Locals) xs ys l st :
  for_each body (xs ++ ys) l st =
    let '(l', st') := for_each body xs l st in for_each body ys l' st'.
Proof.
  induction xs as [|x xs IH] in l, st |- *; [done|].
  cbn [app for_each]. unfold bind. destruct (body x l st) as [l1 st1]. apply IH.
Qed.

(** The whole loop: the positions not skipped each yield one outcome, and
    the loop does to the locals and the files what recording these
    outcomes in order does. *)
Lemma for_each_spec output_file delay start_position count (items : list (Z * string))
    (w : World) :
  ∃ os w' evs,
    outcome_item <$> os = to_process start_position items
    ∧ Forall sound_outcome os
    ∧ ∀ l fs tr,
        for_each (process_position output_file delay start_position count) items l
          (mkState w fs tr) =
        (tally_all os l, mkState w' (record_all output_file os fs) (tr ++ evs)).
Proof.
  induction items as [|[p t] items IH] in w |- *.
  - exists [], w, []. split; [done|]. split; [done|].
    intros [rs fc sc] fs tr. cbn. unfold tally_all. cbn.
    by rewrite !app_nil_r, !Z.add_0_r.
  - destruct (decide (start_position ≤ p)) as [Hge|Hlt].
    + destruct (process_position_spec output_file delay start_position count p t w Hge)
        as (show & error & w1 & evs1 & _ & Hstep).
      destruct (IH w1) as (os & w' & evs & Hitems & Hsound & Hrun).
      exists ((p, t, outcome_of w1 p show error) :: os), w',
        ((evs1 ++ delay_events delay p count) ++ evs).
      split; [|split].
      * unfold to_process. rewrite filter_cons_True by done.
        cbn. f_equal. exact Hitems.
      * constructor; [apply outcome_of_sound | done].
      * intros l fs tr. cbn [for_each]. unfold bind. rewrite Hstep, Hrun.
        rewrite tally_all_cons. by rewrite <- !app_assoc.
    + destruct (IH w) as (os & w' & evs & Hitems & Hsound & Hrun).
      exists os, w', evs. split; [|split; [done|]].
      * unfold to_process. rewrite filter_cons_False by done. exact Hitems.
      * intros l fs tr. cbn [for_each]. unfold bind.
        rewrite process_position_skip by lia. apply Hrun.
Qed.

(** ** What recording does to each file *)

Lemma commit_other output_file position title o fs q :
  q ≠ get_temp_csv output_file → q ≠ get_failed_file output_file →
  q ≠ get_failed_list_file output_file →
  commit output_file position title o fs !! q = fs !! q.
Proof.
  intros H1 H2 H3. destruct o; cbn; by rewrite ?lookup_insert_ne.
Qed.

Lemma checkpoint_other output_file position fs q :
  q ≠ get_progress_file output_file →
  checkpoint output_file position fs !! q = fs !! q.
Proof.
  intros H1. unfold checkpoint. destruct (position mod 10 =? 0); [|done].
  by rewrite lookup_insert_ne.
Qed.

Lemma record_all_other output_file os fs q :
  q ≠ get_progress_file output_file → q ≠ get_temp_csv output_file →
  q ≠ get_failed_file output_file → q ≠ get_failed_list_file output_file →
  record_all output_file os fs !! q = fs !! q.
Proof.
  intros H0 H1 H2 H3. unfold record_all.
  induction os as [|[[p t] o] os IH] in fs |- *; [done|].
  cbn. rewrite IH. by rewrite checkpoint_other, commit_other.
Qed.

(** The provisional store only grows, by the extracted rows in order. *)
Lemma record_all_temp output_file os fs f :
  fs !! get_temp_csv output_file = Some f →
  record_all output_file os fs !! get_temp_csv output_file =
    Some (f ++ ((fun row => Row (dict_to_list row)) <$> extracted_rows os)).
Proof.
  pose proof (paths_distinct output_file) as (Hpt & _ & _ & Htf & Htl & _).
  unfold record_all.
  induction os as [|[[p t] o] os IH] in fs, f |- *; intros Hf.
  - cbn. by rewrite app_nil_r.
  - cbn [foldl]. destruct o as [row|msg].
    + rewrite (IH _ (f ++ [Row (dict_to_list row)])).
      * rewrite extracted_rows_extracted. cbn. by rewrite <- app_assoc.
      * rewrite checkpoint_other by done. cbn. rewrite lookup_insert_eq, Hf. done.
    + rewrite (IH _ f); [done|].
      rewrite checkpoint_other by done. cbn. by rewrite !lookup_insert_ne.
Qed.

(** The plain failure list only grows, by one line per failure. *)
Lemma record_all_failed_list output_file os fs :
  record_all output_file os fs !! get_failed_list_file output_file =
    match failures os with
    | [] => fs !! get_failed_list_file output_file
    | fl =>
        Some (default [] (fs !! get_failed_list_file output_file)
              ++ ((fun f => Text (f.1.2 +:+ newline)) <$> fl))
    end.
Proof.
  pose proof (paths_distinct output_file) as (_ & _ & Hpl & _ & Htl & Hfl & _).
  unfold record_all.
  induction os as [|[[p t] o] os IH] in fs |- *; [done|].
  cbn [foldl]. rewrite IH. destruct o as [row|msg].
  - rewrite failures_extracted.
    rewrite checkpoint_other by done. cbn. rewrite lookup_insert_ne by done.
    done.
  - rewrite failures_failed.
    rewrite checkpoint_other by done. cbn [commit]. rewrite lookup_insert_eq.
    cbn. destruct (failures os); cbn.
    + done.
    + by rewrite <- app_assoc.
Qed.

(** The detailed failure log only grows, by one block per failure after a
    header written once. *)
Lemma record_all_failed output_file os fs :
  record_all output_file os fs !! get_failed_file output_file =
    match failures os with
    | [] => fs !! get_failed_file output_file
    | fl =>
        Some (default failed_header (fs !! get_failed_file output_file)
              ++ concat ((fun f => failure_block f.1.1 f.1.2 f.2) <$> fl))
    end.
Proof.
  pose proof (paths_distinct output_file) as (_ & Hpf & _ & Htf & _ & Hfl & _).
  unfold record_all.
  induction os as [|[[p t] o] os IH] in fs |- *; [done|].
  cbn [foldl]. rewrite IH. destruct o as [row|msg].
  - rewrite failures_extracted.
    rewrite checkpoint_other by done. cbn. rewrite lookup_insert_ne by done.
    done.
  - rewrite failures_failed.
    rewrite checkpoint_other by done. cbn [commit].
    rewrite lookup_insert_ne by done. rewrite lookup_insert_eq.
    cbn [default from_option fmap list_fmap concat fst snd].
    destruct (failures os) as [|f0 fl]; cbn [default from_option fmap list_fmap concat].
    + unfold id. by rewrite app_nil_r.
    + unfold id. by rewrite <- !app_assoc.
Qed.

(** ** Startup and finalization *)

Lemma remove_if_exists path st :
  (still_there <- path_exists path;; when still_there (remove path)) st =
    (tt, mkState (world st) (delete path (files st)) (trace st)).
Proof.
  unfold bind, path_exists, get_files, ret, when, remove, set_files. cbn.
  destruct (files st !! path) eqn:Hp; cbn; [done|].
  rewrite delete_id by done. by destruct st.
Qed.

Lemma check_resume_resume output_file response st M :
  read_marker output_file (files st) = Some M → M ≠ 0 →
  is_Some (files st !! get_temp_csv output_file) →
  says_yes response = true →
  check_resume output_file response st =
    (inr (M + 1), mkState (world st) (files st) (trace st ++ [EvInput (M + 1)])).
Proof.
  intros HM Hnz Htemp Hyes. unfold check_resume.
  rewrite (bind_run _ _ _ _ _ (load_progress_spec _ _)), HM.
  rewrite (bind_run _ _ _ _ _ (path_exists_spec _ _)).
  rewrite bool_decide_eq_true_2 by done.
  rewrite (proj2 (Z.eqb_neq _ _) Hnz). cbn [negb andb].
  unfold says_yes in Hyes. unfold bind at 1 2. unfold log at 1. cbn [fst snd].
  rewrite Hyes. cbn [ret].
  by rewrite (proj2 (Z.eqb_neq (M + 1) 1)) by lia.
Qed.

Lemma check_resume_restart output_file response st M :
  read_marker output_file (files st) = Some M → M ≠ 0 →
  is_Some (files st !! get_temp_csv output_file) →
  says_yes response = false →
  check_resume output_file response st =
    (inr 1, mkState (world st)
              (<[get_temp_csv output_file := fresh_store]>
                 (delete (get_progress_file output_file)
                    (delete (get_temp_csv output_file) (files st))))
              (trace st ++ [EvInput (M + 1)])).
Proof.
  intros HM Hnz Htemp Hno. unfold check_resume.
  rewrite (bind_run _ _ _ _ _ (load_progress_spec _ _)), HM.
  rewrite (bind_run _ _ _ _ _ (path_exists_spec _ _)).
  rewrite bool_decide_eq_true_2 by done.
  rewrite (proj2 (Z.eqb_neq _ _) Hnz). cbn [negb andb].
  unfold says_yes in Hno. unfold bind at 1 2. unfold log at 1. cbn [fst snd].
  rewrite Hno.
  unfold bind at 1. rewrite remove_if_exists.
  unfold bind at 1. rewrite remove_if_exists.
  cbn [ret world files trace Z.eqb Pos.eqb].
  unfold bind. by rewrite append_to_csv_header.
Qed.

Lemma check_resume_fresh output_file response st :
  read_marker output_file (files st) = None
  ∨ read_marker output_file (files st) = Some 0
  ∨ files st !! get_temp_csv output_file = None →
  check_resume output_file response st =
    (inr 1, mkState (world st) (<[get_temp_csv output_file := fresh_store]> (files st))
              (trace st)).
Proof.
  intros Hcase. unfold check_resume.
  rewrite (bind_run _ _ _ _ _ (load_progress_spec _ _)).
  rewrite (bind_run _ _ _ _ _ (path_exists_spec _ _)).
  assert (Hret : ∀ st',
    (start_position <- ret 1;;
     if start_position =? 1
     then r <- append_to_csv (get_temp_csv output_file) ∅ true;;
          match r with
          | inl e => ret (inl e)
          | inr _ => ret (inr start_position)
          end
     else ret (inr start_position)) st' =
    (inr 1, mkState (world st') (<[get_temp_csv output_file := fresh_store]> (files st'))
              (trace st'))).
  { intros st'. unfold bind. cbn [ret Z.eqb Pos.eqb]. by rewrite append_to_csv_header. }
  destruct (read_marker output_file (files st)) as [M|] eqn:HM; [|apply Hret].
  destruct (decide (M = 0)) as [->|Hnz]; [apply Hret|].
  destruct Hcase as [?|[?|Hnone]]; [done|congruence|].
  rewrite Hnone. rewrite bool_decide_eq_false_2 by (by intros [? ?]).
  rewrite andb_false_r. apply Hret.
Qed.

(** The startup protocol never fails, leaves the provider alone, and takes
    one of three courses. *)
Lemma check_resume_cases output_file response st :
  (∃ M, read_marker output_file (files st) = Some M ∧ M ≠ 0
        ∧ is_Some (files st !! get_temp_csv output_file)
        ∧ says_yes response = true
        ∧ check_resume output_file response st =
            (inr (M + 1), mkState (world st) (files st) (trace st ++ [EvInput (M + 1)])))
  ∨ (∃ M, read_marker output_file (files st) = Some M ∧ M ≠ 0
          ∧ is_Some (files st !! get_temp_csv output_file)
          ∧ says_yes response = false
          ∧ check_resume output_file response st =
              (inr 1, mkState (world st)
                        (<[get_temp_csv output_file := fresh_store]>
                           (delete (get_progress_file output_file)
                              (delete (get_temp_csv output_file) (files st))))
                        (trace st ++ [EvInput (M + 1)])))
  ∨ ((read_marker output_file (files st) = None
      ∨ read_marker output_file (files st) = Some 0
      ∨ files st !! get_temp_csv output_file = None)
     ∧ check_resume output_file response st =
         (inr 1, mkState (world st)
                   (<[get_temp_csv output_file := fresh_store]> (files st)) (trace st))).
Proof.
  destruct (read_marker output_file (files st)) as [M|] eqn:HM.
  - destruct (decide (M = 0)) as [->|Hnz].
    + right; right. split; [auto|]. apply check_resume_fresh. auto.
    + destruct (files st !! get_temp_csv output_file) as [f|] eqn:Hf.
      * destruct (says_yes response) eqn:Hyes.
        -- left. exists M. repeat split; eauto.
           apply check_resume_resume; eauto.
        -- right; left. exists M. repeat split; eauto.
           apply check_resume_restart; eauto.
      * right; right. split; [auto|]. apply check_resume_fresh. auto.
  - right; right. split; [auto|]. apply check_resume_fresh. auto.
Qed.

Lemma writerows_spec path (rows : list dict) st f :
  Forall (fun row => wrong_fields row = []) rows →
  files st !! path = Some f →
  writerows path rows st =
    (inr tt, mkState (world st)
               (<[path := f ++ ((fun row => Row (dict_to_list row)) <$> rows)]> (files st))
               (trace st)).
Proof.
  intros Hrows. induction Hrows as [|row rows Hrow _ IH] in st, f |- *; intros Hf.
  - cbn. rewrite app_nil_r, insert_id by done. by destruct st.
  - cbn [writerows]. rewrite Hrow. unfold bind, write, set_files. cbn [fst snd].
    rewrite (IH _ (f ++ [Row (dict_to_list row)])).
    + cbn [world files trace]. rewrite insert_insert_eq.
      cbn. by rewrite <- app_assoc.
    + cbn [files]. by rewrite lookup_insert_eq, Hf.
Qed.

(** Finalization writes the header and the rows held in memory, then
    removes the provisional store and the marker. *)
Lemma finalize_spec output_file l st :
  Forall (fun row => wrong_fields row = []) (results l) →
  finalize output_file l st =
    (inr l, mkState (world st)
              (delete (get_progress_file output_file)
                 (delete (get_temp_csv output_file)
                    (<[output_file := final_output (results l)]> (files st))))
              (trace st)).
Proof.
  intros Hrows. unfold finalize.
  unfold bind at 1 2 3. unfold open_w at 1, write at 1, set_files. cbn [fst snd world files trace].
  rewrite lookup_insert_eq, insert_insert_eq. cbn [default from_option app].
  erewrite writerows_spec; [|done|by cbn; rewrite lookup_insert_eq].
  cbn [world files trace]. rewrite insert_insert_eq.
  unfold bind at 1. rewrite remove_if_exists.
  unfold bind at 1. rewrite remove_if_exists.
  reflexivity.
Qed.

Lemma extracted_rows_fields (os : list (Z * string * outcome)) :
  Forall sound_outcome os →
  Forall (fun row => wrong_fields row = []) (extracted_rows os).
Proof.
  induction 1 as [|[[p t] [row|msg]] os Ho _ IH]; [done| |done].
  rewrite extracted_rows_extracted. constructor; [apply Ho | done].
Qed.

(** The whole run after the input is read: it never aborts, and its
    result is that of the startup protocol followed by recording one
    outcome per position that is not skipped, followed by finalization. *)
Lemma process_titles_spec (tv_shows : list string) output_file delay response st :
  ∃ start_position st1 os w' evs,
    check_resume output_file response st = (inr start_position, st1)
    ∧ world st1 = world st
    ∧ outcome_item <$> os = to_process start_position (enumerate 1 tv_shows)
    ∧ Forall sound_outcome os
    ∧ for_each
        (process_position output_file delay start_position (Z.of_nat (length tv_shows)))
        (enumerate 1 tv_shows) (mkLocals [] 0 0) st1 =
        (tally_all os (mkLocals [] 0 0),
         mkState w' (record_all output_file os (files st1)) (trace st1 ++ evs))
    ∧ process_titles tv_shows output_file delay response st =
        (inr (tally_all os (mkLocals [] 0 0)),
         mkState w'
           (delete (get_progress_file output_file)
              (delete (get_temp_csv output_file)
                 (<[output_file := final_output (extracted_rows os)]>
                    (record_all output_file os (files st1)))))
           (trace st1 ++ evs)).
Proof.
  assert (∃ start_position st1,
    check_resume output_file response st = (inr start_position, st1)
    ∧ world st1 = world st) as (start_position & st1 & Hstart & Hw).
  { destruct (check_resume_cases output_file response st)
      as [(M & _ & _ & _ & _ & ->)|[(M & _ & _ & _ & _ & ->)|[_ ->]]]; eauto. }
  destruct (for_each_spec output_file delay start_position
              (Z.of_nat (length tv_shows)) (enumerate 1 tv_shows) (world st1))
    as (os & w' & evs & Hitems & Hsound & Hrun).
  specialize (Hrun (mkLocals [] 0 0) (files st1) (trace st1)).
  rewrite state_eta in Hrun.
  exists start_position, st1, os, w', evs.
  repeat split; try done.
  unfold process_titles. rewrite (bind_run _ _ _ _ _ Hstart).
  rewrite (bind_run _ _ _ _ _ Hrun).
  rewrite finalize_spec; [done|].
  cbn [tally_all results app]. by apply extracted_rows_fields.
Qed.

(** ** Positions *)

Lemma enumerate_lookup {A} (start : Z) (xs : list A) (n : nat) :
  enumerate start xs !! n = (fun x => (start + Z.of_nat n, x)) <$> xs !! n.
Proof.
  induction xs as [|x xs IH] in start, n |- *; [done|].
  destruct n as [|n]; cbn.
  - by rewrite Z.add_0_r.
  - rewrite IH. destruct (xs !! n); cbn; [|done]. do 2 f_equal. lia.
Qed.

Lemma length_enumerate {A} (start : Z) (xs : list A) :
  length (enumerate start xs) = length xs.
Proof. induction xs as [|x xs IH] in start |- *; cbn; [done | by rewrite IH]. Qed.

Lemma enumerate_positions {A} (start : Z) (xs : list A) :
  (enumerate start xs).*1 = seqZ start (Z.of_nat (length xs)).
Proof.
  induction xs as [|x xs IH] in start |- *; [done|].
  cbn [enumerate fmap list_fmap length fst]. rewrite IH.
  rewrite (seqZ_cons start) by lia. do 2 f_equal; lia.
Qed.

Lemma to_process_all (start_position s : Z) (xs : list string) :
  start_position ≤ s → to_process start_position (enumerate s xs) = enumerate s xs.
Proof.
  unfold to_process. induction xs as [|x xs IH] in s |- *; intros Hle; [done|].
  cbn [enumerate]. rewrite filter_cons_True by (cbn; lia).
  f_equal. apply IH. lia.
Qed.

(** Skipping the positions below [start_position] is dropping the titles
    before it. *)
Lemma to_process_drop (start_position s : Z) (xs : list string) :
  s ≤ start_position →
  to_process start_position (enumerate s xs) =
    enumerate start_position (drop (Z.to_nat (start_position - s)) xs).
Proof.
  unfold to_process. induction xs as [|x xs IH] in s |- *; intros Hle.
  - by rewrite drop_nil.
  - cbn [enumerate]. destruct (decide (s = start_position)) as [->|Hne].
    + rewrite Z.sub_diag. rewrite filter_cons_True by (cbn; lia).
      change (Z.to_nat 0) with 0%nat. cbn [drop enumerate]. f_equal.
      apply (to_process_all start_position). lia.
    + rewrite filter_cons_False by (cbn; lia).
      rewrite IH by lia.
      replace (Z.to_nat (start_position - s)) with (S (Z.to_nat (start_position - (s + 1))))
        by lia.
      done.
Qed.

Lemma to_process_positions (start_position s : Z) (xs : list string) :
  Forall (fun item => start_position ≤ item.1) (to_process start_position (enumerate s xs)).
Proof. unfold to_process. apply Forall_forall. intros item [H _]%list_elem_of_filter. done. Qed.

(** The loop over all items is the loop over the items not skipped. *)
Lemma for_each_to_process output_file delay start_position count
    (items : list (Z * string)) l st :
  for_each (process_position output_file delay start_position count) items l st =
  for_each (process_position output_file delay start_position count)
    (to_process start_position items) l st.
Proof.
  unfold to_process.
  induction items as [|[p t] items IH] in l, st |- *; [done|].
  destruct (decide (start_position ≤ p)) as [Hge|Hlt].
  - rewrite filter_cons_True by done. cbn [for_each]. unfold bind.
    destruct (process_position _ _ _ _ _ _ _) as [l1 st1]. apply IH.
  - rewrite filter_cons_False by done. cbn [for_each]. unfold bind.
    rewrite process_position_skip by lia. apply IH.
Qed.

(** ** C2: the checkpoint *)

Lemma append_empty_r (s : string) : s +:+ EmptyString = s.
Proof. induction s as [|c s IH]; [done|]. by rewrite append_cons, IH. Qed.

Lemma read_marker_written output_file position fs :
  fs !! get_progress_file output_file = Some [Text (PyInt.str position)] →
  read_marker output_file fs = Some position.
Proof.
  intros Hf. unfold read_marker. rewrite Hf. cbn [file_text foldr chunk_text].
  by rewrite append_empty_r, py_int_str.
Qed.

Lemma read_marker_same output_file fs fs' :
  fs' !! get_progress_file output_file = fs !! get_progress_file output_file →
  read_marker output_file fs' = read_marker output_file fs.
Proof. unfold read_marker. by intros ->. Qed.

(** What one pass of the loop does to the marker file. *)
Lemma process_position_progress output_file delay start_position count position title l st :
  files (process_position output_file delay start_position count (position, title) l st).2
    !! get_progress_file output_file =
  if (start_position <=? position) && (position mod 10 =? 0)
  then Some [Text (PyInt.str position)]
  else files st !! get_progress_file output_file.
Proof.
  pose proof (paths_distinct output_file) as (Hpt & Hpf & Hpl & _).
  destruct (Z.leb_spec start_position position) as [Hge|Hlt]; cbn [andb].
  - destruct (process_position_spec output_file delay start_position count position title
                (world st) Hge) as (show & error & w' & evs & _ & Hstep).
    rewrite <- (state_eta st) at 1. rewrite Hstep. cbn [snd files].
    unfold checkpoint. destruct (position mod 10 =? 0).
    + by rewrite lookup_insert_eq.
    + by rewrite commit_other.
  - by rewrite process_position_skip.
Qed.

Lemma after_positions_S output_file delay start_position (tv_shows : list string)
    (n : nat) title st :
  tv_shows !! n = Some title →
  after_positions output_file delay start_position tv_shows (S n) st =
    let '(l', st') := after_positions output_file delay start_position tv_shows n st in
    process_position output_file delay start_position (Z.of_nat (length tv_shows))
      (Z.of_nat (S n), title) l' st'.
Proof.
  intros Ht. unfold after_positions.
  assert (Hitem : enumerate 1 tv_shows !! n = Some (Z.of_nat (S n), title)).
  { rewrite enumerate_lookup, Ht. cbn. do 2 f_equal. lia. }
  rewrite (take_S_r _ _ _ Hitem), for_each_app.
  destruct (for_each _ (take n _) _ _) as [l' st']. cbn [for_each]. unfold bind.
  by destruct (process_position _ _ _ _ _ _ _).
Qed.

Lemma after_positions_ge output_file delay start_position (tv_shows : list string)
    (n : nat) st :
  (length tv_shows ≤ n)%nat →
  after_positions output_file delay start_position tv_shows (S n) st =
  after_positions output_file delay start_position tv_shows n st.
Proof.
  intros Hn. unfold after_positions.
  by rewrite !take_ge by (rewrite length_enumerate; lia).
Qed.

(** ** C3: one outcome per processed position *)

Lemma outcomes_length (os : list (Z * string * outcome)) :
  (length (extracted_rows os) + length (failures os))%nat = length os.
Proof.
  induction os as [|[[p t] [row|msg]] os IH]; [done| |].
  - rewrite extracted_rows_extracted, failures_extracted. cbn [length]. lia.
  - rewrite extracted_rows_failed, failures_failed. cbn [length]. lia.
Qed.

Lemma check_resume_store output_file response st start_position st1 :
  check_resume output_file response st = (inr start_position, st1) →
  is_Some (files st1 !! get_temp_csv output_file).
Proof.
  destruct (check_resume_cases output_file response st)
    as [(M & _ & _ & Htemp & _ & ->)|[(M & _ & _ & _ & _ & ->)|[_ ->]]];
    intros [= <- <-]; cbn [files]; [done| |]; by rewrite lookup_insert_eq.
Qed.

(** C3 (amended).  A run that starts at [start_position] (1 when fresh or
    restarted, marker + 1 when resumed) yields exactly one outcome for each
    position from [start_position] on, in order, and none for the
    positions before.  An extracted row goes to the in-memory results and
    to the provisional store and nowhere else; a failure goes to the two
    failure sinks and nowhere else.  So [success_count + failed_count] is
    the number of positions from [start_position] on, which is [N] when the
    run starts at position 1. *)
Theorem one_outcome_per_processed_position (tv_shows : list string) output_file delay
    response st :
  let temp_csv := get_temp_csv output_file in
  let failed_file := get_failed_file output_file in
  let failed_list_file := get_failed_list_file output_file in
  ∃ start_position st1 l st2 os,
    check_resume output_file response st = (inr start_position, st1)
    ∧ for_each
        (process_position output_file delay start_position (Z.of_nat (length tv_shows)))
        (enumerate 1 tv_shows) (mkLocals [] 0 0) st1 = (l, st2)
    ∧ (process_titles tv_shows output_file delay response st).1 = inr l
    ∧ outcome_item <$> os = to_process start_position (enumerate 1 tv_shows)
    ∧ Forall sound_outcome os
    ∧ results l = extracted_rows os
    ∧ success_count l = Z.of_nat (length (extracted_rows os))
    ∧ failed_count l = Z.of_nat (length (failures os))
    ∧ success_count l + failed_count l
      = Z.of_nat (length (to_process start_position (enumerate 1 tv_shows)))
    ∧ (start_position = 1 →
       success_count l + failed_count l = Z.of_nat (length tv_shows))
    ∧ (∃ store,
          files st1 !! temp_csv = Some store
          ∧ files st2 !! temp_csv
            = Some (store ++ ((fun row => Row (dict_to_list row)) <$> extracted_rows os)))
    ∧ files st2 !! failed_list_file =
        match failures os with
        | [] => files st1 !! failed_list_file
        | fl => Some (default [] (files st1 !! failed_list_file)
                      ++ ((fun f => Text (f.1.2 +:+ newline)) <$> fl))
        end
    ∧ files st2 !! failed_file =
        match failures os with
        | [] => files st1 !! failed_file
        | fl => Some (default failed_header (files st1 !! failed_file)
                      ++ concat ((fun f => failure_block f.1.1 f.1.2 f.2) <$> fl))
        end.
Proof.
  intros temp_csv failed_file failed_list_file.
  destruct (process_titles_spec tv_shows output_file delay response st)
    as (start_position & st1 & os & w' & evs & Hstart & _ & Hitems & Hsound & Hloop & Hrun).
  destruct (check_resume_store _ _ _ _ _ Hstart) as [store Hstore].
  eexists start_position, st1, _, _, os.
  split; [exact Hstart|]. split; [exact Hloop|]. split; [by rewrite Hrun|].
  split; [exact Hitems|]. split; [exact Hsound|].
  assert (Hlen : (length (extracted_rows os) + length (failures os))%nat
                 = length (to_process start_position (enumerate 1 tv_shows))).
  { by rewrite outcomes_length, <- Hitems, length_fmap. }
  unfold tally_all. cbn [results success_count failed_count app files].
  repeat split.
  - lia.
  - intros ->. rewrite to_process_all, length_enumerate in Hlen by lia. lia.
  - exists store. split; [done|]. by apply record_all_temp.
  - apply record_all_failed_list.
  - apply record_all_failed.
Qed.

(** ** C4, C5, C6: the lookup and its retry loop *)

Lemma policy_deterministic (w : World) results ex1 w1 f1 ex2 w2 f2 :
  matching_policy w results ex1 w1 f1 →
  matching_policy w results ex2 w2 f2 →
  ex1 = ex2 ∧ w1 = w2 ∧ f1 = f2.
Proof.
  intros H1. revert ex2 w2 f2.
  induction H1 as [w|w c rest wa e ex wb f Hu _ IH|w c rest wa c' ex wb f Hu Hk _ IH
                   |w c rest wa c' Hu Hk];
    intros ex2 w2 f2 H2; inversion H2; subst;
    repeat match goal with
           | Ha : update ?w0 ?c0 = _, Hb : update ?w0 ?c0 = _ |- _ =>
               rewrite Ha in Hb; simplify_eq
           end;
    try congruence; try done.
  - destruct (IH _ _ _ ltac:(eassumption)) as (-> & -> & ->). done.
  - destruct (IH _ _ _ ltac:(eassumption)) as (-> & -> & ->). done.
Qed.

Lemma policy_prefix (w : World) results examined w' found :
  matching_policy w results examined w' found → examined `prefix_of` results.
Proof.
  induction 1; [done| | |].
  - by apply prefix_cons.
  - by apply prefix_cons.
  - apply prefix_cons, prefix_nil.
Qed.

Lemma policy_exhausts (w : World) results examined w' :
  matching_policy w results examined w' None → examined = results.
Proof.
  intros H. remember None as found eqn:Hf.
  induction H; try done; by rewrite IHmatching_policy.
Qed.

Lemma policy_accepts (w : World) results examined w' result :
  matching_policy w results examined w' (Some result) →
  is_tv_series result = true
  ∧ ∃ c w0, last examined = Some c ∧ update w0 c = (w', inr result).
Proof.
  intros H. remember (Some result) as found eqn:Hf.
  induction H as [w|w c rest wa e ex wb f Hu Hp IH|w c rest wa c' ex wb f Hu Hk Hp IH
                  |w c rest wa c' Hu Hk]; try done.
  - destruct (IH Hf) as (Hs & c0 & w0 & Hlast & Hupd). split; [done|].
    exists c0, w0. split; [|done]. destruct ex; [done|]. done.
  - destruct (IH Hf) as (Hs & c0 & w0 & Hlast & Hupd). split; [done|].
    exists c0, w0. split; [|done]. destruct ex; [done|]. done.
  - injection Hf as ->. split; [done|]. by exists c, w.
Qed.

Lemma sleeps_app (tr1 tr2 : list (@event Movie)) :
  sleeps (tr1 ++ tr2) = sleeps tr1 ++ sleeps tr2.
Proof. unfold sleeps. apply omap_app. Qed.

Lemma searches_app (tr1 tr2 : list (@event Movie)) :
  searches (tr1 ++ tr2) = searches tr1 ++ searches tr2.
Proof. unfold searches. apply omap_app. Qed.

Lemma sleeps_updates (ms : list Movie) : sleeps (EvUpdate <$> ms) = [].
Proof. induction ms; [done|]. done. Qed.

Lemma searches_updates (ms : list Movie) : searches (EvUpdate <$> ms) = [].
Proof. induction ms; [done|]. done. Qed.

(** A transient error with attempts left: sleep, then the next attempt. *)
Lemma search_attempts_transient title (max_retries attempt : Z) later st w' e :
  search_movie (world st) title = (w', inl e) →
  transient e = true →
  attempt < max_retries - 1 →
  search_attempts title max_retries (attempt :: later) st =
    search_attempts title max_retries later
      (mkState w' (files st)
         (trace st ++ [EvSearch title; EvSleep (inject_Z (2 ^ (attempt + 1)))])).
Proof.
  intros Hs Hr Hlt. cbn [search_attempts]. unfold bind, call_search.
  rewrite Hs. unfold transient in Hr. rewrite Hr.
  rewrite (proj2 (Z.ltb_lt _ _) Hlt). unfold sleep, log. cbn [world files trace].
  by rewrite <- app_assoc.
Qed.

(** A transient error at the last attempt: failure, no sleep. *)
Lemma search_attempts_exhausted title (max_retries attempt : Z) later st w' e :
  search_movie (world st) title = (w', inl e) →
  transient e = true →
  ¬ attempt < max_retries - 1 →
  search_attempts title max_retries (attempt :: later) st =
    ((None, Some (failure_description e)),
     mkState w' (files st) (trace st ++ [EvSearch title])).
Proof.
  intros Hs Hr Hlt. cbn [search_attempts]. unfold bind, call_search.
  rewrite Hs. unfold transient in Hr. rewrite Hr.
  by rewrite (proj2 (Z.ltb_ge _ _)) by lia.
Qed.

(** A permanent error: failure at once. *)
Lemma search_attempts_permanent title (max_retries attempt : Z) later st w' e :
  search_movie (world st) title = (w', inl e) →
  transient e = false →
  search_attempts title max_retries (attempt :: later) st =
    ((None, Some (failure_description e)),
     mkState w' (files st) (trace st ++ [EvSearch title])).
Proof.
  intros Hs Hr. cbn [search_attempts]. unfold bind, call_search.
  rewrite Hs. unfold transient in Hr. by rewrite Hr.
Qed.

(** An answer: the candidate walk decides. *)
Lemma search_attempts_answer title (max_retries attempt : Z) later st w1 results
    examined w' found :
  search_movie (world st) title = (w1, inr results) →
  matching_policy w1 results examined w' found →
  search_attempts title max_retries (attempt :: later) st =
    (match results, found with
     | [], _ => (None, Some "No results found")
     | _, Some result => (Some result, None)
     | _, None => (None, Some "No TV series found in results")
     end,
     mkState w' (files st) (trace st ++ EvSearch title :: (EvUpdate <$> examined))).
Proof.
  intros Hs Hpol. cbn [search_attempts]. unfold bind, call_search. rewrite Hs.
  destruct results as [|c rest].
  - inversion Hpol; subst. done.
  - destruct (first_tv_series_spec (c :: rest) w1) as (ex & w2 & found2 & Hpol2 & Hrun).
    destruct (policy_deterministic _ _ _ _ _ _ _ _ Hpol Hpol2) as (<- & <- & <-).
    rewrite Hrun. rewrite <- app_assoc. by destruct found.
Qed.

Lemma description_not_empty (e : PyExn) :
  String.eqb (failure_description e) EmptyString = false.
Proof.
  unfold failure_description. destruct (exn_type e); by rewrite ?append_cons.
Qed.

Lemma seqZ_head (i n : Z) : 0 < n → seqZ i n = i :: seqZ (i + 1) (n - 1).
Proof. intros. rewrite seqZ_cons by done. by rewrite Z.add_1_r, Z.sub_1_r. Qed.

(** C4 (amended).  In the retry loop a transient error at attempt [i]
    (counted from 0) with attempts left makes the loop sleep [2^(i+1)]
    seconds and go on to attempt [i+1] with the same title: 2, 4 and 8
    seconds at attempts 0, 1 and 2.  A transient error at the last attempt
    returns a failure described by error type and message.  Two transient
    errors followed by an answer in which a series is found give sleeps of
    exactly 2 and 4 seconds, three searches of the title, and the lookup
    returns the series.  The item is then recorded as a success when the
    series is truthy and its data can be extracted; it is recorded as a
    failure when the series is falsy ([Not found]) or the extraction
    raises ([Data extraction failed]). *)
Theorem transient_errors_back_off title (max_retries : Z) :
  (∀ attempt later st w' e,
      search_movie (world st) title = (w', inl e) → transient e = true →
      (attempt < max_retries - 1 →
       search_attempts title max_retries (attempt :: later) st =
         search_attempts title max_retries later
           (mkState w' (files st)
              (trace st ++ [EvSearch title; EvSleep (inject_Z (2 ^ (attempt + 1)))])))
      ∧ (¬ attempt < max_retries - 1 →
         search_attempts title max_retries (attempt :: later) st =
           ((None, Some (failure_description e)),
            mkState w' (files st) (trace st ++ [EvSearch title]))))
  ∧ search_tv_show title max_retries = search_attempts title max_retries (seqZ 0 max_retries)
  ∧ (∀ i, 0 ≤ i < max_retries →
          seqZ i (max_retries - i) = i :: seqZ (i + 1) (max_retries - (i + 1)))
  ∧ (inject_Z (2 ^ (0 + 1)) = 2%Q ∧ inject_Z (2 ^ (1 + 1)) = 4%Q
     ∧ inject_Z (2 ^ (2 + 1)) = 8%Q)
  ∧ (∀ st e1 w1 e2 w2 candidates w3 examined w4 result,
        search_movie (world st) title = (w1, inl e1) → transient e1 = true →
        search_movie w1 title = (w2, inl e2) → transient e2 = true →
        search_movie w2 title = (w3, inr candidates) →
        matching_policy w3 candidates examined w4 (Some result) →
        ∃ tr,
          search_tv_show title 3 st =
            ((Some result, None), mkState w4 (files st) (trace st ++ tr))
          ∧ sleeps tr = [2%Q; 4%Q]
          ∧ searches tr = [title; title; title]
          ∧ (∀ output_file delay start_position count position l show_data,
              start_position ≤ position →
              movie_bool result = true →
              extract_show_data w4 result = inr show_data →
              let row := <["Position" := PInt position]> show_data in
              process_position output_file delay start_position count (position, title) l st =
                (mkLocals (results l ++ [row]) (failed_count l) (success_count l + 1),
                 mkState w4
                   (checkpoint output_file position
                      (commit output_file position title (Extracted row) (files st)))
                   (trace st ++ tr ++ delay_events delay position count)))
          ∧ ∀ output_file delay start_position count position l error_msg,
              start_position ≤ position →
              (movie_bool result = false ∧ error_msg = "Not found")
              ∨ (movie_bool result = true
                 ∧ ∃ e, extract_show_data w4 result = inl e
                        ∧ error_msg = "Data extraction failed: " +:+ exn_type e
                                      +:+ ": " +:+ exn_msg e) →
              process_position output_file delay start_position count (position, title) l st =
                (mkLocals (results l) (failed_count l + 1) (success_count l),
                 mkState w4
                   (checkpoint output_file position
                      (commit output_file position title (Failed error_msg) (files st)))
                   (trace st ++ tr ++ delay_events delay position count))).
Proof.
  split; [|split; [|split; [|split]]].
  - intros attempt later st w' e Hs Hr. split; intros Hlt.
    + by eapply search_attempts_transient.
    + by apply search_attempts_exhausted.
  - done.
  - intros i Hi. rewrite seqZ_head by lia. do 2 f_equal. lia.
  - done.
  - intros st e1 w1 e2 w2 candidates w3 examined w4 result Hs1 Hr1 Hs2 Hr2 Hs3 Hpol.
    assert (Hcandidates : candidates ≠ []) by (intros ->; inversion Hpol).
    set (tr := [EvSearch title; EvSleep 2%Q; EvSearch title; EvSleep 4%Q; EvSearch title]
               ++ (EvUpdate <$> examined)).
    assert (Hrun : ∀ fs tr0,
      search_tv_show title 3 (mkState (world st) fs tr0) =
        ((Some result, None), mkState w4 fs (tr0 ++ tr))).
    { intros fs tr0. unfold search_tv_show.
      change (seqZ 0 3) with [0; 1; 2].
      rewrite (search_attempts_transient title 3 0 _ (mkState (world st) fs tr0) w1 e1 Hs1 Hr1)
        by lia.
      rewrite (search_attempts_transient _ _ _ _ _ w2 e2) by (done || lia).
      rewrite (search_attempts_answer _ _ _ _ _ w3 candidates examined w4 (Some result))
        by done.
      cbn [world files trace]. unfold tr. rewrite <- !app_assoc. cbn [app].
      by destruct candidates. }
    exists tr. split; [|split; [|split; [|split]]].
    + rewrite <- (state_eta st) at 1. apply Hrun.
    + unfold tr. rewrite sleeps_app, sleeps_updates. done.
    + unfold tr. rewrite searches_app, searches_updates. done.
    + intros output_file delay start_position count position l show_data Hge Hbool Hx row.
      destruct (process_position_spec output_file delay start_position count position title
                  (world st) Hge) as (show & error & w' & evs & Hsearch & Hstep).
      specialize (Hsearch (files st) (trace st)). rewrite Hrun in Hsearch.
      injection Hsearch as <- <- <- Hevs%app_inv_head. subst evs.
      rewrite <- (state_eta st) at 1. rewrite Hstep.
      unfold outcome_of. by rewrite Hbool, Hx.
    + intros output_file delay start_position count position l error_msg Hge Hcase.
      destruct (process_position_spec output_file delay start_position count position title
                  (world st) Hge) as (show & error & w' & evs & Hsearch & Hstep).
      specialize (Hsearch (files st) (trace st)). rewrite Hrun in Hsearch.
      injection Hsearch as <- <- <- Hevs%app_inv_head. subst evs.
      rewrite <- (state_eta st) at 1. rewrite Hstep.
      unfold outcome_of.
      destruct Hcase as [[Hbool ->]|(Hbool & e & Hx & ->)].
      * by rewrite Hbool.
      * by rewrite Hbool, Hx.
Qed.

(** C5.  A permanent error of the search ends the lookup at once: the
    retry loop returns the failure with this one search in the trace, no
    sleep and no further attempt; and the pass of the loop for the item
    records exactly one failure (one block in the detailed log, one line
    in the plain list, [failed_count] one higher) and no success. *)
Theorem permanent_error_fails_at_once title st w' e :
  search_movie (world st) title = (w', inl e) →
  transient e = false →
  (∀ max_retries attempt later,
      search_attempts title max_retries (attempt :: later) st =
        ((None, Some (failure_description e)),
         mkState w' (files st) (trace st ++ [EvSearch title])))
  ∧ sleeps (trace st ++ [EvSearch title]) = sleeps (trace st)
  ∧ searches (trace st ++ [EvSearch title]) = searches (trace st) ++ [title]
  ∧ ∀ output_file delay start_position count position l,
      start_position ≤ position →
      process_position output_file delay start_position count (position, title) l st =
        (mkLocals (results l) (failed_count l + 1) (success_count l),
         mkState w'
           (checkpoint output_file position
              (commit output_file position title (Failed (failure_description e)) (files st)))
           (trace st ++ [EvSearch title] ++ delay_events delay position count)).
Proof.
  intros Hs Hr.
  split; [|split; [by rewrite sleeps_app, app_nil_r|split; [by rewrite searches_app|]]].
  - intros max_retries attempt later. by apply search_attempts_permanent.
  - intros output_file delay start_position count position l Hge.
    destruct (process_position_spec output_file delay start_position count position title
                (world st) Hge) as (show & error & w1 & evs & Hsearch & Hstep).
    specialize (Hsearch (files st) (trace st)).
    unfold search_tv_show in Hsearch. change (seqZ 0 3) with [0; 1; 2] in Hsearch.
    rewrite (search_attempts_permanent _ _ _ _ _ w' e) in Hsearch by done.
    cbn [world files trace] in Hsearch.
    injection Hsearch as <- <- <- Hevs%app_inv_head. subst evs.
    rewrite <- (state_eta st) at 1. rewrite Hstep.
    unfold outcome_of, error_or_not_found. by rewrite description_not_empty.
Qed.

(** C6.  When the search answers, the candidates are walked as the
    matching policy says: in the order returned, each fetched at most
    once; a candidate whose fetch raises is skipped and never fetched
    again; the first one whose fetched kind is [tv series] or
    [tv mini series] is returned and no later one is fetched; when none is
    accepted the failure is "No TV series found in results"; an empty
    answer is the failure "No results found" and fetches nothing. *)
Theorem candidates_walked_in_order title (max_retries attempt : Z) later st w1 results :
  search_movie (world st) title = (w1, inr results) →
  ∃ examined w' found,
    matching_policy w1 results examined w' found
    ∧ search_attempts title max_retries (attempt :: later) st =
        (match results, found with
         | [], _ => (None, Some "No results found")
         | _, Some result => (Some result, None)
         | _, None => (None, Some "No TV series found in results")
         end,
         mkState w' (files st) (trace st ++ EvSearch title :: (EvUpdate <$> examined)))
    ∧ examined `prefix_of` results
    ∧ (results = [] → examined = [] ∧ found = None)
    ∧ (found = None → examined = results)
    ∧ (∀ result, found = Some result →
         is_tv_series result = true
         ∧ ∃ c w0, last examined = Some c ∧ update w0 c = (w', inr result))
    ∧ (∀ c rest w wa e fs tr,
         update w c = (wa, inl e) →
         first_tv_series (c :: rest) (mkState w fs tr) =
           first_tv_series rest (mkState wa fs (tr ++ [EvUpdate c])))
    ∧ (∀ c rest w wa c' fs tr,
         update w c = (wa, inr c') →
         first_tv_series (c :: rest) (mkState w fs tr) =
           if is_tv_series c' then (Some c', mkState wa fs (tr ++ [EvUpdate c]))
           else first_tv_series rest (mkState wa fs (tr ++ [EvUpdate c]))).
Proof.
  intros Hs.
  destruct (first_tv_series_spec results w1) as (examined & w' & found & Hpol & _).
  exists examined, w', found.
  split; [done|]. split; [by eapply search_attempts_answer|].
  split; [by eapply policy_prefix|].
  split; [intros ->; by inversion Hpol|].
  split; [intros ->; by eapply policy_exhausts|].
  split; [intros result ->; by eapply policy_accepts|].
  split.
  - intros c rest w wa e fs tr Hu. cbn [first_tv_series]. unfold bind, call_update.
    cbn [world files trace]. by rewrite Hu.
  - intros c rest w wa c' fs tr Hu. cbn [first_tv_series]. unfold bind, call_update.
    cbn [world files trace]. rewrite Hu. by destruct (is_tv_series c').
Qed.

(** ** C7: finalization *)

Lemma enumerate_sorted {A} (s : Z) (xs : list A) :
  StronglySorted Z.lt (enumerate s xs).*1 ∧ Forall (fun p => s ≤ p) (enumerate s xs).*1.
Proof.
  induction xs as [|x xs IH] in s |- *; [by split; constructor|].
  destruct (IH (s + 1)) as [Hs Hf]. cbn [enumerate fmap list_fmap fst]. split.
  - constructor; [done|]. eapply Forall_impl; [exact Hf|]. cbn. intros; lia.
  - constructor; [lia|]. eapply Forall_impl; [exact Hf|]. cbn. intros; lia.
Qed.

Lemma to_process_enumerate (start_position : Z) (xs : list string) :
  ∃ s' xs', to_process start_position (enumerate 1 xs) = enumerate s' xs'
            ∧ start_position ≤ s'.
Proof.
  destruct (decide (start_position ≤ 1)) as [Hle|Hgt].
  - exists 1, xs. split; [|done]. by apply to_process_all.
  - eexists start_position, _. split; [|done]. apply to_process_drop. lia.
Qed.

(** The rows extracted in a run segment carry strictly increasing
    positions, all among the positions of the segment. *)
Lemma extracted_rows_positions (os : list (Z * string * outcome)) :
  Forall sound_outcome os →
  StronglySorted Z.lt (outcome_item <$> os).*1 →
  ∃ ps, row_position <$> extracted_rows os = Some <$> ps
        ∧ StronglySorted Z.lt ps
        ∧ ∀ p, p ∈ ps → p ∈ (outcome_item <$> os).*1.
Proof.
  induction 1 as [|[[p t] [row|msg]] os Ho _ IH]; intros Hsorted.
  - exists []. repeat split; [constructor | done].
  - apply StronglySorted_cons in Hsorted as [Hall Hsorted].
    destruct (IH Hsorted) as (ps & Hps & Hss & Hin).
    exists (p :: ps). rewrite extracted_rows_extracted.
    cbn [fmap list_fmap outcome_item fst]. destruct Ho as [Hp _].
    split; [by rewrite Hp; f_equal|]. split.
    + constructor; [done|]. apply Forall_forall. intros q Hq.
      apply Hin in Hq. by eapply Forall_forall in Hall.
    + intros q [->|Hq]%elem_of_cons; [left | right; by apply Hin].
  - apply StronglySorted_cons in Hsorted as [Hall Hsorted].
    destruct (IH Hsorted) as (ps & Hps & Hss & Hin).
    exists ps. rewrite extracted_rows_failed. repeat split; [done..|].
    intros q Hq. right. by apply Hin.
Qed.

(** The run, once the startup protocol and the outcomes are known. *)
Lemma process_titles_run (tv_shows : list string) output_file delay response st
    start_position st1 os w' evs :
  check_resume output_file response st = (inr start_position, st1) →
  Forall sound_outcome os →
  (∀ l fs tr,
      for_each
        (process_position output_file delay start_position (Z.of_nat (length tv_shows)))
        (enumerate 1 tv_shows) l (mkState (world st1) fs tr) =
      (tally_all os l, mkState w' (record_all output_file os fs) (tr ++ evs))) →
  process_titles tv_shows output_file delay response st =
    (inr (tally_all os (mkLocals [] 0 0)),
     mkState w'
       (delete (get_progress_file output_file)
          (delete (get_temp_csv output_file)
             (<[output_file := final_output (extracted_rows os)]>
                (record_all output_file os (files st1)))))
       (trace st1 ++ evs)).
Proof.
  intros Hstart Hsound Hrun.
  specialize (Hrun (mkLocals [] 0 0) (files st1) (trace st1)).
  rewrite state_eta in Hrun.
  unfold process_titles. rewrite (bind_run _ _ _ _ _ Hstart).
  rewrite (bind_run _ _ _ _ _ Hrun).
  rewrite finalize_spec; [done|].
  cbn [tally_all results app]. by apply extracted_rows_fields.
Qed.

Lemma read_marker_store output_file fs store :
  read_marker output_file (<[get_temp_csv output_file := store]> fs)
  = read_marker output_file fs.
Proof.
  pose proof (paths_distinct output_file) as (Hpt & _).
  apply read_marker_same. by rewrite lookup_insert_ne.
Qed.

(** What the provisional store holds does not matter to the startup
    protocol, as long as the store exists. *)
Lemma check_resume_store_content output_file response st store start_position st1 :
  is_Some (files st !! get_temp_csv output_file) →
  check_resume output_file response st = (inr start_position, st1) →
  ∃ st1',
    check_resume output_file response
      (mkState (world st) (<[get_temp_csv output_file := store]> (files st)) (trace st))
    = (inr start_position, st1')
    ∧ world st1' = world st1 ∧ trace st1' = trace st1.
Proof.
  intros Htemp.
  set (st_alt := mkState (world st) (<[get_temp_csv output_file := store]> (files st))
                   (trace st)).
  assert (Htemp' : is_Some (files st_alt !! get_temp_csv output_file)).
  { cbn. by rewrite lookup_insert_eq. }
  destruct (check_resume_cases output_file response st)
    as [(M & HM & Hnz & _ & Hyes & ->)|[(M & HM & Hnz & _ & Hno & ->)|[Hcase ->]]];
    intros [= <- <-].
  - eexists. split.
    + apply check_resume_resume; [|done..]. cbn. by rewrite read_marker_store.
    + done.
  - eexists. split.
    + apply check_resume_restart; [|done..]. cbn. by rewrite read_marker_store.
    + done.
  - eexists. split.
    + apply check_resume_fresh. cbn. rewrite read_marker_store.
      destruct Hcase as [?|[?|Hnone]]; [auto..|].
      rewrite Hnone in Htemp. by destruct Htemp.
    + done.
Qed.

Lemma final_files_lookup output_file fs rows :
  let final := delete (get_progress_file output_file)
                 (delete (get_temp_csv output_file) (<[output_file := rows]> fs)) in
  final !! output_file = Some rows
  ∧ final !! get_temp_csv output_file = None
  ∧ final !! get_progress_file output_file = None
  ∧ ∀ q, q ≠ output_file → q ≠ get_temp_csv output_file →
         q ≠ get_progress_file output_file → final !! q = fs !! q.
Proof.
  pose proof (paths_distinct output_file)
    as (Hpt & _ & _ & _ & _ & _ & Hop & Hot & _).
  cbn. repeat split.
  - by rewrite !lookup_delete_ne, lookup_insert_eq.
  - by rewrite lookup_delete_ne, lookup_delete_eq.
  - by rewrite lookup_delete_eq.
  - intros q H1 H2 H3. by rewrite !lookup_delete_ne, lookup_insert_ne.
Qed.

(** C7 (amended).  The run ends with the final output holding the header
    and then exactly the rows of the in-memory results, which are the
    successes of this run segment in processing order (strictly increasing
    positions, none below the start position); the provisional store and
    the marker file are gone.  Nothing is read back from the provisional
    store: with any other content in it the run gives the same results and
    the same final output.  So after a resume at marker [M] no row of the
    final output has a position [<= M]; the positions after [M] are
    processed again and their rows are those this segment derives. *)
Theorem final_output_is_current_segment (tv_shows : list string) output_file delay
    response st :
  ∃ start_position st1 l st',
    check_resume output_file response st = (inr start_position, st1)
    ∧ process_titles tv_shows output_file delay response st = (inr l, st')
    ∧ files st' !! output_file = Some (final_output (results l))
    ∧ files st' !! get_temp_csv output_file = None
    ∧ files st' !! get_progress_file output_file = None
    ∧ (∃ ps, row_position <$> results l = Some <$> ps
             ∧ StronglySorted Z.lt ps
             ∧ Forall (fun p => start_position ≤ p) ps)
    ∧ (∀ M, read_marker output_file (files st) = Some M → M ≠ 0 →
            is_Some (files st !! get_temp_csv output_file) →
            says_yes response = true →
            Forall (fun row => ∃ p, row_position row = Some p ∧ M < p) (results l))
    ∧ (∀ store,
          is_Some (files st !! get_temp_csv output_file) →
          ∃ st_alt',
            process_titles tv_shows output_file delay response
              (mkState (world st) (<[get_temp_csv output_file := store]> (files st))
                 (trace st))
            = (inr l, st_alt')
            ∧ files st_alt' !! output_file = Some (final_output (results l))).
Proof.
  destruct (process_titles_spec tv_shows output_file delay response st)
    as (start_position & st1 & os0 & w0 & evs0 & Hstart & Hw & _).
  destruct (for_each_spec output_file delay start_position (Z.of_nat (length tv_shows))
              (enumerate 1 tv_shows) (world st1))
    as (os & w' & evs & Hitems & Hsound & Hrun).
  pose proof (process_titles_run _ _ _ _ _ _ _ _ _ _ Hstart Hsound Hrun) as Hfull.
  destruct (final_files_lookup output_file (record_all output_file os (files st1))
              (final_output (extracted_rows os))) as (Hout & Htemp & Hprog & _).
  assert (Hpos : ∃ ps, row_position <$> extracted_rows os = Some <$> ps
                       ∧ StronglySorted Z.lt ps
                       ∧ Forall (fun p => start_position ≤ p) ps).
  { destruct (to_process_enumerate start_position tv_shows) as (s' & xs' & Heq & Hs').
    destruct (enumerate_sorted s' xs') as [Hsorted Hall].
    assert (Hitems' : (outcome_item <$> os).*1 = (enumerate s' xs').*1)
      by (by rewrite Hitems, Heq).
    destruct (extracted_rows_positions os Hsound) as (ps & Hps & Hss & Hin).
    { by rewrite Hitems'. }
    exists ps. repeat split; [done..|].
    apply Forall_forall. intros p Hp. apply Hin in Hp. rewrite Hitems' in Hp.
    eapply Forall_forall in Hall; [|exact Hp]. cbn in Hall. lia. }
  eexists start_position, st1, _, _.
  split; [exact Hstart|]. split; [exact Hfull|].
  cbn [tally_all results app files].
  split; [exact Hout|]. split; [exact Htemp|]. split; [exact Hprog|].
  split; [exact Hpos|]. split.
  - intros M HM Hnz Hstore Hyes.
    rewrite (check_resume_resume _ _ _ _ HM Hnz Hstore Hyes) in Hstart.
    injection Hstart as <- _.
    destruct Hpos as (ps & Hps & _ & Hall).
    apply Forall_forall. intros row Hrow.
    apply (list_elem_of_fmap_2 row_position) in Hrow. rewrite Hps in Hrow.
    apply list_elem_of_fmap in Hrow as (p & Hp & Hin).
    exists p. split; [done|]. eapply Forall_forall in Hall; [|exact Hin]. cbn in Hall. lia.
  - intros store Hstore.
    destruct (check_resume_store_content _ _ _ store _ _ Hstore Hstart)
      as (st1' & Hstart' & Hw' & _).
    rewrite <- Hw' in Hrun.
    pose proof (process_titles_run _ _ _ _ _ _ _ _ _ _ Hstart' Hsound Hrun) as Hfull'.
    eexists. split; [exact Hfull'|]. cbn [files].
    apply final_files_lookup.
Qed.

(** ** C8, C9, C10: the startup protocol *)

(** The failure sinks keep what they held: a run only appends to them. *)
Lemma record_all_sinks_grow output_file os fs :
  (∀ f, fs !! get_failed_file output_file = Some f →
        ∃ more, record_all output_file os fs !! get_failed_file output_file
                = Some (f ++ more))
  ∧ (∀ f, fs !! get_failed_list_file output_file = Some f →
          ∃ more, record_all output_file os fs !! get_failed_list_file output_file
                  = Some (f ++ more)).
Proof.
  split; intros f Hf.
  - rewrite record_all_failed, Hf. destruct (failures os).
    + exists []. by rewrite app_nil_r.
    + by eexists.
  - rewrite record_all_failed_list, Hf. destruct (failures os).
    + exists []. by rewrite app_nil_r.
    + by eexists.
Qed.

(** C8.  With a marker to resume from and a provisional store present, an
    answer that is not a yes makes the startup protocol delete both files,
    start at position 1 and lay down a new store; every other file, the
    two failure sinks among them, is exactly as before when the loop
    begins, and the loop then skips no position.  Over the whole run the
    failure sinks are only appended to. *)
Theorem restart_clears_checkpoint_only output_file response st (M : Z) :
  read_marker output_file (files st) = Some M →
  M ≠ 0 →
  is_Some (files st !! get_temp_csv output_file) →
  says_yes response = false →
  let progress_file := get_progress_file output_file in
  let temp_csv := get_temp_csv output_file in
  let failed_file := get_failed_file output_file in
  let failed_list_file := get_failed_list_file output_file in
  ∃ st1,
    check_resume output_file response st = (inr 1, st1)
    ∧ files st1 = <[temp_csv := fresh_store]> (delete progress_file (delete temp_csv (files st)))
    ∧ files st1 !! progress_file = None
    ∧ files st1 !! temp_csv = Some fresh_store
    ∧ files st1 !! failed_file = files st !! failed_file
    ∧ files st1 !! failed_list_file = files st !! failed_list_file
    ∧ (∀ q, q ≠ progress_file → q ≠ temp_csv → files st1 !! q = files st !! q)
    ∧ world st1 = world st
    ∧ (∀ tv_shows : list string, to_process 1 (enumerate 1 tv_shows) = enumerate 1 tv_shows)
    ∧ ∀ (tv_shows : list string) delay,
        ∃ l st',
          process_titles tv_shows output_file delay response st = (inr l, st')
          ∧ (∀ f, files st !! failed_file = Some f →
                  ∃ more, files st' !! failed_file = Some (f ++ more))
          ∧ (∀ f, files st !! failed_list_file = Some f →
                  ∃ more, files st' !! failed_list_file = Some (f ++ more)).
Proof.
  intros HM Hnz Htemp Hno progress_file temp_csv failed_file failed_list_file.
  pose proof (paths_distinct output_file)
    as (Hpt & Hpf & Hpl & Htf & Htl & Hfl & Hop & Hot & Hof & Hol).
  pose proof (check_resume_restart _ _ _ _ HM Hnz Htemp Hno) as Hstart.
  assert (Hother : ∀ q, q ≠ progress_file → q ≠ temp_csv →
            (<[temp_csv := fresh_store]> (delete progress_file (delete temp_csv (files st))))
              !! q = files st !! q).
  { intros q H1 H2. by rewrite lookup_insert_ne, !lookup_delete_ne. }
  eexists. split; [exact Hstart|]. cbn [files world].
  split; [done|]. split; [by rewrite lookup_insert_ne, lookup_delete_eq|].
  split; [by rewrite lookup_insert_eq|].
  split; [by apply Hother|]. split; [by apply Hother|].
  split; [exact Hother|]. split; [done|].
  split; [intros tv_shows; by apply to_process_all|].
  intros tv_shows delay.
  destruct (for_each_spec output_file delay 1 (Z.of_nat (length tv_shows))
              (enumerate 1 tv_shows) (world st))
    as (os & w' & evs & Hitems & Hsound & Hrun).
  pose proof (process_titles_run _ _ _ _ _ _ _ _ _ _ Hstart Hsound Hrun) as Hfull.
  eexists _, _. split; [exact Hfull|]. cbn [files].
  match goal with
  | |- context [record_all output_file os ?fs1] =>
      destruct (final_files_lookup output_file (record_all output_file os fs1)
                  (final_output (extracted_rows os))) as (_ & _ & _ & Hrest);
      destruct (record_all_sinks_grow output_file os fs1) as [Hf Hl]
  end.
  split; intros f Hfile.
  - rewrite Hrest by done. apply Hf. by rewrite Hother.
  - rewrite Hrest by done. apply Hl. by rewrite Hother.
Qed.

Lemma fresh_store_rows :
  fresh_store = [header_row; Row (replicate 17 (PStr EmptyString))].
Proof. reflexivity. Qed.

(** C9 (as the program has it).  With neither the marker file nor the
    provisional store present, the startup protocol asks nothing, starts
    at position 1 and creates the store before any item is processed; but
    the store it creates holds the header row and then one data row of 17
    empty fields. *)
Theorem fresh_store_has_an_empty_row output_file response st :
  files st !! get_progress_file output_file = None →
  files st !! get_temp_csv output_file = None →
  ∃ st1,
    check_resume output_file response st = (inr 1, st1)
    ∧ trace st1 = trace st
    ∧ (∀ q, q ≠ get_temp_csv output_file → files st1 !! q = files st !! q)
    ∧ files st1 !! get_temp_csv output_file
      = Some [header_row; Row (replicate 17 (PStr EmptyString))]
    ∧ files st1 !! get_temp_csv output_file ≠ Some [header_row].
Proof.
  intros Hp Ht. eexists. split.
  - apply check_resume_fresh. left. unfold read_marker. by rewrite Hp.
  - cbn [files trace]. split; [done|]. split.
    + intros q Hq. by rewrite lookup_insert_ne.
    + rewrite lookup_insert_eq, fresh_store_rows. split; [done|]. discriminate.
Qed.

(** Two file systems that differ at most in the marker file are treated
    alike by the recording of outcomes. *)
Lemma record_all_off_marker output_file os fs1 fs2 :
  (∀ q, q ≠ get_progress_file output_file → fs1 !! q = fs2 !! q) →
  ∀ q, q ≠ get_progress_file output_file →
       record_all output_file os fs1 !! q = record_all output_file os fs2 !! q.
Proof.
  pose proof (paths_distinct output_file) as (Hpt & Hpf & Hpl & _).
  unfold record_all.
  induction os as [|[[p t] o] os IH] in fs1, fs2 |- *; intros Hagree; [done|].
  cbn [foldl]. apply IH. intros q Hq.
  rewrite !checkpoint_other by done.
  destruct o as [row|msg]; cbn [commit].
  - rewrite !lookup_insert. case_decide; [|by apply Hagree].
    by rewrite (Hagree (get_temp_csv output_file)).
  - rewrite !lookup_insert. case_decide.
    + by rewrite (Hagree (get_failed_list_file output_file)).
    + case_decide; [|by apply Hagree].
      by rewrite (Hagree (get_failed_file output_file)).
Qed.

(** C10.  Reading the marker never fails and changes nothing: a missing
    file and a content that is no integer both read as [None] (the
    [ValueError] of [int] is caught).  A marker that reads 0 is treated
    like a missing one: no resume question is asked, the run starts at
    position 1 with a new store, and the whole run ends in the same state
    with the same result as if the marker file had not been there. *)
Theorem load_progress_total_zero_is_absent output_file st :
  (load_progress output_file st).2 = st
  ∧ (files st !! get_progress_file output_file = None →
     (load_progress output_file st).1 = None)
  ∧ (∀ f e, files st !! get_progress_file output_file = Some f →
            py_int (PyStr.strip (file_text f)) = inl e →
            (load_progress output_file st).1 = None)
  ∧ (∀ f z, files st !! get_progress_file output_file = Some f →
            py_int (PyStr.strip (file_text f)) = inr z →
            (load_progress output_file st).1 = Some z)
  ∧ ((load_progress output_file st).1 = Some 0 →
     ∀ response,
       let absent := mkState (world st) (delete (get_progress_file output_file) (files st))
                       (trace st) in
       (load_progress output_file absent).1 = None
       ∧ check_resume output_file response st =
           (inr 1, mkState (world st)
                     (<[get_temp_csv output_file := fresh_store]> (files st)) (trace st))
       ∧ check_resume output_file response absent =
           (inr 1, mkState (world st)
                     (<[get_temp_csv output_file := fresh_store]> (files absent)) (trace st))
       ∧ prompts (trace (check_resume output_file response st).2) = prompts (trace st)
       ∧ ∀ (tv_shows : list string) delay,
           process_titles tv_shows output_file delay response st =
           process_titles tv_shows output_file delay response absent).
Proof.
  rewrite load_progress_spec. cbn [fst snd]. unfold read_marker at 1 2 3.
  split; [done|]. split; [by intros ->|]. split; [by intros f e -> ->|].
  split; [by intros f z -> ->|].
  intros Hzero response.
  set (absent := mkState (world st) (delete (get_progress_file output_file) (files st))
                   (trace st)).
  assert (Habsent : read_marker output_file (files absent) = None).
  { unfold read_marker. cbn. by rewrite lookup_delete_eq. }
  assert (Hstart : check_resume output_file response st =
            (inr 1, mkState (world st)
                      (<[get_temp_csv output_file := fresh_store]> (files st)) (trace st)))
    by (apply check_resume_fresh; auto).
  assert (Hstart' : check_resume output_file response absent =
            (inr 1, mkState (world st)
                      (<[get_temp_csv output_file := fresh_store]> (files absent)) (trace st)))
    by (apply (check_resume_fresh output_file response absent); auto).
  split; [by rewrite load_progress_spec|].
  split; [exact Hstart|]. split; [exact Hstart'|].
  split; [by rewrite Hstart|].
  intros tv_shows delay.
  destruct (for_each_spec output_file delay 1 (Z.of_nat (length tv_shows))
              (enumerate 1 tv_shows) (world st))
    as (os & w' & evs & Hitems & Hsound & Hrun).
  rewrite (process_titles_run _ _ _ _ _ _ _ _ _ _ Hstart Hsound Hrun).
  rewrite (process_titles_run _ _ _ _ _ _ _ _ _ _ Hstart' Hsound Hrun).
  cbn [files trace]. do 2 f_equal.
  pose proof (paths_distinct output_file)
    as (Hpt & _ & _ & _ & _ & _ & Hop & Hot & _).
  apply map_eq. intros q.
  destruct (decide (q = get_progress_file output_file)) as [->|Hq].
  { by rewrite !lookup_delete_eq. }
  rewrite !(lookup_delete_ne _ (get_progress_file output_file)) by done.
  destruct (decide (q = get_temp_csv output_file)) as [->|Hq'].
  { by rewrite !lookup_delete_eq. }
  rewrite !(lookup_delete_ne _ (get_temp_csv output_file)) by done.
  destruct (decide (q = output_file)) as [->|Hq''].
  { by rewrite !lookup_insert_eq. }
  rewrite !(lookup_insert_ne _ output_file) by done.
  apply record_all_off_marker; [|done].
  intros q0 Hq0. unfold absent. cbn [files].
  rewrite !lookup_insert. case_decide; [done|].
  by rewrite lookup_delete_ne.
Qed.

(** ** More on paths and on the marker file *)

Lemma has_dot_app (s ext : string) : PyStr.has_dot (s +:+ String "." ext) = true.
Proof.
  induction s as [|c s IH]; [done|].
  rewrite append_cons. cbn [PyStr.has_dot]. rewrite IH. apply orb_true_r.
Qed.

Lemma rsplit_dot_head_no_dot (s : string) :
  PyStr.has_dot s = false → PyStr.rsplit_dot_head s = s.
Proof.
  induction s as [|c s IH]; [done|]. cbn [PyStr.has_dot PyStr.rsplit_dot_head].
  intros [Hc Hs]%orb_false_elim. rewrite Hc. cbn. by rewrite IH.
Qed.

Lemma rsplit_dot_head_ext (stem ext : string) :
  PyStr.has_dot ext = false → PyStr.rsplit_dot_head (stem +:+ String "." ext) = stem.
Proof.
  intros Hext. induction stem as [|c s IH].
  - rewrite append_nil. cbn [PyStr.rsplit_dot_head]. by rewrite Hext.
  - rewrite append_cons. cbn [PyStr.rsplit_dot_head].
    rewrite has_dot_app, andb_false_r. by rewrite IH.
Qed.

(** The four artifact paths are named after the output path without its
    last extension: what follows the last dot is cut off (also when that
    dot sits in a directory name), and a path without a dot is used whole. *)
Theorem artifact_paths_of_output (output_file : string) :
  (PyStr.has_dot output_file = false →
     get_progress_file output_file = output_file +:+ "_progress.txt"
     ∧ get_temp_csv output_file = output_file +:+ "_temp.csv"
     ∧ get_failed_file output_file = output_file +:+ "_failed.txt"
     ∧ get_failed_list_file output_file = output_file +:+ "_failed_list.txt")
  ∧ (∀ stem ext,
       output_file = stem +:+ String "." ext → PyStr.has_dot ext = false →
       get_progress_file output_file = stem +:+ "_progress.txt"
       ∧ get_temp_csv output_file = stem +:+ "_temp.csv"
       ∧ get_failed_file output_file = stem +:+ "_failed.txt"
       ∧ get_failed_list_file output_file = stem +:+ "_failed_list.txt").
Proof.
  unfold get_progress_file, get_temp_csv, get_failed_file, get_failed_list_file. split.
  - intros Hs. by rewrite rsplit_dot_head_no_dot.
  - intros stem ext -> Hext. by rewrite rsplit_dot_head_ext.
Qed.

(** Whatever the output path, its four artifact paths differ from each
    other and from the output path itself: no write to one of these files
    can land in another. *)
Theorem artifact_paths_never_collide (output_file : string) :
  NoDup [ output_file; get_progress_file output_file; get_temp_csv output_file;
          get_failed_file output_file; get_failed_list_file output_file ].
Proof.
  pose proof (paths_distinct output_file)
    as (Hpt & Hpf & Hpl & Htf & Htl & Hfl & Hop & Hot & Hof & Hol).
  repeat (apply NoDup_cons; split;
    [rewrite ?not_elem_of_cons; repeat split; (done || apply not_elem_of_nil)|]).
  apply NoDup_nil_2.
Qed.

(** Saving a position and loading it back gives that position, whatever
    integer it is (within the length limit of the conversion) and whatever
    the marker file held before; nothing else changes. *)
Theorem save_then_load_progress output_file position st :
  within_str_limit position →
  let st' := (save_progress output_file position st).2 in
  load_progress output_file st' = (Some position, st')
  ∧ world st' = world st ∧ trace st' = trace st
  ∧ ∀ q, q ≠ get_progress_file output_file → files st' !! q = files st !! q.
Proof.
  intros _. rewrite save_progress_spec. cbn [snd]. split; [|split; [done|split; [done|]]].
  - rewrite load_progress_spec. cbn [files].
    erewrite read_marker_written; [done|]. by rewrite lookup_insert_eq.
  - intros q Hq. cbn [files]. by rewrite lookup_insert_ne.
Qed.

Lemma lstrip_blank (a s : string) : blank a = true → PyStr.lstrip (a +:+ s) = PyStr.lstrip s.
Proof.
  unfold blank. induction a as [|c a IH]; [done|]. cbn [PyStr.string_forall].
  intros [Hc Ha]%andb_prop. rewrite append_cons. cbn [PyStr.lstrip]. rewrite Hc. by apply IH.
Qed.

Lemma rstrip_all_blank (b : string) : blank b = true → PyStr.rstrip b = EmptyString.
Proof.
  unfold blank. induction b as [|c b IH]; [done|]. cbn [PyStr.string_forall].
  intros [Hc Hb]%andb_prop. cbn [PyStr.rstrip]. rewrite (IH Hb). by rewrite Hc.
Qed.

Lemma rstrip_blank (s b : string) : blank b = true → PyStr.rstrip (s +:+ b) = PyStr.rstrip s.
Proof.
  intros Hb. induction s as [|c s IH].
  - rewrite append_nil. by apply rstrip_all_blank.
  - rewrite append_cons. cbn [PyStr.rstrip]. by rewrite IH.
Qed.

Lemma str_not_empty (z : Z) : PyInt.str z ≠ EmptyString.
Proof. intros H. pose proof (literal_str z) as Hz. by rewrite H in Hz. Qed.

Lemma py_int_of_str (z : Z) : py_int (PyInt.str z) = inr z.
Proof. unfold py_int. rewrite strip_id by apply str_no_space. by rewrite literal_str. Qed.

(** White space around the number in the marker file (a line end left by
    an editor, say) does not matter to [load_progress], for a number
    within the length limit of the conversion. *)
Theorem load_progress_ignores_white_space output_file st (before after : string) (z : Z) :
  within_str_limit z →
  blank before = true → blank after = true →
  files st !! get_progress_file output_file
    = Some [Text (before +:+ PyInt.str z +:+ after)] →
  load_progress output_file st = (Some z, st).
Proof.
  intros _ Hb Ha Hf. rewrite load_progress_spec. f_equal.
  unfold read_marker. rewrite Hf. cbn [file_text foldr chunk_text].
  rewrite append_empty_r.
  assert (Hstrip : PyStr.strip (before +:+ PyInt.str z +:+ after) = PyInt.str z).
  { unfold PyStr.strip. rewrite lstrip_blank by done.
    assert (Hl : PyStr.lstrip (PyInt.str z +:+ after) = PyInt.str z +:+ after).
    { pose proof (str_no_space z) as Hns. pose proof (str_not_empty z) as Hne.
      destruct (PyInt.str z) as [|c s]; [done|].
      cbn [PyStr.string_forall] in Hns. apply andb_prop in Hns as [Hc _].
      rewrite append_cons. cbn [PyStr.lstrip].
      by destruct (PyStr.is_space c). }
    rewrite Hl, rstrip_blank by done. apply rstrip_id, str_no_space. }
  by rewrite Hstrip, py_int_of_str.
Qed.

(** ** More on the two appenders *)

Lemma wrong_fields_nil_iff (row : dict) :
  wrong_fields row = [] ↔ ∀ key, is_Some (row !! key) → key ∈ fieldnames.
Proof.
  unfold wrong_fields. split.
  - intros Hnil key Hkey. destruct (decide (key ∈ fieldnames)) as [|Hout]; [done|].
    assert (Hin : key ∈ filter (fun key => key ∉ fieldnames) (elements (dom row))).
    { apply list_elem_of_filter. split; [done|]. by apply elem_of_elements, elem_of_dom. }
    rewrite Hnil in Hin. by apply not_elem_of_nil in Hin.
  - intros Hall. apply filter_nil_Forall, Forall_forall.
    intros key Hkey%elem_of_elements%elem_of_dom Hout. by apply Hout, Hall.
Qed.

Lemma append_to_csv_state output_file (row : dict) (write_header : bool) st :
  append_to_csv output_file row write_header st =
    let start := if write_header then [header_row]
                 else default [] (files st !! output_file) in
    match wrong_fields row with
    | [] => (inr tt,
             mkState (world st)
               (<[output_file := start ++ [Row (dict_to_list row)]]> (files st)) (trace st))
    | _ => (inl (ValueError "dict contains fields not in fieldnames"),
            mkState (world st) (<[output_file := start]> (files st)) (trace st))
    end.
Proof.
  unfold append_to_csv, bind, when, ret, open_w, open_a, write, set_files.
  destruct write_header; destruct (wrong_fields row); cbn;
    rewrite ?lookup_insert_eq, ?insert_insert_eq; cbn;
    rewrite ?lookup_insert_eq, ?insert_insert_eq; reflexivity.
Qed.

(** [append_to_csv] refuses, with a [ValueError], exactly the rows that
    have a key which is no column.  An accepted row is added after what the
    file held (after a new header, with [write_header]).  A refused row
    adds nothing, but by then the file has been created, or with
    [write_header] emptied and given its header.  No other file changes. *)
Theorem append_to_csv_refuses_unknown_columns output_file (row : dict)
    (write_header : bool) st :
  let r := (append_to_csv output_file row write_header st).1 in
  let st' := (append_to_csv output_file row write_header st).2 in
  let start := if write_header then [header_row]
               else default [] (files st !! output_file) in
  world st' = world st ∧ trace st' = trace st
  ∧ (∀ q, q ≠ output_file → files st' !! q = files st !! q)
  ∧ ((∀ key, is_Some (row !! key) → key ∈ fieldnames) →
       r = inr tt
       ∧ files st' !! output_file = Some (start ++ [Row (dict_to_list row)]))
  ∧ (∀ key, is_Some (row !! key) → key ∉ fieldnames →
       (∃ e, r = inl e ∧ exn_type e = "ValueError")
       ∧ files st' !! output_file = Some start).
Proof.
  cbv zeta. rewrite append_to_csv_state. cbv zeta.
  destruct (wrong_fields row) as [|k ks] eqn:Hw; cbn [fst snd world files trace].
  - split; [done|]. split; [done|].
    split; [intros q Hq; by rewrite lookup_insert_ne|].
    split; [intros _; split; [done|]; by rewrite lookup_insert_eq|].
    intros key Hkey Hout. destruct Hout. by apply (proj1 (wrong_fields_nil_iff row) Hw).
  - split; [done|]. split; [done|].
    split; [intros q Hq; by rewrite lookup_insert_ne|].
    split; [|intros key Hkey Hout; split; [by eexists|]; by rewrite lookup_insert_eq].
    intros Hall. apply (proj2 (wrong_fields_nil_iff row)) in Hall. by rewrite Hall in Hw.
Qed.

(** [append_failure] adds one block to the detailed log, after a header
    when the log did not exist, and one line with the title to the plain
    list; it keeps what both files held and touches nothing else.  A second
    failure adds its block after the first, without another header. *)
Theorem append_failure_appends output_file position title error st :
  let st' := (append_failure output_file position title error st).2 in
  let failed_file := get_failed_file output_file in
  let failed_list_file := get_failed_list_file output_file in
  world st' = world st ∧ trace st' = trace st
  ∧ files st' !! failed_file
    = Some (default failed_header (files st !! failed_file)
            ++ failure_block position title error)
  ∧ files st' !! failed_list_file
    = Some (default [] (files st !! failed_list_file) ++ [Text (title +:+ newline)])
  ∧ (∀ q, q ≠ failed_file → q ≠ failed_list_file → files st' !! q = files st !! q)
  ∧ ∀ position2 title2 error2,
      files (append_failure output_file position2 title2 error2 st').2 !! failed_file
      = Some (default failed_header (files st !! failed_file)
              ++ failure_block position title error
              ++ failure_block position2 title2 error2).
Proof.
  pose proof (paths_distinct output_file) as (_ & _ & _ & _ & _ & Hfl & _).
  cbv zeta. rewrite !append_failure_spec. cbn [snd world files trace commit].
  split; [done|]. split; [done|].
  split; [by rewrite lookup_insert_ne, lookup_insert_eq|].
  split; [by rewrite lookup_insert_eq|].
  split; [intros q H1 H2; by rewrite !lookup_insert_ne|].
  intros position2 title2 error2.
  rewrite append_failure_spec. cbn [snd world files trace commit].
  rewrite lookup_insert_ne, lookup_insert_eq by done.
  rewrite lookup_insert_ne, lookup_insert_eq by done.
  cbn [default from_option]. unfold id. by rewrite <- ?app_assoc.
Qed.

(** ** More on the lookup *)

(** An error is retried exactly when its message mentions 405 or 429, or
    is not a printed dict and mentions "Too Many Requests".  A message that
    is a printed dict is replaced by one of three fixed texts, so a printed
    dict that only says "Too Many Requests" counts as permanent. *)
Theorem transient_characterisation (e : PyExn) :
  let msg := exn_msg e in
  transient e
    = PyStr.contains "405" msg || PyStr.contains "429" msg
      || (negb (PyStr.startswith "{" msg) && PyStr.contains "Too Many Requests" msg)
  ∧ (PyStr.startswith "{" msg = true →
       clean_error_msg msg
         ∈ ["HTTP 405: Not Allowed"; "HTTP 429: Too Many Requests"; "HTTP error"])
  ∧ (PyStr.startswith "{" msg = false → clean_error_msg msg = msg).
Proof.
  cbv zeta. unfold transient, clean_error_msg.
  destruct (PyStr.startswith "{" (exn_msg e)) eqn:Hb.
  - destruct (PyStr.contains "405" (exn_msg e)) eqn:H405.
    + split; [reflexivity|]. split; [intros _; set_unfold; tauto | done].
    + destruct (PyStr.contains "429" (exn_msg e)) eqn:H429.
      * split; [reflexivity|]. split; [intros _; set_unfold; tauto | done].
      * split; [reflexivity|]. split; [intros _; set_unfold; tauto | done].
  - unfold retryable. split; [by rewrite andb_true_l|]. split; done.
Qed.

Lemma contains_infix (needle a b : string) :
  needle ≠ EmptyString → PyStr.contains needle (a +:+ needle +:+ b) = true.
Proof.
  intros Hn. induction a as [|c a IH].
  - rewrite append_nil.
    assert (Hp : String.prefix needle (needle +:+ b) = true).
    { clear Hn. induction needle as [|x n IHn]; [by destruct b|].
      rewrite append_cons. cbn. by destruct (ascii_dec x x). }
    destruct needle; [done|]. rewrite append_cons in *.
    cbn [PyStr.contains]. by rewrite Hp.
  - rewrite append_cons. cbn [PyStr.contains]. rewrite IH. apply orb_true_r.
Qed.

Lemma description_is_not_exhaustion (e : PyExn) :
  failure_description e ≠ "Max retries exceeded".
Proof.
  unfold failure_description. intros Heq.
  pose proof (contains_infix ": " (exn_type e) (clean_error_msg (exn_msg e))
                ltac:(done)) as Hc.
  rewrite Heq in Hc. discriminate.
Qed.

Lemma backoff_step (i k : Z) :
  0 < k →
  inject_Z (2 ^ (i + 1)) :: ((fun j => inject_Z (2 ^ (j + 1))) <$> seqZ (i + 1) (k - 1))
  = (fun j => inject_Z (2 ^ (j + 1))) <$> seqZ i k.
Proof. intros Hk. rewrite (seqZ_head i k) by done. done. Qed.

(** The retry loop from attempt [i] on: between one and [max_retries - i]
    searches of the same title, a sleep of [2^(j+1)] after each attempt [j]
    but the last one made, and one of the four endings. *)
Lemma search_attempts_shape title (max_retries : Z) (n : nat) (i : Z) (w : World) :
  0 ≤ i → Z.of_nat n = max_retries - i → (0 < n)%nat →
  ∃ r w' evs k,
    1 ≤ k ≤ max_retries - i
    ∧ (∀ fs tr, search_attempts title max_retries (seqZ i (max_retries - i))
                  (mkState w fs tr) = (r, mkState w' fs (tr ++ evs)))
    ∧ searches evs = replicate (Z.to_nat k) title
    ∧ sleeps evs = (fun j => inject_Z (2 ^ (j + 1))) <$> seqZ i (k - 1)
    ∧ search_ended r.
Proof.
  induction n as [|n IH] in i, w |- *; intros Hi Hn Hpos; [lia|].
  rewrite (seqZ_head i) by lia.
  destruct (search_movie w title) as [w1 [e|candidates]] eqn:Hs.
  - destruct (transient e) eqn:Hr.
    + destruct (decide (i < max_retries - 1)) as [Hlt|Hge].
      * destruct (IH (i + 1) w1) as (r & w' & evs & k & Hk & Hrun & Hse & Hsl & Hend);
          [lia | lia | lia |].
        exists r, w', ([EvSearch title; EvSleep (inject_Z (2 ^ (i + 1)))] ++ evs), (k + 1).
        split; [lia|]. split; [|split; [|split]].
        -- intros fs tr.
           rewrite (search_attempts_transient title max_retries i _ (mkState w fs tr) w1 e)
             by done.
           cbn [world files trace].
           replace (max_retries - i - 1) with (max_retries - (i + 1)) by lia.
           rewrite Hrun. by rewrite <- app_assoc.
        -- rewrite searches_app, Hse. cbn.
           replace (Z.to_nat (k + 1)) with (S (Z.to_nat k)) by lia. done.
        -- rewrite sleeps_app, Hsl. cbn [app].
           replace (k + 1 - 1) with k by lia.
           change (sleeps [EvSearch title; EvSleep (inject_Z (2 ^ (i + 1)))])
             with [inject_Z (2 ^ (i + 1))].
           cbn [app]. apply backoff_step. lia.
        -- done.
      * exists (None, Some (failure_description e)), w1, [EvSearch title], 1.
        split; [lia|]. split; [|split; [done|split; [done|]]].
        -- intros fs tr.
           by rewrite (search_attempts_exhausted title max_retries i _ (mkState w fs tr) w1 e).
        -- cbn. right; right. by eexists.
    + exists (None, Some (failure_description e)), w1, [EvSearch title], 1.
      split; [lia|]. split; [|split; [done|split; [done|]]].
      * intros fs tr.
        by rewrite (search_attempts_permanent title max_retries i _ (mkState w fs tr) w1 e).
      * cbn. right; right. by eexists.
  - destruct (first_tv_series_spec candidates w1) as (ex & w' & found & Hpol & _).
    eexists _, w', (EvSearch title :: (EvUpdate <$> ex)), 1.
    split; [lia|]. split; [|split; [|split]].
    + intros fs tr.
      by rewrite (search_attempts_answer title max_retries i _ (mkState w fs tr) w1
                    candidates ex w' found).
    + change (searches (EvSearch title :: (EvUpdate <$> ex)))
        with (title :: searches (EvUpdate <$> ex)).
      by rewrite searches_updates.
    + change (sleeps (EvSearch title :: (EvUpdate <$> ex)))
        with (sleeps (EvUpdate <$> ex)).
      by rewrite sleeps_updates.
    + destruct candidates as [|c rest]; [cbn; auto|].
      destruct found as [result|]; cbn; [|auto].
      split; [done|]. by eapply policy_accepts.
Qed.

(** A lookup ends with a series (and no error) or with no show and one of
    three failures: nothing found, no series among the results, or the
    description of the error raised.  With [max_retries >= 1] it never ends
    with "Max retries exceeded"; with [max_retries <= 0] it always does,
    and without calling the provider. *)
Theorem search_tv_show_endings title (max_retries : Z) st :
  (max_retries ≤ 0 →
     search_tv_show title max_retries st = ((None, Some "Max retries exceeded"), st))
  ∧ (0 < max_retries →
       search_ended (search_tv_show title max_retries st).1
       ∧ (search_tv_show title max_retries st).1.2 ≠ Some "Max retries exceeded").
Proof.
  split.
  - intros Hle. unfold search_tv_show. by rewrite seqZ_nil.
  - intros Hpos. unfold search_tv_show.
    destruct (search_attempts_shape title max_retries (Z.to_nat max_retries) 0 (world st))
      as (r & w' & evs & k & _ & Hrun & _ & _ & Hend); [lia..|].
    rewrite Z.sub_0_r in Hrun. specialize (Hrun (files st) (trace st)).
    rewrite state_eta in Hrun. rewrite Hrun. cbn [fst]. split; [done|].
    destruct r as [[result|] error]; cbn in Hend |- *.
    + destruct Hend as [-> _]. done.
    + destruct Hend as [->|[->|[e ->]]]; [done..|].
      intros [= Heq]. by apply description_is_not_exhaustion in Heq.
Qed.

(** A lookup searches the title at least once and at most [max_retries]
    times and never searches anything else; it sleeps only between two
    searches, 2, 4, 8, ... seconds in this order; it writes no file. *)
Theorem search_tv_show_bounds title (max_retries : Z) st :
  ∃ (k : Z) evs,
    trace (search_tv_show title max_retries st).2 = trace st ++ evs
    ∧ files (search_tv_show title max_retries st).2 = files st
    ∧ 0 ≤ k ≤ Z.max 0 max_retries
    ∧ (0 < max_retries → 1 ≤ k)
    ∧ searches evs = replicate (Z.to_nat k) title
    ∧ sleeps evs = backoff_schedule (k - 1).
Proof.
  destruct (decide (0 < max_retries)) as [Hpos|Hle].
  - destruct (search_attempts_shape title max_retries (Z.to_nat max_retries) 0 (world st))
      as (r & w' & evs & k & Hk & Hrun & Hse & Hsl & _); [lia..|].
    rewrite Z.sub_0_r in Hrun, Hk. specialize (Hrun (files st) (trace st)).
    rewrite state_eta in Hrun.
    exists k, evs. unfold search_tv_show. rewrite Hrun. cbn [snd files trace].
    repeat split; [lia | lia | lia | done | done].
  - exists 0, []. unfold search_tv_show. rewrite seqZ_nil by lia. cbn.
    rewrite app_nil_r. repeat split; lia.
Qed.

(** ** More on shaping an entity into a row *)

Lemma extract_show_data_inv w show show_data :
  extract_show_data w show = inr show_data →
  ∃ runtime genres creators,
    show_data =
      list_to_map
        [ ("Const", PStr ("tt" +:+ py_str (movieID show)));
          ("Title", get_or_empty show "title");
          ("URL", PStr ("https://www.imdb.com/title/" +:+ ("tt" +:+ py_str (movieID show))
                        +:+ "/"));
          ("Title Type", PStr "tvSeries");
          ("IMDb Rating", get_or_empty show "rating");
          ("Runtime (mins)", runtime);
          ("Year", get_or_empty show "year");
          ("Genres", genres);
          ("Num Votes", get_or_empty show "votes");
          ("Release Date",
           if negb (truthy (get_or_empty show "original air date"))
              && truthy (get_or_empty show "year")
           then PStr (py_str (get_or_empty show "year") +:+ "-01-01")
           else get_or_empty show "original air date");
          ("Directors", creators);
          ("Created", PStr (today w));
          ("Modified", PStr (today w));
          ("Description", PStr EmptyString);
          ("Your Rating", PStr EmptyString);
          ("Date Rated", PStr EmptyString) ].
Proof.
  unfold extract_show_data, bind_exn. intros Hx.
  repeat match type of Hx with
         | match ?r with inl _ => _ | inr _ => _ end = _ =>
             destruct r; [discriminate|]
         end.
  injection Hx as <-. by eexists _, _, _.
Qed.

(** The row written for a success has its 17 cells in the column order:
    the position first; [Title Type] is always [tvSeries] whatever kind the
    entity has; [Description], [Your Rating] and [Date Rated] are empty;
    [Created] and [Modified] are today's date; [Const] is [tt] and the
    entity's id, and the URL is built from it.  No cell falls back to the
    writer's default for a missing key. *)
Theorem extracted_row_layout w show show_data position :
  extract_show_data w show = inr show_data →
  ∃ runtime genres release_date creators,
    let const := "tt" +:+ py_str (movieID show) in
    dict_to_list (<["Position" := PInt position]> show_data) =
      [ PInt position; PStr const; PStr (today w); PStr (today w); PStr EmptyString;
        get_or_empty show "title";
        PStr ("https://www.imdb.com/title/" +:+ const +:+ "/");
        PStr "tvSeries"; get_or_empty show "rating"; runtime;
        get_or_empty show "year"; genres; get_or_empty show "votes";
        release_date; creators; PStr EmptyString; PStr EmptyString ]
    ∧ ∀ key, is_Some (show_data !! key) ↔ key ∈ fieldnames ∧ key ≠ "Position".
Proof.
  intros (runtime & genres & creators & ->)%extract_show_data_inv.
  eexists runtime, genres, _, creators. cbv zeta. split.
  - reflexivity.
  - intros key. rewrite <- elem_of_dom.
    rewrite dom_list_to_map_L. cbn [fmap list_fmap fst list_to_set].
    unfold fieldnames. set_unfold.
    split.
    + intros Hk. repeat (destruct Hk as [->|Hk]; [split; [tauto|discriminate]|]). done.
    + intros [Hk Hne]. destruct Hk as [->|Hk]; [done|]. tauto.
Qed.

(** The release date of a row: the air date when the entity has one; else
    the first of January of its year when it has a year; else empty. *)
Theorem extracted_release_date w show show_data :
  extract_show_data w show = inr show_data →
  (∀ air, movie_get show "original air date" = Some air → truthy air = true →
          show_data !! "Release Date" = Some air)
  ∧ (∀ year,
       truthy (get_or_empty show "original air date") = false →
       movie_get show "year" = Some year → truthy year = true →
       show_data !! "Release Date" = Some (PStr (py_str year +:+ "-01-01")))
  ∧ (movie_get show "original air date" = None →
     truthy (get_or_empty show "year") = false →
     show_data !! "Release Date" = Some (PStr EmptyString)).
Proof.
  intros (runtime & genres & creators & ->)%extract_show_data_inv.
  assert (Hlook : ∀ v : pyval,
    (list_to_map
       [ ("Const", PStr ("tt" +:+ py_str (movieID show)));
         ("Title", get_or_empty show "title");
         ("URL", PStr ("https://www.imdb.com/title/" +:+ ("tt" +:+ py_str (movieID show))
                       +:+ "/"));
         ("Title Type", PStr "tvSeries");
         ("IMDb Rating", get_or_empty show "rating");
         ("Runtime (mins)", runtime);
         ("Year", get_or_empty show "year");
         ("Genres", genres);
         ("Num Votes", get_or_empty show "votes");
         ("Release Date", v);
         ("Directors", creators);
         ("Created", PStr (today w));
         ("Modified", PStr (today w));
         ("Description", PStr EmptyString);
         ("Your Rating", PStr EmptyString);
         ("Date Rated", PStr EmptyString) ] : dict) !! "Release Date" = Some v)
    by (intros v; reflexivity).
  rewrite Hlook. unfold get_or_empty. split; [|split].
  - intros air -> Hair. cbn [default from_option id]. by rewrite Hair.
  - intros year Hair -> Hyear. cbn [default from_option id]. by rewrite Hair, Hyear.
  - intros -> Hyear. by rewrite Hyear, andb_false_r.
Qed.

Lemma getitem0_truthy (v : pyval) e :
  truthy v = true → getitem0 v = inl e → exn_type e = "TypeError".
Proof.
  destruct v as [| | |s|l|]; cbn; try (intros _ [= <-]; done).
  - destruct s; [done|]. done.
  - destruct l; [done|]. done.
Qed.

Lemma join_strs_error (v : pyval) e : join_strs v = inl e → exn_type e = "TypeError".
Proof.
  unfold join_strs, bind_exn, iterate.
  destruct v; try (intros [= <-]; done); done.
Qed.

(** Extraction fails with a [TypeError] only (never an [IndexError]: an
    empty [runtimes] is skipped).  An entity without [runtimes], [genres],
    [creator] and [director] always extracts, these three cells being
    empty; and when [creator] is a list, [director] is not looked at. *)
Theorem extraction_failures w show :
  (∀ e, extract_show_data w show = inl e → exn_type e = "TypeError")
  ∧ (movie_get show "runtimes" = None → movie_get show "genres" = None →
     movie_get show "creator" = None → movie_get show "director" = None →
     ∃ show_data,
       extract_show_data w show = inr show_data
       ∧ show_data !! "Runtime (mins)" = Some (PStr EmptyString)
       ∧ show_data !! "Genres" = Some (PStr EmptyString)
       ∧ show_data !! "Directors" = Some (PStr EmptyString))
  ∧ (∀ people,
       movie_get show "runtimes" = None → movie_get show "genres" = None →
       movie_get show "creator" = Some (PList people) →
       ∃ show_data,
         extract_show_data w show = inr show_data
         ∧ show_data !! "Directors"
           = Some (PStr (PyStr.join ", " (py_str <$> people)))).
Proof.
  split; [|split].
  - intros e. unfold extract_show_data, bind_exn.
    destruct (movie_get show "runtimes") as [runtimes|].
    + destruct (truthy runtimes) eqn:Ht.
      * destruct (getitem0 runtimes) as [e0|runtime] eqn:Hg.
        { intros [= <-]. by eapply getitem0_truthy. }
        destruct (movie_get show "genres") as [genres|].
        { unfold join_value. destruct (iterate genres) as [|items]; [by intros [= <-]|].
          destruct (all_str items); [|by intros [= <-]]. cbn.
          destruct (movie_get show "creator") as [creator|].
          - destruct (join_strs creator) eqn:Hj; [|done].
            intros [= <-]. by eapply join_strs_error.
          - destruct (movie_get show "director") as [director|]; [|done].
            destruct (join_strs director) eqn:Hj; [|done].
            intros [= <-]. by eapply join_strs_error. }
        destruct (movie_get show "creator") as [creator|].
        { destruct (join_strs creator) eqn:Hj; [|done].
          intros [= <-]. by eapply join_strs_error. }
        destruct (movie_get show "director") as [director|]; [|done].
        destruct (join_strs director) eqn:Hj; [|done].
        intros [= <-]. by eapply join_strs_error.
      * destruct (movie_get show "genres") as [genres|].
        { unfold join_value. destruct (iterate genres) as [|items]; [by intros [= <-]|].
          destruct (all_str items); [|by intros [= <-]]. cbn.
          destruct (movie_get show "creator") as [creator|].
          - destruct (join_strs creator) eqn:Hj; [|done].
            intros [= <-]. by eapply join_strs_error.
          - destruct (movie_get show "director") as [director|]; [|done].
            destruct (join_strs director) eqn:Hj; [|done].
            intros [= <-]. by eapply join_strs_error. }
        destruct (movie_get show "creator") as [creator|].
        { destruct (join_strs creator) eqn:Hj; [|done].
          intros [= <-]. by eapply join_strs_error. }
        destruct (movie_get show "director") as [director|]; [|done].
        destruct (join_strs director) eqn:Hj; [|done].
        intros [= <-]. by eapply join_strs_error.
    + destruct (movie_get show "genres") as [genres|].
      { unfold join_value. destruct (iterate genres) as [|items]; [by intros [= <-]|].
        destruct (all_str items); [|by intros [= <-]]. cbn.
        destruct (movie_get show "creator") as [creator|].
        - destruct (join_strs creator) eqn:Hj; [|done].
          intros [= <-]. by eapply join_strs_error.
        - destruct (movie_get show "director") as [director|]; [|done].
          destruct (join_strs director) eqn:Hj; [|done].
          intros [= <-]. by eapply join_strs_error. }
      destruct (movie_get show "creator") as [creator|].
      { destruct (join_strs creator) eqn:Hj; [|done].
        intros [= <-]. by eapply join_strs_error. }
      destruct (movie_get show "director") as [director|]; [|done].
      destruct (join_strs director) eqn:Hj; [|done].
      intros [= <-]. by eapply join_strs_error.
  - intros Hr Hg Hc Hd. unfold extract_show_data, bind_exn.
    rewrite Hr, Hg, Hc, Hd. eexists. split; [reflexivity|]. repeat split.
  - intros people Hr Hg Hc. unfold extract_show_data, bind_exn.
    rewrite Hr, Hg, Hc. cbn [join_strs iterate bind_exn].
    eexists. split; [reflexivity|]. reflexivity.
Qed.

(** ** The input reader *)

Lemma string_forall_rev_app (p : ascii → bool) (a b : string) :
  PyStr.string_forall p (String.rev_app a b)
  = PyStr.string_forall p a && PyStr.string_forall p b.
Proof.
  induction a as [|c a IH] in b |- *; [done|].
  cbn [String.rev_app PyStr.string_forall]. rewrite IH. cbn [PyStr.string_forall].
  by destruct (p c), (PyStr.string_forall p a).
Qed.

Lemma rev_app_rev_app (s cur acc : string) :
  String.rev_app (String.rev_app s cur) acc = String.rev_app cur (s +:+ acc).
Proof.
  induction s as [|c s IH] in cur, acc |- *; [done|].
  cbn [String.rev_app]. rewrite IH. by rewrite append_cons.
Qed.

Lemma rev_rev_app (s : string) : String.rev (String.rev_app s EmptyString) = s.
Proof. unfold String.rev. rewrite rev_app_rev_app. cbn. apply append_empty_r. Qed.

Lemma lines_go_one_line (t cur rest : string) :
  one_line t = true →
  PyStr.lines_go cur (t +:+ rest) = PyStr.lines_go (String.rev_app t cur) rest.
Proof.
  unfold one_line. induction t as [|c t IH] in cur |- *; [done|].
  cbn [PyStr.string_forall]. intros [Hc Ht]%andb_prop.
  rewrite append_cons. cbn [PyStr.lines_go String.rev_app].
  apply negb_true_iff in Hc. rewrite Hc. by apply IH.
Qed.

Lemma lines_last (t : string) : one_line t = true → PyStr.lines t = [t].
Proof.
  intros Ht. unfold PyStr.lines. rewrite <- (append_empty_r t) at 1.
  rewrite lines_go_one_line by done. cbn. by rewrite rev_rev_app.
Qed.

Lemma lines_cons (t rest : string) :
  one_line t = true →
  PyStr.lines (t +:+ newline +:+ rest) = t :: PyStr.lines rest.
Proof.
  intros Ht. unfold PyStr.lines. rewrite lines_go_one_line by done.
  unfold newline. rewrite append_cons, append_nil. cbn [PyStr.lines_go].
  cbn. by rewrite rev_rev_app.
Qed.

(** Every piece [lines] cuts has no line end in it. *)
Lemma lines_go_pieces (cur s : string) :
  one_line cur = true → Forall (fun t => one_line t = true) (PyStr.lines_go cur s).
Proof.
  unfold one_line. induction s as [|c s IH] in cur |- *; intros Hcur.
  - cbn. constructor; [|done]. unfold String.rev. rewrite string_forall_rev_app.
    by rewrite Hcur.
  - cbn [PyStr.lines_go].
    destruct (Ascii.eqb c "010" || Ascii.eqb c "013") eqn:Hc.
    + constructor; [|by apply IH]. unfold String.rev.
      rewrite string_forall_rev_app. by rewrite Hcur.
    + apply IH. cbn [PyStr.string_forall]. by rewrite Hc, Hcur.
Qed.

Lemma string_forall_lstrip (p : ascii → bool) (s : string) :
  PyStr.string_forall p s = true → PyStr.string_forall p (PyStr.lstrip s) = true.
Proof.
  induction s as [|c s IH]; [done|]. cbn [PyStr.lstrip].
  destruct (PyStr.is_space c); [|done].
  cbn [PyStr.string_forall]. intros [_ Hs]%andb_prop. by apply IH.
Qed.

Lemma string_forall_rstrip (p : ascii → bool) (s : string) :
  PyStr.string_forall p s = true → PyStr.string_forall p (PyStr.rstrip s) = true.
Proof.
  induction s as [|c s IH]; [done|]. cbn [PyStr.string_forall PyStr.rstrip].
  intros [Hc Hs]%andb_prop. specialize (IH Hs).
  destruct (PyStr.rstrip s).
  - destruct (PyStr.is_space c); [done|]. cbn. by rewrite Hc.
  - cbn [PyStr.string_forall] in *. by rewrite Hc, IH.
Qed.

Lemma rstrip_idem (s : string) : PyStr.rstrip (PyStr.rstrip s) = PyStr.rstrip s.
Proof.
  induction s as [|c s IH]; [done|]. cbn [PyStr.rstrip].
  destruct (PyStr.rstrip s) as [|c' r] eqn:Hr.
  - destruct (PyStr.is_space c) eqn:Hc; [done|]. cbn. by rewrite Hc.
  - cbn [PyStr.rstrip]. cbn [PyStr.rstrip] in IH. by rewrite IH.
Qed.

Lemma lstrip_starts_clean (s : string) : starts_clean (PyStr.lstrip s).
Proof.
  induction s as [|c s IH]; [done|]. cbn [PyStr.lstrip].
  destruct (PyStr.is_space c) eqn:Hc; [done|]. done.
Qed.

Lemma rstrip_starts_clean (s : string) : starts_clean s → starts_clean (PyStr.rstrip s).
Proof.
  destruct s as [|c s]; [done|]. cbn [starts_clean PyStr.rstrip]. intros Hc.
  destruct (PyStr.rstrip s); [by rewrite Hc|done].
Qed.

Lemma lstrip_clean (s : string) : starts_clean s → PyStr.lstrip s = s.
Proof. destruct s as [|c s]; [done|]. cbn. by intros ->. Qed.

(** [strip] is idempotent. *)
Lemma strip_idem (s : string) : PyStr.strip (PyStr.strip s) = PyStr.strip s.
Proof.
  unfold PyStr.strip.
  rewrite (lstrip_clean (PyStr.rstrip (PyStr.lstrip s)))
    by apply rstrip_starts_clean, lstrip_starts_clean.
  apply rstrip_idem.
Qed.

(** The titles read from the input are never empty, carry no white space
    at either end and no line end inside: blank lines and lines of white
    space yield no title. *)
Theorem read_titles_are_clean (text : string) :
  Forall (fun title => title ≠ EmptyString ∧ PyStr.strip title = title
                       ∧ one_line title = true)
    (read_titles text).
Proof.
  unfold read_titles. apply Forall_forall. intros title [Hne Hin]%list_elem_of_filter.
  apply list_elem_of_fmap in Hin as (line & -> & Hline).
  split; [done|]. split; [apply strip_idem|].
  pose proof (lines_go_pieces EmptyString text eq_refl) as Hall.
  eapply Forall_forall in Hall; [|exact Hline].
  unfold one_line, PyStr.strip in *.
  by apply string_forall_rstrip, string_forall_lstrip.
Qed.

(** Reading back a list of titles written one per line gives the list
    again, in order and with repetitions, whether or not the last line is
    ended: as long as each title is one line, not empty and without white
    space at its ends. *)
Theorem read_titles_of_written_lines (titles : list string) :
  Forall (fun title => title ≠ EmptyString ∧ PyStr.strip title = title
                       ∧ one_line title = true) titles →
  read_titles (PyStr.join newline titles) = titles
  ∧ read_titles (PyStr.join newline titles +:+ newline) = titles.
Proof.
  unfold read_titles.
  assert (Hkeep : ∀ ts : list string,
    Forall (fun title => title ≠ EmptyString ∧ PyStr.strip title = title
                         ∧ one_line title = true) ts →
    filter (fun line => line ≠ EmptyString) (PyStr.strip <$> ts) = ts).
  { induction 1 as [|t ts (Hne & Hs & _) _ IH]; [done|].
    cbn [fmap list_fmap]. rewrite Hs. rewrite filter_cons_True by done.
    f_equal. exact IH. }
  intros Hall. destruct titles as [|t ts]; [by split|].
  assert (Hlines : PyStr.lines (PyStr.join newline (t :: ts)) = t :: ts
                   ∧ PyStr.lines (PyStr.join newline (t :: ts) +:+ newline)
                     = (t :: ts) ++ [EmptyString]).
  { induction ts as [|t' ts IH] in t, Hall |- *.
    - apply Forall_cons in Hall as [(_ & _ & Ht) _]. cbn [PyStr.join]. split.
      + by apply lines_last.
      + replace (t +:+ newline) with (t +:+ newline +:+ EmptyString)
          by (f_equal; apply append_empty_r).
        by rewrite lines_cons.
    - apply Forall_cons in Hall as [(_ & _ & Ht) Hall].
      destruct (IH t' Hall) as [IH1 IH2].
      change (PyStr.join newline (t :: t' :: ts))
        with (t +:+ newline +:+ PyStr.join newline (t' :: ts)).
      split.
      + by rewrite lines_cons, IH1.
      + replace ((t +:+ newline +:+ PyStr.join newline (t' :: ts)) +:+ newline)
          with (t +:+ newline +:+ (PyStr.join newline (t' :: ts) +:+ newline)).
        * by rewrite lines_cons, IH2.
        * clear. induction t as [|c t IHt]; [done|]. by rewrite !append_cons, IHt. }
  destruct Hlines as [-> ->]. split; [by apply Hkeep|].
  rewrite fmap_app, filter_app. rewrite Hkeep by done.
  cbn. by rewrite app_nil_r.
Qed.

(** ** The startup and the run as a whole *)

Lemma lower_char_y (c : ascii) :
  PyStr.lower_char c = "y"%char ↔ c = "y"%char ∨ c = "Y"%char.
Proof.
  destruct c as [[] [] [] [] [] [] [] []]; vm_compute;
    (split; [intros [=]; auto | intros [[=]|[=]]; reflexivity]).
Qed.

Lemma says_yes_iff (response : string) :
  says_yes response = true
  ↔ PyStr.strip response = "y" ∨ PyStr.strip response = "Y".
Proof.
  unfold says_yes. rewrite String.eqb_eq.
  destruct (PyStr.strip response) as [|c [|c' s]]; cbn [PyStr.lower].
  - split; [done|]. by intros [|].
  - split.
    + intros [= Hc]. apply lower_char_y in Hc as [->| ->]; auto.
    + intros [[= ->]|[= ->]]; reflexivity.
  - split; [done|]. by intros [|].
Qed.

Lemma resume_offer_cases output_file fs :
  match resume_offer output_file fs with
  | Some next =>
      ∃ M, next = M + 1 ∧ read_marker output_file fs = Some M ∧ M ≠ 0
           ∧ is_Some (fs !! get_temp_csv output_file)
  | None =>
      read_marker output_file fs = None
      ∨ read_marker output_file fs = Some 0
      ∨ fs !! get_temp_csv output_file = None
  end.
Proof.
  unfold resume_offer. destruct (read_marker output_file fs) as [M|]; [|by left].
  destruct (Z.eqb_spec M 0) as [->|Hnz]; cbn [negb andb]; [by right; left|].
  case_bool_decide as Htemp.
  - by exists M.
  - right; right. by apply eq_None_not_Some.
Qed.

(** When the startup asks whether to resume, the answer counts as a yes
    exactly when, once stripped, it is the single letter [y] or [Y]: the
    run then starts at the position offered and no file changes.  After
    every other answer, the empty one and [yes] among them, the run starts
    from the beginning: at position 1, with the marker removed and the
    provisional store replaced by a fresh one. *)
Theorem resume_answer_is_one_letter output_file response st next :
  resume_offer output_file (files st) = Some next →
  (PyStr.strip response = "y" ∨ PyStr.strip response = "Y" →
     check_resume output_file response st
     = (inr next, mkState (world st) (files st) (trace st ++ [EvInput next])))
  ∧ (¬ (PyStr.strip response = "y" ∨ PyStr.strip response = "Y") →
       check_resume output_file response st
       = (inr 1,
          mkState (world st)
            (<[get_temp_csv output_file := fresh_store]>
               (delete (get_progress_file output_file)
                  (delete (get_temp_csv output_file) (files st))))
            (trace st ++ [EvInput next]))).
Proof.
  intros Hoffer. pose proof (resume_offer_cases output_file (files st)) as Hcases.
  rewrite Hoffer in Hcases. destruct Hcases as (M & -> & HM & Hnz & Htemp).
  split; intros Hanswer.
  - apply check_resume_resume; [done..|]. by apply says_yes_iff.
  - apply check_resume_restart; [done..|].
    destruct (says_yes response) eqn:Hyes; [|done].
    by apply says_yes_iff in Hyes.
Qed.

(** The operator is asked whether to resume exactly when a marker other
    than 0 and the provisional store both exist, and is then offered the
    position after the marker.  In every other state the run starts at
    position 1 without asking: the store is overwritten by a fresh one,
    rows of an earlier run included, and a marker file left without its
    store stays as it is. *)
Theorem startup_asks_only_with_marker_and_store output_file response st :
  let r := check_resume output_file response st in
  match resume_offer output_file (files st) with
  | Some next =>
      trace r.2 = trace st ++ [EvInput next]
      ∧ r.1 = inr (if says_yes response then next else 1)
  | None =>
      r = (inr 1,
           mkState (world st)
             (<[get_temp_csv output_file := fresh_store]> (files st)) (trace st))
  end.
Proof.
  cbn zeta. pose proof (resume_offer_cases output_file (files st)) as Hoffer.
  destruct (resume_offer output_file (files st)) as [next|].
  - destruct Hoffer as (M & -> & HM & Hnz & Htemp).
    destruct (says_yes response) eqn:Hyes.
    + by rewrite (check_resume_resume _ _ _ M).
    + by rewrite (check_resume_restart _ _ _ M).
  - by apply check_resume_fresh.
Qed.

Lemma startup_trace output_file response st :
  trace (check_resume output_file response st).2
  = trace st ++ match resume_offer output_file (files st) with
                | Some next => [EvInput next]
                | None => []
                end.
Proof.
  pose proof (resume_offer_cases output_file (files st)) as Hoffer.
  destruct (resume_offer output_file (files st)) as [next|].
  - destruct Hoffer as (M & -> & HM & Hnz & Htemp).
    destruct (says_yes response) eqn:Hyes.
    + by rewrite (check_resume_resume _ _ _ M).
    + by rewrite (check_resume_restart _ _ _ M).
  - rewrite check_resume_fresh by done. cbn. by rewrite app_nil_r.
Qed.

Lemma check_resume_other output_file response st q :
  q ≠ get_progress_file output_file → q ≠ get_temp_csv output_file →
  files (check_resume output_file response st).2 !! q = files st !! q.
Proof.
  intros Hp Ht.
  destruct (check_resume_cases output_file response st)
    as [(M & _ & _ & _ & _ & ->)|[(M & _ & _ & _ & _ & ->)|[_ ->]]]; cbn [snd files].
  - done.
  - by rewrite lookup_insert_ne, !lookup_delete_ne.
  - by rewrite lookup_insert_ne.
Qed.

Lemma process_titles_final (tv_shows : list string) output_file delay response st :
  ∃ l st' rows,
    process_titles tv_shows output_file delay response st = (inr l, st')
    ∧ files st' !! output_file = Some (final_output rows)
    ∧ results l = rows
    ∧ files st' !! get_temp_csv output_file = None
    ∧ files st' !! get_progress_file output_file = None
    ∧ ∀ q, q ∉ artifacts output_file → files st' !! q = files st !! q.
Proof.
  destruct (process_titles_spec tv_shows output_file delay response st)
    as (start_position & st1 & os & w' & evs & Hstart & _ & _ & _ & _ & Hrun).
  pose proof (final_files_lookup output_file (record_all output_file os (files st1))
                (final_output (extracted_rows os))) as (Hout & Htemp & Hprog & Hother).
  eexists _, _, (extracted_rows os). split; [exact Hrun|]. cbn [files].
  split; [done|]. split; [done|]. split; [done|]. split; [done|].
  intros q Hq. unfold artifacts in Hq.
  rewrite !not_elem_of_cons in Hq. destruct Hq as (Ho & Hp & Ht & Hf & Hl & _).
  rewrite Hother by done. rewrite record_all_other by done.
  replace st1 with (check_resume output_file response st).2 by by rewrite Hstart.
  by apply check_resume_other.
Qed.

(** A run changes nothing but its five files: every other path, the input
    file among them when it is not one of the five, holds after the run
    what it held before. *)
Theorem run_touches_only_its_artifacts input_file output_file delay response st q :
  q ∉ artifacts output_file →
  files (process_tv_list input_file output_file delay response st).2 !! q
  = files st !! q.
Proof.
  intros Hq. unfold process_tv_list, bind, get_files. cbn [fst snd].
  destruct (files st !! input_file) as [f|]; [|done].
  destruct (process_titles_final (read_titles (file_text f)) output_file delay response st)
    as (l & st' & rows & -> & _ & _ & _ & _ & Hother).
  by apply Hother.
Qed.

(** A completed run leaves no checkpoint: the marker and the provisional
    store are gone and the output file holds the header and the rows of
    the results.  The next run for the same output therefore asks nothing
    and starts at position 1, whatever the answer prepared for it. *)
Theorem completed_run_leaves_nothing_to_resume (tv_shows : list string) output_file delay
    response st :
  let r := process_titles tv_shows output_file delay response st in
  (∃ l, r.1 = inr l ∧ files r.2 !! output_file = Some (final_output (results l)))
  ∧ files r.2 !! get_progress_file output_file = None
  ∧ files r.2 !! get_temp_csv output_file = None
  ∧ ∀ response',
      check_resume output_file response' r.2
      = (inr 1, mkState (world r.2)
                  (<[get_temp_csv output_file := fresh_store]> (files r.2)) (trace r.2)).
Proof.
  cbn zeta.
  destruct (process_titles_final tv_shows output_file delay response st)
    as (l & st' & rows & -> & Hout & <- & Htemp & Hprog & _).
  cbn [fst snd]. split; [by exists l|]. split; [done|]. split; [done|].
  intros response'. apply check_resume_fresh. by right; right.
Qed.

Lemma lines_go_blank (cur s : string) :
  blank cur = true → blank s = true →
  Forall (fun line => blank line = true) (PyStr.lines_go cur s).
Proof.
  unfold blank. induction s as [|c s IH] in cur |- *; intros Hcur Hs.
  - cbn. constructor; [|done]. unfold String.rev.
    by rewrite string_forall_rev_app, Hcur.
  - cbn [PyStr.string_forall] in Hs. apply andb_prop in Hs as [Hc Hs].
    cbn [PyStr.lines_go]. destruct (Ascii.eqb c "010" || Ascii.eqb c "013").
    + constructor; [|by apply IH]. unfold String.rev.
      by rewrite string_forall_rev_app, Hcur.
    + apply IH; [|done]. cbn [PyStr.string_forall]. by rewrite Hc, Hcur.
Qed.

Lemma strip_all_blank (s : string) : blank s = true → PyStr.strip s = EmptyString.
Proof.
  intros Hs. unfold PyStr.strip. apply rstrip_all_blank.
  unfold blank in *. by apply string_forall_lstrip.
Qed.

Lemma read_titles_blank (text : string) : blank text = true → read_titles text = [].
Proof.
  intros Hb. unfold read_titles, PyStr.lines.
  pose proof (lines_go_blank EmptyString text eq_refl Hb) as Hall.
  induction Hall as [|line ls Hline _ IH]; [done|].
  cbn [fmap list_fmap]. rewrite (strip_all_blank line Hline).
  by rewrite filter_cons_False by (by intros []).
Qed.

(** An input file with nothing but white space in it, the empty file
    included, names no title: the run makes no call to the provider,
    counts nothing, and still writes an output file, which holds the
    header row alone. *)
Theorem blank_input_gives_header_only input_file output_file delay response st f :
  files st !! input_file = Some f → blank (file_text f) = true →
  ∃ st',
    process_tv_list input_file output_file delay response st
    = (inr (mkLocals [] 0 0), st')
    ∧ files st' !! output_file = Some [header_row]
    ∧ world st' = world st
    ∧ trace st' = trace st ++ match resume_offer output_file (files st) with
                              | Some next => [EvInput next]
                              | None => []
                              end.
Proof.
  intros Hf Hb. unfold process_tv_list, bind, get_files. cbn [fst snd]. rewrite Hf.
  rewrite (read_titles_blank _ Hb).
  destruct (process_titles_spec [] output_file delay response st)
    as (start_position & st1 & os & w' & evs & Hstart & Hw & Hitems & _ & Hfor & Hrun).
  cbn in Hitems. apply fmap_nil_inv in Hitems as ->.
  cbn in Hfor. injection Hfor as Hst1.
  pose proof (f_equal world Hst1) as Hw'. pose proof (f_equal trace Hst1) as Hevs.
  cbn [world trace] in Hw', Hevs.
  rewrite <- (app_nil_r (trace st1)) in Hevs at 1. apply app_inv_head in Hevs as <-.
  eexists. split; [exact Hrun|]. cbn [files world trace].
  pose proof (final_files_lookup output_file (record_all output_file [] (files st1))
                (final_output (extracted_rows []))) as (Hout & _).
  split; [exact Hout|]. split; [congruence|]. rewrite app_nil_r.
  pose proof (startup_trace output_file response st) as Htr.
  rewrite Hstart in Htr. exact Htr.
Qed.

Lemma after_positions_marker_file output_file delay start_position
    (tv_shows : list string) (n : nat) st :
  (n ≤ length tv_shows)%nat →
  files (after_positions output_file delay start_position tv_shows n st).2
    !! get_progress_file output_file =
  if (start_position <=? 10 * (Z.of_nat n / 10)) && (1 <=? 10 * (Z.of_nat n / 10))
  then Some [Text (PyInt.str (10 * (Z.of_nat n / 10)))]
  else files st !! get_progress_file output_file.
Proof.
  induction n as [|n IH]; intros Hn.
  - unfold after_positions. cbn. by rewrite andb_false_r.
  - destruct (lookup_lt_is_Some_2 tv_shows n) as [title Ht]; [lia|].
    rewrite (after_positions_S _ _ _ _ _ title) by done.
    specialize (IH ltac:(lia)).
    destruct (after_positions output_file delay start_position tv_shows n st) as [l' st'].
    cbn [snd] in IH. rewrite process_position_progress, IH. clear IH.
    destruct (Z.eqb_spec (Z.of_nat (S n) mod 10) 0) as [Hmod|Hmod].
    + assert (HP : 10 * (Z.of_nat (S n) / 10) = Z.of_nat (S n)).
      { pose proof (Z.div_mod (Z.of_nat (S n)) 10 ltac:(lia)). lia. }
      rewrite HP, andb_true_r.
      assert (Hlow : 10 * (Z.of_nat n / 10) < Z.of_nat (S n)).
      { pose proof (Z.mul_div_le (Z.of_nat n) 10 ltac:(lia)). lia. }
      destruct (Z.leb_spec start_position (Z.of_nat (S n))) as [Hge|Hlt].
      * by rewrite (proj2 (Z.leb_le 1 _)) by lia.
      * by rewrite (proj2 (Z.leb_gt start_position (10 * (Z.of_nat n / 10)))) by lia.
    + rewrite andb_false_r.
      assert (HP : Z.of_nat (S n) / 10 = Z.of_nat n / 10).
      { clear -Hmod. rewrite Nat2Z.inj_succ in *. Z.div_mod_to_equations. lia. }
      by rewrite HP.
Qed.

(** Within a run the marker is the last multiple of ten among the
    positions gone through: once the first [n] positions are behind, it
    reads [10 * (n / 10)] when the run has processed that position, and
    what it read before the loop otherwise.  An interruption thus never
    costs more than the nine positions after the marker. *)
Theorem marker_is_last_multiple_of_ten output_file delay start_position
    (tv_shows : list string) (n : nat) st :
  (n ≤ length tv_shows)%nat →
  let last := 10 * (Z.of_nat n / 10) in
  read_marker output_file
    (files (after_positions output_file delay start_position tv_shows n st).2)
  = if (start_position <=? last) && (1 <=? last)
    then Some last
    else read_marker output_file (files st).
Proof.
  intros Hn. cbn zeta.
  pose proof (after_positions_marker_file output_file delay start_position tv_shows n st Hn)
    as Hfile.
  destruct ((start_position <=? 10 * (Z.of_nat n / 10)) && (1 <=? 10 * (Z.of_nat n / 10))).
  - by apply read_marker_written.
  - by apply read_marker_same.
Qed.

(** ** The command line *)

Context `{fl : PyFloat}.

Lemma prefix_split (p s : string) :
  String.prefix p s = true → ∃ rest, s = p +:+ rest.
Proof.
  induction p as [|c p IH] in s |- *; intros Hp.
  - by exists s.
  - destruct s as [|c' s]; [done|]. cbn [String.prefix] in Hp.
    destruct (ascii_dec c c') as [<-|]; [|done].
    destruct (IH s Hp) as [rest ->]. exists rest. by rewrite append_cons.
Qed.

Lemma split_eq_go_cons (cur s : string) : ∃ v vs, split_eq_go cur s = v :: vs.
Proof.
  induction s as [|c s IH] in cur |- *; cbn [split_eq_go]; [by eauto|].
  destruct (Ascii.eqb c "="); [by eauto|]. apply IH.
Qed.

(** An argument that starts with [--delay=] has a piece after its first
    equal sign, and starts with [--]. *)
Lemma delay_arg_shape (arg : string) :
  PyStr.startswith "--delay=" arg = true →
  PyStr.startswith "--" arg = true
  ∧ split_eq arg !! 1%nat = Some (delay_text arg).
Proof.
  intros [rest ->]%prefix_split. rewrite !append_cons, append_nil. split; [done|].
  unfold delay_text, split_eq. cbn.
  by destruct (split_eq_go_cons EmptyString rest) as (v & vs & ->).
Qed.

Lemma last_cons_default {A} (x d : A) (l : list A) :
  default d (last (x :: l)) = default x (last l).
Proof. rewrite last_cons. by destruct (last l). Qed.

(** What the arguments after the input file select.  The output file is
    the last argument that does not start with [--], or the default when
    there is none; the delay is the value of the last [--delay=] argument,
    or the default when there is none; every other [--] option is ignored.
    The program exits as soon as one [--delay=] value is no number,
    wherever it stands among the arguments. *)
Theorem parse_args_selects_the_last (args : list string) (output_file : string)
    (delay : Q) :
  parse_args args output_file delay =
  match mapM (fun arg => py_float (delay_text arg)) (delay_args args) with
  | Some delays =>
      Some (default output_file (last (output_args args)), default delay (last delays))
  | None => None
  end.
Proof.
  unfold output_args, delay_args.
  induction args as [|arg args IH] in output_file, delay |- *; [done|].
  cbn [parse_args]. destruct (PyStr.startswith "--delay=" arg) eqn:Hd.
  - destruct (delay_arg_shape arg Hd) as [Hdash ->].
    rewrite filter_cons_True by done.
    rewrite (filter_cons_False _ arg) by (by rewrite Hdash).
    cbn [mapM]. destruct (py_float (delay_text arg)) as [q|]; [|done].
    rewrite IH. cbn [mbind option_bind].
    destruct (mapM _ _) as [delays|]; [|done].
    cbn [mbind option_bind mret option_ret]. by rewrite last_cons_default.
  - rewrite (filter_cons_False _ arg) by (by rewrite Hd).
    destruct (PyStr.startswith "--" arg) eqn:Hdash; cbn [negb].
    + rewrite (filter_cons_False _ arg) by (by rewrite Hdash). apply IH.
    + rewrite (filter_cons_True _ arg) by (by rewrite Hdash).
      rewrite IH. destruct (mapM _ _) as [delays|]; [|done].
      by rewrite last_cons_default.
Qed.

(** The exit status of the program.  Without an input argument, with a
    [--delay=] value that is no number, or with an input file that does
    not exist, the program exits with status 1 and has touched nothing: no
    file is created, nothing is asked, the provider is not called.  And
    whenever the program ends with status 0, it was given an input file
    that exists and arguments that parse, the output file these select
    holds a header row and result rows, and no checkpoint is left. *)
Theorem main_exit_status (argv : list string) (response : string) st :
  (match argv with
   | _ :: input_file :: args =>
       parse_args args "tv_shows_imdb.csv" 0%Q = None ∨ files st !! input_file = None →
       main argv response st = (1, st)
   | _ => main argv response st = (1, st)
   end)
  ∧ ((main argv response st).1 = 0 →
     ∃ input_file output_file delay rows,
       argv !! 1%nat = Some input_file
       ∧ is_Some (files st !! input_file)
       ∧ parse_args (drop 2 argv) "tv_shows_imdb.csv" 0%Q = Some (output_file, delay)
       ∧ files (main argv response st).2 !! output_file = Some (final_output rows)
       ∧ files (main argv response st).2 !! get_temp_csv output_file = None
       ∧ files (main argv response st).2 !! get_progress_file output_file = None).
Proof.
  destruct argv as [|prog [|input_file args]];
    [split; [reflexivity|intros H; cbn in H; discriminate]..|].
  unfold main. cbn [lookup list_lookup drop]. rewrite drop_0.
  destruct (parse_args args "tv_shows_imdb.csv" 0%Q) as [[output_file delay]|];
    [|split; [reflexivity|intros H; cbn in H; discriminate]].
  destruct (files st !! input_file) as [f|] eqn:Hf.
  - destruct (process_titles_final (read_titles (file_text f)) output_file delay
                response st) as (l & st' & rows & Hrun & Hout & _ & Htemp & Hprog & _).
    assert (Hp : process_tv_list input_file output_file delay response st = (inr l, st')).
    { unfold process_tv_list, bind, get_files. cbn [fst snd]. by rewrite Hf. }
    rewrite (bind_run _ _ _ _ _ Hp). cbn [ret fst snd].
    split; [by intros [|]|]. intros _.
    exists input_file, output_file, delay, rows. repeat split; eauto.
  - assert (Hp : process_tv_list input_file output_file delay response st
                 = (inl (FileNotFoundError input_file), st)).
    { unfold process_tv_list, bind, get_files. cbn [fst snd]. by rewrite Hf. }
    rewrite (bind_run _ _ _ _ _ Hp). cbn [ret fst snd].
    split; [done|]. intros [=].
Qed.

(** ** C1: resuming *)

(** A lookup with the three attempts the loop allows: between one and
    three searches of the title, and pauses of 2 and 4 seconds only. *)
Lemma lookup_searches title (w : World) :
  ∃ r w' evs (k : nat),
    (1 ≤ k ≤ 3)%nat
    ∧ (∀ fs tr, search_tv_show title 3 (mkState w fs tr) = (r, mkState w' fs (tr ++ evs)))
    ∧ searches evs = replicate k title
    ∧ Forall (fun secs => secs = 2%Q ∨ secs = 4%Q) (sleeps evs).
Proof.
  destruct (search_attempts_shape title 3 3 0 w) as (r & w' & evs & k & Hk & Hrun & Hse & Hsl & _);
    [lia..|].
  exists r, w', evs, (Z.to_nat k). split; [lia|]. split; [exact Hrun|]. split; [exact Hse|].
  rewrite Hsl.
  assert (k = 1 ∨ k = 2 ∨ k = 3) as [->|[->| ->]] by lia; vm_compute;
    repeat (constructor; [by auto|]); constructor.
Qed.

Lemma searches_delay delay position count :
  searches (Movie := Movie) (delay_events delay position count) = [].
Proof. unfold delay_events. by destruct (negb (Qle_bool delay 0) && (position <? count)). Qed.

(** The loop over items none of which is skipped: one outcome per item,
    in order, and the searches of the run are those of the items' titles,
    in order, one to three for each. *)
Lemma for_each_lookups output_file delay start_position count (items : list (Z * string))
    (w : World) :
  Forall (fun item => start_position ≤ item.1) items →
  ∃ os w' evs (ks : list nat),
    outcome_item <$> os = items
    ∧ Forall sound_outcome os
    ∧ length ks = length items
    ∧ Forall (fun k => 1 ≤ k ≤ 3)%nat ks
    ∧ searches evs = concat (zip_with (fun k item => replicate k item.2) ks items)
    ∧ (Qle_bool delay 0 = true →
       Forall (fun secs => secs = 2%Q ∨ secs = 4%Q) (sleeps evs))
    ∧ ∀ l fs tr,
        for_each (process_position output_file delay start_position count) items l
          (mkState w fs tr) =
        (tally_all os l, mkState w' (record_all output_file os fs) (tr ++ evs)).
Proof.
  induction items as [|[p t] items IH] in w |- *; intros Hall.
  - exists [], w, [], []. repeat split; try done.
    intros [rs fc sc] fs tr. cbn. unfold tally_all. cbn.
    by rewrite !app_nil_r, !Z.add_0_r.
  - apply Forall_cons in Hall as [Hge Hall]. cbn [fst] in Hge.
    destruct (process_position_spec output_file delay start_position count p t w Hge)
      as (show & error & w1 & e1 & Hs1 & Hstep).
    destruct (lookup_searches t w) as (r & w1' & e1' & k & Hk & Hrun & Hse & Hsl).
    specialize (Hs1 ∅ []). rewrite (Hrun ∅ []) in Hs1.
    injection Hs1 as -> -> ->.
    destruct (IH w1 Hall)
      as (os & w' & evs & ks & Hitems & Hsound & Hlen & Hks & Hsearches & Hpauses & Hloop).
    exists ((p, t, outcome_of w1 p show error) :: os), w',
      ((e1 ++ delay_events delay p count) ++ evs), (k :: ks).
    split; [cbn; by rewrite Hitems|].
    split; [constructor; [apply outcome_of_sound | done]|].
    split; [cbn; by rewrite Hlen|].
    split; [by constructor|].
    split; [|split].
    + rewrite !searches_app, searches_delay, app_nil_r. cbn [zip_with concat snd].
      by rewrite Hsearches, Hse.
    + intros Hd. rewrite !sleeps_app. unfold delay_events. rewrite Hd. cbn [negb andb].
      cbn [sleeps omap]. rewrite app_nil_r. apply Forall_app. split; [done|by apply Hpauses].
    + intros l fs tr. cbn [for_each]. unfold bind. rewrite Hstep, Hloop, tally_all_cons.
      by rewrite <- !app_assoc.
Qed.

(** C1.  When the run is resumed at marker [M] (the marker reads [M], the
    provisional store exists and the operator says yes), the startup
    protocol chooses [M + 1] and changes no file; a pass of the loop for a
    position [<= M] changes nothing at all (no lookup in the trace, no
    record in a file or in memory); and the run is the run of the loop
    over the positions after [M] alone, which for [M >= 0] are the titles
    after the first [M], numbered from [M + 1].  Each of these positions
    is looked up and yields one outcome: the searches of the run are
    those of the titles after position [M], in their order, one to three
    searches for each, so that the first search is that of the title at
    position [M + 1]; the outcomes recorded are those of these positions. *)
Theorem resume_skips_processed_positions (tv_shows : list string) output_file delay
    response st (M : Z) :
  read_marker output_file (files st) = Some M →
  M ≠ 0 →
  is_Some (files st !! get_temp_csv output_file) →
  says_yes response = true →
  let count := Z.of_nat (length tv_shows) in
  let body := process_position output_file delay (M + 1) count in
  let st1 := mkState (world st) (files st) (trace st ++ [EvInput (M + 1)]) in
  let remaining := to_process (M + 1) (enumerate 1 tv_shows) in
  check_resume output_file response st = (inr (M + 1), st1)
  ∧ (∀ position title l s, position ≤ M → body (position, title) l s = (l, s))
  ∧ Forall (fun item => M < item.1) remaining
  ∧ (0 ≤ M → remaining = enumerate (M + 1) (drop (Z.to_nat M) tv_shows))
  ∧ process_titles tv_shows output_file delay response st =
      (l <- for_each body remaining (mkLocals [] 0 0);; finalize output_file l) st1
  ∧ ∃ os w' evs (ks : list nat),
      outcome_item <$> os = remaining
      ∧ length ks = length remaining
      ∧ Forall (fun k => 1 ≤ k ≤ 3)%nat ks
      ∧ searches evs = concat (zip_with (fun k item => replicate k item.2) ks remaining)
      ∧ (∀ title, 0 ≤ M → tv_shows !! Z.to_nat M = Some title →
                  ∃ rest, searches evs = title :: rest)
      ∧ for_each body (enumerate 1 tv_shows) (mkLocals [] 0 0) st1 =
          (tally_all os (mkLocals [] 0 0),
           mkState w' (record_all output_file os (files st)) (trace st1 ++ evs))
      ∧ process_titles tv_shows output_file delay response st =
          (inr (tally_all os (mkLocals [] 0 0)),
           mkState w'
             (delete (get_progress_file output_file)
                (delete (get_temp_csv output_file)
                   (<[output_file := final_output (extracted_rows os)]>
                      (record_all output_file os (files st)))))
             (trace st1 ++ evs)).
Proof.
  intros HM Hnz Htemp Hyes count body st1 remaining.
  pose proof (check_resume_resume _ _ _ _ HM Hnz Htemp Hyes) as Hstart.
  assert (Hdrop : 0 ≤ M → remaining = enumerate (M + 1) (drop (Z.to_nat M) tv_shows)).
  { intros HM0. unfold remaining. rewrite to_process_drop by lia. do 2 f_equal. lia. }
  split; [exact Hstart|]. split; [|split; [|split; [|split]]].
  - intros position title l s Hle. apply process_position_skip. lia.
  - eapply Forall_impl; [apply to_process_positions|]. cbn. intros; lia.
  - exact Hdrop.
  - unfold process_titles. rewrite (bind_run _ _ _ _ _ Hstart).
    unfold bind. fold count. fold body.
    by rewrite (for_each_to_process output_file delay (M + 1) count).
  - destruct (for_each_lookups output_file delay (M + 1) count remaining (world st))
      as (os & w' & evs & ks & Hitems & Hsound & Hlen & Hks & Hsearches & _ & Hloop).
    { apply to_process_positions. }
    assert (Hrun : ∀ l fs tr,
      for_each body (enumerate 1 tv_shows) l (mkState (world st1) fs tr) =
      (tally_all os l, mkState w' (record_all output_file os fs) (tr ++ evs))).
    { intros l fs tr. unfold body.
      rewrite (for_each_to_process output_file delay (M + 1) count). apply Hloop. }
    exists os, w', evs, ks. split; [exact Hitems|]. split; [exact Hlen|].
    split; [exact Hks|]. split; [exact Hsearches|]. split; [|split].
    + intros title HM0 Ht. rewrite Hsearches, (Hdrop HM0).
      rewrite (Hdrop HM0) in Hlen.
      assert (Hd : drop (Z.to_nat M) tv_shows
                   = title :: drop (S (Z.to_nat M)) tv_shows)
        by (by apply drop_S).
      rewrite Hd in Hlen |- *. cbn [enumerate length] in Hlen |- *.
      destruct ks as [|k ks]; [done|]. apply Forall_cons in Hks as [Hk _].
      cbn [zip_with concat snd]. destruct k as [|k]; [lia|]. cbn. by eexists.
    + apply (Hrun (mkLocals [] 0 0) (files st) (trace st1)).
    + apply (process_titles_run tv_shows output_file delay response st (M + 1) st1
               os w' evs Hstart Hsound). exact Hrun.
Qed.

(** ** C2: the checkpoint *)

Lemma after_positions_min output_file delay start_position (tv_shows : list string)
    (n : nat) st :
  after_positions output_file delay start_position tv_shows n st
  = after_positions output_file delay start_position tv_shows (n `min` length tv_shows) st.
Proof.
  unfold after_positions. destruct (decide (n ≤ length tv_shows)%nat) as [Hle|Hgt].
  - by rewrite Nat.min_l.
  - rewrite Nat.min_r by lia. by rewrite !take_ge by (rewrite length_enumerate; lia).
Qed.

(** The marker after [n] positions, for any [n]. *)
Lemma marker_after output_file delay start_position (tv_shows : list string) (n : nat) st :
  read_marker output_file
    (files (after_positions output_file delay start_position tv_shows n st).2)
  = if (start_position <=? 10 * (Z.of_nat (n `min` length tv_shows) / 10))
       && (1 <=? 10 * (Z.of_nat (n `min` length tv_shows) / 10))
    then Some (10 * (Z.of_nat (n `min` length tv_shows) / 10))
    else read_marker output_file (files st).
Proof.
  rewrite after_positions_min.
  pose proof (after_positions_marker_file output_file delay start_position tv_shows
                (n `min` length tv_shows) st ltac:(lia)) as Hfile.
  destruct ((start_position <=? _) && (1 <=? _)).
  - by apply read_marker_written.
  - by apply read_marker_same.
Qed.

(** C2 (amended).  Right after a processed position [P] with
    [P mod 10 == 0] the marker file holds exactly [str(P)], and reading it
    back gives [P].  The marker does not decrease within the run when the
    marker found at the start of the loop, if there is one, is at most
    [max start_position 10]: this is so in every resumed run, where the
    marker is [start_position - 1], and in every run that finds no marker
    or one it reads as 0.  It is not so when a run that starts at position
    1 finds a marker file above 10 left without its store: the file is
    kept, and the first checkpoint lowers it to 10. *)
Theorem marker_checkpointed_and_monotone (tv_shows : list string) output_file delay
    start_position st :
  let after n := (after_positions output_file delay start_position tv_shows n st).2 in
  (∀ n : nat,
      (0 < n ≤ length tv_shows)%nat → start_position ≤ Z.of_nat n →
      Z.of_nat n mod 10 = 0 →
      files (after n) !! get_progress_file output_file
        = Some [Text (PyInt.str (Z.of_nat n))]
      ∧ read_marker output_file (files (after n)) = Some (Z.of_nat n))
  ∧ ((∀ found, read_marker output_file (files st) = Some found →
               found ≤ Z.max start_position 10) →
     ∀ (i j : nat) (a : Z),
        (i ≤ j)%nat →
        read_marker output_file (files (after i)) = Some a →
        ∃ b, read_marker output_file (files (after j)) = Some b ∧ a ≤ b).
Proof.
  intros after. split.
  - intros [|n] [Hpos Hlen] Hstart Hmod; [lia|].
    destruct (lookup_lt_is_Some_2 tv_shows n ltac:(lia)) as [title Ht].
    assert (Hfile : files (after (S n)) !! get_progress_file output_file
                    = Some [Text (PyInt.str (Z.of_nat (S n)))]).
    { unfold after. rewrite (after_positions_S _ _ _ _ _ _ _ Ht).
      destruct (after_positions _ _ _ _ n st) as [l' st'].
      rewrite process_position_progress.
      rewrite (proj2 (Z.leb_le _ _) Hstart), (proj2 (Z.eqb_eq _ _) Hmod). done. }
    split; [exact Hfile | by apply read_marker_written].
  - intros Hfound i j a Hij. unfold after. rewrite !marker_after.
    set (Pi := 10 * (Z.of_nat (i `min` length tv_shows) / 10)).
    set (Pj := 10 * (Z.of_nat (j `min` length tv_shows) / 10)).
    assert (HPij : Pi ≤ Pj).
    { unfold Pi, Pj. apply Z.mul_le_mono_nonneg_l; [lia|].
      apply Z.div_le_mono; lia. }
    assert (HPj : 1 ≤ Pj → 10 ≤ Pj).
    { unfold Pj. intros H1.
      assert (0 < Z.of_nat (j `min` length tv_shows) / 10) by lia. lia. }
    destruct (Z.leb_spec start_position Pi) as [Hsi|Hsi];
      destruct (Z.leb_spec 1 Pi) as [H1i|H1i]; cbn [andb]; intros Ha.
    1: { injection Ha as <-. exists Pj.
         rewrite (proj2 (Z.leb_le _ _)) by lia. rewrite (proj2 (Z.leb_le 1 _)) by lia.
         done. }
    all: specialize (Hfound a Ha);
      destruct (Z.leb_spec start_position Pj) as [Hsj|Hsj];
      destruct (Z.leb_spec 1 Pj) as [H1j|H1j]; cbn [andb];
      first [ by exists a | exists Pj; split; [done|]; specialize (HPj H1j); lia ].
Qed.

(** ** The delay option *)

Lemma process_position_no_delay output_file delay start_position count item l st :
  Qle_bool delay 0 = true →
  process_position output_file delay start_position count item l st
  = process_position output_file 0 start_position count item l st.
Proof. intros Hd. destruct item as [position title]. unfold process_position. by rewrite Hd. Qed.

Lemma for_each_no_delay output_file delay start_position count (items : list (Z * string))
    l st :
  Qle_bool delay 0 = true →
  for_each (process_position output_file delay start_position count) items l st
  = for_each (process_position output_file 0 start_position count) items l st.
Proof.
  intros Hd. induction items as [|item items IH] in l, st |- *; [done|].
  cbn [for_each]. unfold bind. rewrite process_position_no_delay by done.
  destruct (process_position _ _ _ _ _ _ _) as [l1 st1]. apply IH.
Qed.

(** A delay of zero or less is no delay: the run is then the run without
    the option, and it pauses only where a lookup backs off, for 2 or 4
    seconds. *)
Theorem nonpositive_delay_is_no_delay (tv_shows : list string) output_file delay
    response st :
  Qle_bool delay 0 = true →
  process_titles tv_shows output_file delay response st
  = process_titles tv_shows output_file 0 response st
  ∧ ∃ evs,
      trace (process_titles tv_shows output_file delay response st).2 = trace st ++ evs
      ∧ Forall (fun secs => secs = 2%Q ∨ secs = 4%Q) (sleeps evs).
Proof.
  intros Hd. split.
  - unfold process_titles, bind.
    destruct (check_resume output_file response st) as [[e|start_position] st1]; [done|].
    by rewrite for_each_no_delay.
  - assert (∃ start_position st1,
      check_resume output_file response st = (inr start_position, st1))
      as (start_position & st1 & Hstart).
    { destruct (check_resume_cases output_file response st)
        as [(M & _ & _ & _ & _ & ->)|[(M & _ & _ & _ & _ & ->)|[_ ->]]]; eauto. }
    pose proof (startup_trace output_file response st) as Htrace.
    rewrite Hstart in Htrace. cbn [snd] in Htrace.
    destruct (for_each_lookups output_file delay start_position (Z.of_nat (length tv_shows))
                (to_process start_position (enumerate 1 tv_shows)) (world st1))
      as (os & w' & evs & ks & _ & Hsound & _ & _ & _ & Hpauses & Hloop).
    { apply to_process_positions. }
    rewrite (process_titles_run tv_shows output_file delay response st start_position st1
               os w' evs Hstart Hsound).
    + cbn [snd trace]. rewrite Htrace, <- app_assoc. eexists. split; [done|].
      rewrite sleeps_app. apply Forall_app. split; [|by apply Hpauses].
      by destruct (resume_offer output_file (files st)).
    + intros l fs tr.
      rewrite (for_each_to_process output_file delay start_position). apply Hloop.
Qed.

End Facts.

(** ** The theorems at concrete inputs *)

Import Demo.

Example parse_examples :
  py_int " 1_0 " = inr 10 ∧ py_int "-007" = inr (-7)
  ∧ PyInt.literal "1__0" = None ∧ PyInt.literal EmptyString = None
  ∧ PyInt.literal "ten" = None.
Proof. repeat split. Qed.

Example str_examples : PyInt.str 120 = "120" ∧ PyInt.str 0 = "0" ∧ PyInt.str (-3) = "-3".
Proof. repeat split. Qed.

Example path_examples :
  get_progress_file "a.b/out.csv" = "a.b/out_progress.txt"
  ∧ get_temp_csv "out" = "out_temp.csv".
Proof. split; reflexivity. Qed.

(** The end-to-end scenario of the specification: "Show A" matches at once,
    "Show B" finds nothing, "Show C" is rate limited twice and then found.
    Two rows (positions 1 and 3), one failure (position 2), sleeps 2 and 4. *)
Example end_to_end_scenario :
  let run := process_tv_list "list.txt" "out.csv" 0 "y" (start abc_input abc_script) in
  ∃ l, run.1 = inr l
       ∧ row_position <$> results l = [Some 1; Some 3]
       ∧ (success_count l, failed_count l) = (2, 1)
       ∧ files run.2 !! "out_failed_list.txt" = Some [Text ("Show B" +:+ newline)]
       ∧ sleeps (trace run.2) = [2%Q; 4%Q]
       ∧ searches (trace run.2) = ["Show A"; "Show B"; "Show C"; "Show C"; "Show C"].
Proof.
  cbv zeta. eexists. split; [vm_compute; reflexivity|].
  vm_compute. repeat split.
Qed.

Lemma resume_witness :
  read_marker "out.csv" interrupted_fs = Some 10
  ∧ says_yes " Y " = true
  ∧ (check_resume "out.csv" " Y " (start interrupted_fs resumed_script)).1 = inr 11
  ∧ ∃ evs rest,
      trace (process_titles twelve_titles "out.csv" 0 " Y "
               (start interrupted_fs resumed_script)).2 = EvInput 11 :: evs
      ∧ searches evs = "T11" :: rest.
Proof.
  assert (H1 : read_marker "out.csv" (files (start interrupted_fs resumed_script)) = Some 10)
    by (vm_compute; reflexivity).
  assert (H2 : (10 : Z) ≠ 0) by lia.
  assert (H3 : is_Some (files (start interrupted_fs resumed_script) !! get_temp_csv "out.csv"))
    by (vm_compute; eauto).
  assert (H4 : says_yes " Y " = true) by reflexivity.
  split; [exact H1|]. split; [exact H4|].
  destruct (resume_skips_processed_positions twelve_titles "out.csv" 0%Q " Y " _ 10
              H1 H2 H3 H4)
    as (Hstart & _ & _ & _ & _ & os & w' & evs & ks & _ & _ & _ & _ & Hfirst & _ & Hrun).
  split; [rewrite Hstart; reflexivity|].
  destruct (Hfirst "T11" ltac:(lia) eq_refl) as [rest Hrest].
  exists evs, rest. split; [rewrite Hrun; reflexivity | exact Hrest].
Defined.

(** A run that starts at position 1 beside a marker file that says 50 and
    has no store: the file is kept, reads 50 after nine positions, and the
    checkpoint of position 10 lowers it to 10. *)
Lemma stale_marker_is_lowered :
  let st1 := (check_resume "out.csv" "y" (start stale_marker_fs [])).2 in
  let marker n :=
    read_marker "out.csv" (files (after_positions "out.csv" 0 1 twelve_titles n st1).2) in
  (check_resume "out.csv" "y" (start stale_marker_fs [])).1 = inr 1
  ∧ prompts (trace st1) = []
  ∧ marker 9%nat = Some 50
  ∧ marker 10%nat = Some 10.
Proof. vm_compute. repeat split. Qed.

Lemma checkpoint_witness :
  read_marker "out.csv"
    (files (after_positions "out.csv" 0%Q 1 twelve_titles 10 (start ∅ [])).2) = Some 10
  ∧ ∃ b, read_marker "out.csv"
           (files (after_positions "out.csv" 0%Q 1 twelve_titles 12 (start ∅ [])).2) = Some b
         ∧ 10 ≤ b.
Proof.
  pose proof (marker_checkpointed_and_monotone twelve_titles "out.csv" 0%Q 1 (start ∅ []))
    as [Ha Hmono].
  assert (H10 : read_marker "out.csv"
            (files (after_positions "out.csv" 0%Q 1 twelve_titles 10 (start ∅ [])).2) = Some 10)
    by (apply (Ha 10%nat); [cbn; lia | lia | reflexivity]).
  split; [exact H10|].
  apply (Hmono (fun found Hf => ltac:(vm_compute in Hf; discriminate Hf)) 10%nat 12%nat 10);
    [lia | exact H10].
Defined.

(** A resumed run over twelve titles processes two of them: the counters
    add up to 2, not to 12, and positions 1 to 10 yield no record. *)
Lemma resumed_run_counts_its_segment_only :
  ∃ l st',
    process_tv_list "list.txt" "out.csv" 0 " Y " (start interrupted_fs resumed_script)
    = (inr l, st')
    ∧ read_titles (file_text [Text (PyStr.join newline twelve_titles)]) = twelve_titles
    ∧ searches (trace st') = ["T11"; "T12"]
    ∧ success_count l + failed_count l = 2
    ∧ success_count l + failed_count l ≠ Z.of_nat (length twelve_titles).
Proof.
  eexists _, _. split; [vm_compute; reflexivity|].
  split; [vm_compute; reflexivity|].
  split; [vm_compute; reflexivity|].
  split; [vm_compute; reflexivity|].
  vm_compute. discriminate.
Qed.

Lemma one_outcome_witness :
  ∃ l, (process_titles ["Show A"; "Show B"; "Show C"] "out.csv" 0 "y"
          (start ∅ abc_script)).1 = inr l
       ∧ success_count l + failed_count l = 3.
Proof.
  destruct (one_outcome_per_processed_position ["Show A"; "Show B"; "Show C"] "out.csv" 0%Q "y"
              (start ∅ abc_script))
    as (sp & st1 & l & st2 & os & Hstart & _ & Hrun & _ & _ & _ & _ & _ & _ & Hfresh & _).
  exists l. split; [exact Hrun|].
  apply Hfresh.
  assert (Hc : (check_resume "out.csv" "y" (start ∅ abc_script)).1 = inr 1)
    by (vm_compute; reflexivity).
  rewrite Hstart in Hc. by injection Hc.
Defined.

Lemma backoff_witness :
  ∃ st', search_tv_show "Show C" 3 (start ∅ abc_script)
         = ((Some (series "0000003" "Show C"), None), st')
         ∧ sleeps (trace st') = [2%Q; 4%Q]
         ∧ movie_bool (series "0000003" "Show C") = true
         ∧ success_count (process_position "out.csv" 0 1 1 (1, "Show C") (mkLocals [] 0 0)
                            (start ∅ abc_script)).1 = 1
         ∧ failed_count (process_position "out.csv" 0 1 1 (1, "Show C") (mkLocals [] 0 0)
                           (start ∅ abc_script)).1 = 0.
Proof.
  destruct (transient_errors_back_off (World := scripted_world) "Show C" 3)
    as (_ & _ & _ & _ & Hscenario).
  edestruct (Hscenario (start ∅ abc_script)) as (tr & Hrun & Hsleeps & _ & Hsuccess & _).
  - vm_compute. reflexivity.
  - reflexivity.
  - vm_compute. reflexivity.
  - reflexivity.
  - vm_compute. reflexivity.
  - eapply policy_skip_other_kind; [reflexivity | reflexivity |].
    eapply policy_accept; reflexivity.
  - eexists. split; [exact Hrun|]. split; [exact Hsleeps|]. split; [reflexivity|].
    specialize (Hsuccess "out.csv" 0%Q 1 1 1 (mkLocals [] 0 0)).
    lazymatch type of Hsuccess with
    | context [extract_show_data ?w ?r] =>
        assert (Hok : match extract_show_data w r with
                      | inl _ => false
                      | inr _ => true
                      end = true) by (vm_compute; reflexivity);
        destruct (extract_show_data w r) as [e|show_data] eqn:Hx; [discriminate Hok|]
    end.
    pose proof (Hsuccess show_data ltac:(lia) eq_refl eq_refl) as Hstep.
    cbn zeta in Hstep. rewrite Hstep. split; reflexivity.
Defined.

(** Two rate-limit errors, then an answer with a series that carries no
    title: the lookup sleeps 2 and 4 seconds and returns the series, but the
    series is falsy and the item is recorded as a failure, not a success. *)
Lemma untitled_series_is_recorded_as_failure :
  let st := start ∅ untitled_script in
  let r := process_position "out.csv" 0 1 1 (1, "Ghost") (mkLocals [] 0 0) st in
  transient rate_limited = true
  ∧ (search_tv_show "Ghost" 3 st).1 = (Some (untitled "0000005"), None)
  ∧ sleeps (trace r.2) = [2%Q; 4%Q]
  ∧ (success_count r.1, failed_count r.1) = (0, 1)
  ∧ files r.2 !! "out_failed_list.txt" = Some [Text ("Ghost" +:+ newline)]
  ∧ files r.2 !! "out_temp.csv" = None.
Proof. vm_compute. repeat split. Qed.

Lemma permanent_witness :
  let st := start ∅ [("Bad", inl broken)] in
  transient broken = false
  ∧ (process_position "out.csv" 0 1 1 (1, "Bad") (mkLocals [] 0 0) st).1 = mkLocals [] 1 0
  ∧ sleeps (trace (process_position "out.csv" 0 1 1 (1, "Bad") (mkLocals [] 0 0) st).2) = [].
Proof.
  intros st. split; [reflexivity|].
  destruct (permanent_error_fails_at_once "Bad" st (mkWorld [] "2024-05-01") broken)
    as (_ & _ & _ & Hstep); [reflexivity | reflexivity |].
  rewrite (Hstep "out.csv" 0%Q 1 1 1 (mkLocals [] 0 0)) by lia.
  split; reflexivity.
Defined.

Lemma candidates_witness :
  let st := start ∅ [("Lost", inr three_candidates)] in
  search_movie (world st) "Lost" = (mkWorld [] "2024-05-01", inr three_candidates)
  ∧ ∃ examined w' found,
      matching_policy (mkWorld [] "2024-05-01") three_candidates examined w' found
      ∧ examined `prefix_of` three_candidates.
Proof.
  intros st.
  assert (Hs : search_movie (world st) "Lost" = (mkWorld [] "2024-05-01", inr three_candidates))
    by reflexivity.
  split; [exact Hs|].
  destruct (candidates_walked_in_order "Lost" 3 0 [1; 2] st _ _ Hs)
    as (examined & w' & found & Hpol & _ & Hprefix & _).
  by exists examined, w', found.
Defined.

(** The walk of the three candidates: the first cannot be fetched, the
    second is a film, the third is returned; each is fetched once. *)
Example candidates_example :
  let st := start ∅ [("Lost", inr three_candidates)] in
  (search_tv_show "Lost" 3 st).1 = (Some (series "0000009" "Lost"), None)
  ∧ trace (search_tv_show "Lost" 3 st).2
    = EvSearch "Lost" :: (EvUpdate <$> three_candidates).
Proof. split; reflexivity. Qed.

(** After an interruption past the marker, the success of position 11 is
    in the provisional store; the resumed run processes position 11 again
    and the final output holds that very row, while the row of position 3
    is lost. *)
Lemma tail_success_reappears_after_resume :
  ∃ store cells l st' out,
    read_marker "out.csv" (files next_invocation) = Some 10
    ∧ files next_invocation !! "out_temp.csv" = Some store
    ∧ cells !! 0%nat = Some (PInt 11)
    ∧ last store = Some (Row cells)
    ∧ process_tv_list "list.txt" "out.csv" 0 "y" next_invocation = (inr l, st')
    ∧ files st' !! "out.csv" = Some out
    ∧ out = [header_row; Row cells].
Proof.
  eexists _, _, _, _, _.
  split; [vm_compute; reflexivity|].
  split; [vm_compute; reflexivity|].
  split; [|split; [vm_compute; reflexivity|]]; [reflexivity|].
  split; [vm_compute; reflexivity|].
  split; vm_compute; reflexivity.
Qed.

Lemma final_output_witness :
  ∃ l st',
    process_titles twelve_titles "out.csv" 0 " Y " (start interrupted_fs resumed_script)
    = (inr l, st')
    ∧ files st' !! "out.csv" = Some (final_output (results l))
    ∧ Forall (fun row => ∃ p, row_position row = Some p ∧ 10 < p) (results l).
Proof.
  destruct (final_output_is_current_segment twelve_titles "out.csv" 0%Q " Y "
              (start interrupted_fs resumed_script))
    as (sp & st1 & l & st' & _ & Hrun & Hout & _ & _ & _ & Hresumed & _).
  exists l, st'. split; [exact Hrun|]. split; [exact Hout|].
  apply Hresumed.
  - vm_compute. reflexivity.
  - lia.
  - vm_compute. eauto.
  - reflexivity.
Defined.

Lemma restart_witness :
  ∃ st1,
    check_resume "out.csv" "n" (start interrupted_fs resumed_script) = (inr 1, st1)
    ∧ files st1 !! "out_progress.txt" = None
    ∧ files st1 !! "out_failed.txt" = Some old_failures
    ∧ files st1 !! "out_failed_list.txt" = Some [Text "T05"].
Proof.
  destruct (restart_clears_checkpoint_only "out.csv" "n" (start interrupted_fs resumed_script) 10)
    as (st1 & Hstart & _ & Hprogress & _ & Hfailed & Hlist & _).
  - vm_compute. reflexivity.
  - lia.
  - vm_compute. eauto.
  - reflexivity.
  - exists st1. split; [exact Hstart|]. split; [exact Hprogress|].
    split; (etransitivity; [eassumption | vm_compute; reflexivity]).
Defined.

Lemma fresh_store_witness :
  ∃ st1,
    check_resume "out.csv" "y" (start ∅ []) = (inr 1, st1)
    ∧ files st1 !! "out_temp.csv"
      = Some [header_row; Row (replicate 17 (PStr EmptyString))]
    ∧ files st1 !! "out_temp.csv" ≠ Some [header_row].
Proof.
  destruct (fresh_store_has_an_empty_row "out.csv" "y" (start ∅ []))
    as (st1 & Hstart & _ & _ & Hstore & Hne); [reflexivity | reflexivity |].
  exists st1. split; [exact Hstart|]. split; [exact Hstore | exact Hne].
Defined.

Lemma zero_marker_witness :
  (load_progress "out.csv" (start zero_marker_fs resumed_script)).1 = Some 0
  ∧ (check_resume "out.csv" "y" (start zero_marker_fs resumed_script)).1 = inr 1
  ∧ prompts (trace (check_resume "out.csv" "y" (start zero_marker_fs resumed_script)).2) = [].
Proof.
  assert (H0 : (load_progress "out.csv" (start zero_marker_fs resumed_script)).1 = Some 0)
    by (vm_compute; reflexivity).
  split; [exact H0|].
  destruct (load_progress_total_zero_is_absent "out.csv" (start zero_marker_fs resumed_script))
    as (_ & _ & _ & _ & Hzero).
  destruct (Hzero H0 "y") as (_ & Hstart & _ & Hprompts & _).
  split; [by rewrite Hstart | exact Hprompts].
Defined.

(** ** The further properties at concrete inputs *)

Lemma save_load_witness :
  within_str_limit 40
  ∧ load_progress "out.csv" (save_progress "out.csv" 40 (start ∅ [])).2
    = (Some 40, (save_progress "out.csv" 40 (start ∅ [])).2).
Proof.
  assert (Hlimit : within_str_limit 40) by (vm_compute; reflexivity).
  split; [exact Hlimit|].
  destruct (save_then_load_progress "out.csv" 40 (start ∅ []) Hlimit) as [Hload _].
  exact Hload.
Defined.

Lemma white_space_marker_witness :
  let fs : filesystem := {[ "out_progress.txt" := [Text (" " +:+ PyInt.str 40 +:+ newline)] ]} in
  load_progress "out.csv" (start fs []) = (Some 40, start fs []).
Proof.
  intros fs.
  apply (load_progress_ignores_white_space "out.csv" (start fs []) " " newline 40);
    [vm_compute; reflexivity | reflexivity..].
Defined.

Lemma resume_answer_witness :
  resume_offer "out.csv" interrupted_fs = Some 11
  ∧ (check_resume "out.csv" " Y " (start interrupted_fs resumed_script)).1 = inr 11
  ∧ (check_resume "out.csv" "yes" (start interrupted_fs resumed_script)).1 = inr 1.
Proof.
  assert (Hoffer : resume_offer "out.csv" (files (start interrupted_fs resumed_script))
                   = Some 11) by (vm_compute; reflexivity).
  split; [exact Hoffer|].
  destruct (resume_answer_is_one_letter "out.csv" " Y " _ 11 Hoffer) as [Hyes _].
  destruct (resume_answer_is_one_letter "out.csv" "yes" _ 11 Hoffer) as [_ Hno].
  split.
  - rewrite Hyes; [reflexivity|]. right. reflexivity.
  - rewrite Hno; [reflexivity|]. intros [H|H]; vm_compute in H; discriminate H.
Defined.

Lemma negative_delay_witness :
  process_titles ["Show A"; "Show B"] "out.csv" (-1) "y" (start ∅ abc_script)
  = process_titles ["Show A"; "Show B"] "out.csv" 0 "y" (start ∅ abc_script).
Proof.
  apply (nonpositive_delay_is_no_delay ["Show A"; "Show B"] "out.csv" (-1)%Q "y"
           (start ∅ abc_script)).
  reflexivity.
Defined.

Lemma row_layout_witness :
  ∃ show_data,
    extract_show_data (mkWorld [] "2024-05-01") (series "0000001" "Show A") = inr show_data
    ∧ dict_to_list (<["Position" := PInt 1]> show_data) !! 5%nat = Some (PStr "Show A")
    ∧ dict_to_list (<["Position" := PInt 1]> show_data) !! 1%nat = Some (PStr "tt0000001").
Proof.
  assert (Hok : match extract_show_data (mkWorld [] "2024-05-01")
                        (series "0000001" "Show A") with
                | inl _ => false
                | inr _ => true
                end = true) by (vm_compute; reflexivity).
  destruct (extract_show_data (mkWorld [] "2024-05-01") (series "0000001" "Show A"))
    as [e|show_data] eqn:He; [discriminate Hok|].
  exists show_data. split; [reflexivity|].
  destruct (extracted_row_layout _ _ _ 1 He) as (runtime & genres & release & creators
                                                 & Hrow & _).
  cbn zeta in Hrow. rewrite Hrow. split; reflexivity.
Defined.

Lemma release_date_witness :
  ∃ show_data,
    extract_show_data (mkWorld [] "2024-05-01") (series "0000001" "Show A") = inr show_data
    ∧ show_data !! "Release Date" = Some (PStr "2008-01-01").
Proof.
  assert (Hok : match extract_show_data (mkWorld [] "2024-05-01")
                        (series "0000001" "Show A") with
                | inl _ => false
                | inr _ => true
                end = true) by (vm_compute; reflexivity).
  destruct (extract_show_data (mkWorld [] "2024-05-01") (series "0000001" "Show A"))
    as [e|show_data] eqn:He; [discriminate Hok|].
  exists show_data. split; [reflexivity|].
  destruct (extracted_release_date _ _ _ He) as (_ & Hyear & _).
  rewrite (Hyear (PInt 2008)); reflexivity.
Defined.

Lemma written_lines_witness :
  read_titles (PyStr.join newline ["Show A"; "Show B"]) = ["Show A"; "Show B"]
  ∧ read_titles (PyStr.join newline ["Show A"; "Show B"] +:+ newline) = ["Show A"; "Show B"].
Proof.
  apply (read_titles_of_written_lines ["Show A"; "Show B"]).
  repeat (apply Forall_cons; split; [repeat split; discriminate|]).
  apply Forall_nil_2.
Defined.

Lemma untouched_input_witness :
  files (process_tv_list "list.txt" "out.csv" 0 "y" (start abc_input abc_script)).2
    !! "list.txt"
  = abc_input !! "list.txt".
Proof.
  apply (run_touches_only_its_artifacts "list.txt" "out.csv" 0%Q "y"
           (start abc_input abc_script) "list.txt").
  unfold artifacts. rewrite !not_elem_of_cons.
  repeat split; try (vm_compute; discriminate). apply not_elem_of_nil.
Defined.

Lemma blank_input_witness :
  let fs : filesystem := {[ "list.txt" := [Text (" " +:+ newline +:+ newline)] ]} in
  ∃ st',
    process_tv_list "list.txt" "out.csv" 0 "y" (start fs abc_script)
    = (inr (mkLocals [] 0 0), st')
    ∧ files st' !! "out.csv" = Some [header_row]
    ∧ trace st' = [].
Proof.
  intros fs.
  destruct (blank_input_gives_header_only "list.txt" "out.csv" 0%Q "y" (start fs abc_script)
              [Text (" " +:+ newline +:+ newline)])
    as (st' & Hrun & Hout & _ & Htrace); [reflexivity | reflexivity |].
  exists st'. split; [exact Hrun|]. split; [exact Hout|].
  rewrite Htrace. reflexivity.
Defined.

Lemma last_multiple_witness :
  read_marker "out.csv"
    (files (after_positions "out.csv" 0 1 twelve_titles 11 (start titles_fs first_script)).2)
  = Some 10.
Proof.
  assert (Hn : (11 ≤ length twelve_titles)%nat) by (cbn; lia).
  pose proof (marker_is_last_multiple_of_ten "out.csv" 0%Q 1 twelve_titles 11
                (start titles_fs first_script) Hn) as Hmarker.
  cbn zeta in Hmarker. exact Hmarker.
Defined.
